(** * parser.py: a scanner and a recursive-descent evaluator

    A shallow embedding of [parser.py] and the properties of its
    specification.

    Conventions of the embedding.
    - A Python [str] is a [string]; a character of code [n] stands for the
      code point U+00[n] (the Latin-1 range).  [isspace], [isdigit],
      [isalpha], [isalnum] and [upper] are Python's on that range.
    - A Python [float] is an IEEE 754 binary64 number, [spec_float] with
      [prec = 53] and [emax = 1024]; [*], [/] and [+] round to nearest even
      ([SFmul], [SFdiv], [SFadd]).
    - Python's [int] is [Z]; [bool] is [bool]; line and column are [Z].
    - An exception ends the evaluation: every method returns an [outcome].
      Loops and the mutual recursion of the grammar run on a fuel counter;
      [OutOfFuel] is shown never to be the outcome of [evaluate].  The
      interpreter's recursion limit is not modelled.
    - The program is embedded by value, each method passing on the fields
      of its object, and again on a store of objects, where a parser holds
      the address of its lexer and what a call has written stays written,
      also when it raises; the two are shown to agree. *)

From Stdlib Require Import ZArith QArith String Ascii List Bool Lia.
From Stdlib Require Import SpecFloat.
Import ListNotations.

Local Open Scope string_scope.
Local Open Scope Z_scope.

(** ** Token kinds *)

Inductive TokenType :=
| IF | THEN | ELSE | PLUS | MINUS | MULTIPLY | DIVIDE | POWER | MODULO
| AND | OR | NOT | EQUAL | NOT_EQUAL | LESS | GREATER | NUMBER
| LPAREN | RPAREN | EOF.

Definition TokenType_eq_dec (a b : TokenType) : {a = b} + {a <> b}.
Proof. decide equality. Defined.

Definition TokenType_eqb (a b : TokenType) : bool :=
  if TokenType_eq_dec a b then true else false.

(** ** Outcomes: a value, a raised exception, or no fuel left *)

(** The exceptions the program can raise.  The first four are the
    [Exception(...)] of [Lexer.error], [Parser.eat], [Parser.factor] and
    [Parser.term]; the last three are raised by the host's [%], [float()]
    and int-to-float conversion. *)
Inductive exn :=
| UnexpectedCharacter (c : option ascii) (line column : Z)
| ExpectedToken (expected got : TokenType)
| InvalidFactor
| DivisionByZero
| ZeroDivisionError
| ValueError (s : string)
| OverflowError.

Inductive outcome (A : Type) :=
| Ok (a : A)
| Raise (e : exn)
| OutOfFuel.

Arguments Ok {A} a.
Arguments Raise {A} e.
Arguments OutOfFuel {A}.

Definition bind {A B : Type} (m : outcome A) (k : A -> outcome B) : outcome B :=
  match m with
  | Ok a => k a
  | Raise e => Raise e
  | OutOfFuel => OutOfFuel
  end.

Notation "x <- m ;; k" := (bind m (fun x => k))
  (at level 61, m at next level, right associativity).
Notation "' p <- m ;; k" := (bind m (fun x => let p := x in k))
  (at level 61, p pattern, m at next level, right associativity).

(** ** The host's numbers *)

Module Float.

Definition prec : Z := 53.
Definition emax : Z := 1024.

Definition float := spec_float.

Definition zero : float := S754_zero false.

Definition mul : float -> float -> float := SFmul prec emax.
Definition div : float -> float -> float := SFdiv prec emax.
Definition add : float -> float -> float := SFadd prec emax.
Definition neg : float -> float := SFopp.

(** [x == 0.0], [x < 0.0] and [x > 0.0] *)
Definition is_zero (x : float) : bool := SFeqb x zero.
Definition ltb0 (x : float) : bool := SFltb x zero.
Definition gtb0 (x : float) : bool := SFltb zero x.

(** The float nearest to the integer [z] (ties to even); an infinity
    when [z] is out of range. *)
Definition of_Z (z : Z) : float := binary_normalize prec emax z 0 false.

(** The float nearest to [m / 10^k], for [0 <= m]: the quotient of the two
    integers is rounded once. *)
Definition of_decimal (m : Z) (k : Z) : float :=
  match m with
  | Zpos p => div (S754_finite false p 0) (S754_finite false (Z.to_pos (10 ^ k)) 0)
  | _ => zero
  end.

Definition copysign0 (y : float) : float :=
  match y with
  | S754_zero s | S754_infinity s | S754_finite s _ _ => S754_zero s
  | S754_nan => S754_zero false
  end.

(** C's [fmod]: the exact remainder [x - n*y], [n] the quotient truncated
    toward zero; it has the sign of [x] and is smaller than [y] in
    magnitude, so it is representable and only left-aligned to the
    canonical exponent. *)
Definition fmod (x y : float) : float :=
  match x, y with
  | S754_nan, _ | _, S754_nan => S754_nan
  | S754_infinity _, _ => S754_nan
  | _, S754_zero _ => S754_nan
  | S754_zero _, _ => x
  | S754_finite _ _ _, S754_infinity _ => x
  | S754_finite sx mx ex, S754_finite sy my ey =>
      let ez := Z.min ex ey in
      let r := (Zpos mx * 2 ^ (ex - ez)) mod (Zpos my * 2 ^ (ey - ez)) in
      match r with
      | Zpos mr =>
          let '(mz, e) := shl_align mr ez (fexp prec emax (Zpos (digits2_pos mr) + ez)) in
          S754_finite sx mz e
      | _ => S754_zero sx
      end
  end.

End Float.

Import Float.

(** A Python value of the evaluator: [float], [bool] (from [not]) or [int]
    (from [-] or [*] on booleans). *)
Inductive value :=
| VFloat (f : float)
| VBool (b : bool)
| VInt (z : Z).

(** The operand as a Python [int], when it is one ([bool] is a subclass). *)
Definition as_int (v : value) : option Z :=
  match v with
  | VFloat _ => None
  | VBool b => Some (if b then 1 else 0)
  | VInt z => Some z
  end.

(** [PyLong_AsDouble]: int to float, or [OverflowError]. *)
Definition int_to_float (z : Z) : outcome float :=
  match of_Z z with
  | S754_infinity _ => Raise OverflowError
  | f => Ok f
  end.

Definition to_float (v : value) : outcome float :=
  match v with
  | VFloat f => Ok f
  | VBool b => int_to_float (if b then 1 else 0)
  | VInt z => int_to_float z
  end.

(** [bool(v)] *)
Definition truthy (v : value) : bool :=
  match v with
  | VFloat f => negb (is_zero f)
  | VBool b => b
  | VInt z => negb (z =? 0)
  end.

(** [not v] *)
Definition py_not (v : value) : value := VBool (negb (truthy v)).

(** [-v] *)
Definition py_neg (v : value) : value :=
  match v with
  | VFloat f => VFloat (neg f)
  | VBool b => VInt (- (if b then 1 else 0))
  | VInt z => VInt (- z)
  end.

(** [v == 0] *)
Definition py_eq_zero (v : value) : bool :=
  match v with
  | VFloat f => is_zero f
  | VBool b => negb b
  | VInt z => z =? 0
  end.

(** [a * b] *)
Definition py_mul (a b : value) : outcome value :=
  match as_int a, as_int b with
  | Some x, Some y => Ok (VInt (x * y))
  | _, _ =>
      x <- to_float a ;;
      y <- to_float b ;;
      Ok (VFloat (mul x y))
  end.

(** [float.__truediv__] *)
Definition float_div (x y : float) : outcome float :=
  if is_zero y then Raise ZeroDivisionError else Ok (div x y).

(** [int.__truediv__]: the quotient of the two integers rounded once. *)
Definition long_true_divide (x y : Z) : outcome float :=
  if y =? 0 then Raise ZeroDivisionError
  else
    let q := match x with
             | Z0 => S754_zero (y <? 0)
             | _ => div (S754_finite (x <? 0) (Z.to_pos (Z.abs x)) 0)
                        (S754_finite (y <? 0) (Z.to_pos (Z.abs y)) 0)
             end in
    match q with
    | S754_infinity _ => Raise OverflowError
    | _ => Ok q
    end.

(** [a / b] *)
Definition py_truediv (a b : value) : outcome value :=
  match as_int a, as_int b with
  | Some x, Some y => q <- long_true_divide x y ;; Ok (VFloat q)
  | _, _ =>
      x <- to_float a ;;
      y <- to_float b ;;
      q <- float_div x y ;;
      Ok (VFloat q)
  end.

(** [float.__mod__] (CPython's [float_rem]): [fmod], then the remainder is
    moved to the side of the divisor. *)
Definition float_rem (vx wx : float) : outcome float :=
  if is_zero wx then Raise ZeroDivisionError
  else
    let mod_ := fmod vx wx in
    if negb (is_zero mod_) then
      if negb (Bool.eqb (ltb0 wx) (ltb0 mod_)) then Ok (add mod_ wx)
      else Ok mod_
    else Ok (copysign0 wx).

(** [int.__mod__]: floored. *)
Definition long_mod (x y : Z) : outcome Z :=
  if y =? 0 then Raise ZeroDivisionError else Ok (x mod y).

(** [a % b] *)
Definition py_mod (a b : value) : outcome value :=
  match as_int a, as_int b with
  | Some x, Some y => r <- long_mod x y ;; Ok (VInt r)
  | _, _ =>
      x <- to_float a ;;
      y <- to_float b ;;
      r <- float_rem x y ;;
      Ok (VFloat r)
  end.

(** ** Characters and strings of the host *)

Definition code (c : ascii) : N := N_of_ascii c.

Definition in_range (lo hi : N) (c : ascii) : bool :=
  ((lo <=? code c) && (code c <=? hi))%N.

Definition newline : ascii := ascii_of_N 10.

(** [c.isspace()]: TAB, LF, VT, FF, CR, FS, GS, RS, US, space, NEL, NBSP. *)
Definition isspace (c : ascii) : bool :=
  in_range 9 13 c || in_range 28 32 c || in_range 133 133 c || in_range 160 160 c.

(** The decimal digits [0]..[9]. *)
Definition isdecimal (c : ascii) : bool := in_range 48 57 c.

(** [c.isdigit()]: the decimal digits and the superscripts 2, 3 and 1. *)
Definition isdigit (c : ascii) : bool :=
  isdecimal c || in_range 178 179 c || in_range 185 185 c.

(** [c.isalpha()]: the letters of Latin-1. *)
Definition isalpha (c : ascii) : bool :=
  in_range 65 90 c || in_range 97 122 c
  || in_range 170 170 c || in_range 181 181 c || in_range 186 186 c
  || in_range 192 214 c || in_range 216 246 c || in_range 248 255 c.

(** [c.isalnum()]: letters, digits and the fractions 1/4, 1/2 and 3/4. *)
Definition isalnum (c : ascii) : bool :=
  isalpha c || isdigit c || in_range 188 190 c.

(** The code points of [c.upper()]: sharp s becomes [SS]; the upper cases of
    the micro sign and of y with diaeresis lie outside Latin-1. *)
Definition upper_char (c : ascii) : list N :=
  if in_range 97 122 c then [(code c - 32)%N]
  else if in_range 181 181 c then [924%N]
  else if in_range 223 223 c then [83%N; 83%N]
  else if in_range 224 246 c || in_range 248 254 c then [(code c - 32)%N]
  else if in_range 255 255 c then [376%N]
  else [code c].

(** The code points of [s.upper()]. *)
Fixpoint upper (s : string) : list N :=
  match s with
  | EmptyString => []
  | String c s' => upper_char c ++ upper s'
  end.

Fixpoint code_points (s : string) : list N :=
  match s with
  | EmptyString => []
  | String c s' => code c :: code_points s'
  end.

Definition len (s : string) : Z := Z.of_nat (String.length s).

(** [result += c] *)
Definition append_char (s : string) (c : ascii) : string :=
  s ++ String c EmptyString.

(** [float(s)] on the texts [Lexer.number] builds, which hold only [isdigit]
    characters and dots: decimal digits with at most one dot and at least
    one digit denote the nearest float, any other text is a [ValueError]. *)
Fixpoint scan_literal (s : string) (dot : bool) (digits : bool) (m k : Z)
  : option (Z * Z) :=
  match s with
  | EmptyString => if digits then Some (m, k) else None
  | String c s' =>
      if isdecimal c then
        scan_literal s' dot true (10 * m + (Z.of_N (code c) - 48))
                     (if dot then k + 1 else k)
      else if Ascii.eqb c "." then
        if dot then None else scan_literal s' true digits m k
      else None
  end.

Definition py_float (s : string) : outcome float :=
  match scan_literal s false false 0 0 with
  | Some (m, k) => Ok (of_decimal m k)
  | None => Raise (ValueError s)
  end.

(** ** Tokens *)

(** The [value] of a token: the float of a [NUMBER], the text of an operator
    or keyword, [None] at the end of the input. *)
Inductive token_value :=
| TVfloat (f : float)
| TVstr (s : string)
| TVNone.

Record Token := mkToken {
  ttype : TokenType;
  tvalue : token_value;
  tline : Z;
  tcolumn : Z
}.

(** ** Lexer *)

Record Lexer := mkLexer {
  text : string;
  pos : nat;
  current_char : option ascii;
  line : Z;
  column : Z
}.

(** [Lexer.__init__] *)
Definition Lexer_init (t : string) : Lexer :=
  {| text := t;
     pos := 0;
     current_char := match t with
                     | EmptyString => None
                     | String c _ => Some c
                     end;
     line := 1;
     column := 1 |}.

(** [self.keywords] *)
Definition keywords : list (string * TokenType) :=
  [("IF", IF); ("THEN", THEN); ("ELSE", ELSE);
   ("AND", AND); ("OR", OR); ("NOT", NOT)].

Definition N_list_eqb (a b : list N) : bool :=
  if list_eq_dec N.eq_dec a b then true else false.

(** [self.keywords.get(u)] for an uppercased text [u], with the key found. *)
Definition keywords_get (u : list N) : option (string * TokenType) :=
  find (fun kv => N_list_eqb (code_points (fst kv)) u) keywords.

(** [Lexer.error] *)
Definition error {A : Type} (s : Lexer) : outcome A :=
  Raise (UnexpectedCharacter (current_char s) (line s) (column s)).

(** [Lexer.advance] *)
Definition advance (s : Lexer) : Lexer :=
  let at_newline := match current_char s with
                    | Some c => Ascii.eqb c newline
                    | None => false
                    end in
  let line1 := if at_newline then line s + 1 else line s in
  let column1 := if at_newline then 0 else column s in
  let pos1 := S (pos s) in
  {| text := text s;
     pos := pos1;
     current_char := String.get pos1 (text s);
     line := line1;
     column := column1 + 1 |}.

(** Fuel for one loop of the lexer: more than the characters left. *)
Definition lexer_fuel (s : Lexer) : nat :=
  S (String.length (text s) - pos s).

(** [Lexer.skip_whitespace] *)
Fixpoint skip_whitespace_loop (n : nat) (s : Lexer) {struct n} : outcome Lexer :=
  match current_char s with
  | Some c =>
      if isspace c then
        match n with
        | O => OutOfFuel
        | S n' => skip_whitespace_loop n' (advance s)
        end
      else Ok s
  | None => Ok s
  end.

Definition skip_whitespace (s : Lexer) : outcome Lexer :=
  skip_whitespace_loop (lexer_fuel s) s.

(** The loop shared by [Lexer.number] and [Lexer._id]:
    [while self.current_char and cls(self.current_char):
       result += self.current_char; self.advance()] *)
Fixpoint collect_while (cls : ascii -> bool) (n : nat) (result : string) (s : Lexer)
  {struct n} : outcome (string * Lexer) :=
  match current_char s with
  | Some c =>
      if cls c then
        match n with
        | O => OutOfFuel
        | S n' => collect_while cls n' (append_char result c) (advance s)
        end
      else Ok (result, s)
  | None => Ok (result, s)
  end.

Definition number_class (c : ascii) : bool := isdigit c || Ascii.eqb c ".".

(** [Lexer.number] *)
Definition number (s : Lexer) : outcome (Token * Lexer) :=
  '(result, s1) <- collect_while number_class (lexer_fuel s) "" s ;;
  f <- py_float result ;;
  Ok (mkToken NUMBER (TVfloat f) (line s1) (column s1 - len result), s1).

(** [Lexer._id]; the value of the token, [result.upper()], is the key found. *)
Definition _id (s : Lexer) : outcome (Token * Lexer) :=
  '(result, s1) <- collect_while isalnum (lexer_fuel s) "" s ;;
  match keywords_get (upper result) with
  | Some (key, token_type) =>
      Ok (mkToken token_type (TVstr key) (line s1) (column s1 - len result), s1)
  | None => error s1
  end.

(** A one-character token: advance, then report the column before. *)
Definition symbol (t : TokenType) (v : string) (s : Lexer) : outcome (Token * Lexer) :=
  let s1 := advance s in
  Ok (mkToken t (TVstr v) (line s1) (column s1 - 1), s1).

(** [Lexer.get_next_token] *)
Fixpoint get_next_token_loop (n : nat) (s : Lexer) {struct n} : outcome (Token * Lexer) :=
  match current_char s with
  | Some c =>
      if isspace c then
        s1 <- skip_whitespace s ;;
        match n with
        | O => OutOfFuel
        | S n' => get_next_token_loop n' s1
        end
      else if isdigit c then number s
      else if isalpha c then _id s
      else if Ascii.eqb c "+" then symbol PLUS "+" s
      else if Ascii.eqb c "-" then symbol MINUS "-" s
      else if Ascii.eqb c "*" then symbol MULTIPLY "*" s
      else if Ascii.eqb c "/" then symbol DIVIDE "/" s
      else if Ascii.eqb c "^" then symbol POWER "^" s
      else if Ascii.eqb c "%" then symbol MODULO "%" s
      else if Ascii.eqb c "(" then symbol LPAREN "(" s
      else if Ascii.eqb c ")" then symbol RPAREN ")" s
      else if Ascii.eqb c "<" then symbol LESS "<" s
      else if Ascii.eqb c ">" then symbol GREATER ">" s
      else error s
  | None => Ok (mkToken EOF TVNone (line s) (column s), s)
  end.

Definition get_next_token (s : Lexer) : outcome (Token * Lexer) :=
  get_next_token_loop (lexer_fuel s) s.

(** ** Parser *)

Record Parser := mkParser {
  lexer : Lexer;
  current_token : Token
}.

(** [Parser.__init__] *)
Definition Parser_init (l : Lexer) : outcome Parser :=
  '(t, l1) <- get_next_token l ;;
  Ok {| lexer := l1; current_token := t |}.

(** [Parser.eat] *)
Definition eat (token_type : TokenType) (p : Parser) : outcome Parser :=
  if TokenType_eqb (ttype (current_token p)) token_type then
    '(t, l1) <- get_next_token (lexer p) ;;
    Ok {| lexer := l1; current_token := t |}
  else Raise (ExpectedToken token_type (ttype (current_token p))).

(** The [token.value] that [factor] returns for a [NUMBER]; the lexer gives
    every [NUMBER] a float (lemma [get_next_token_NUMBER] below). *)
Definition number_value (t : Token) : value :=
  match tvalue t with
  | TVfloat f => VFloat f
  | _ => VFloat S754_nan
  end.

(** [type in (...)] *)
Definition type_in (t : TokenType) (l : list TokenType) : bool :=
  existsb (TokenType_eqb t) l.

(** The operators of the loop of [Parser.term]. *)
Definition term_operators : list TokenType := [MULTIPLY; DIVIDE; MODULO].

(** [Parser.factor], [Parser.term] (with its loop) and [Parser.expression];
    each call and each round of the loop takes one unit of fuel.  In the
    loop, the [if]/[elif] chain has no [else]: on another token the round
    does nothing, which the loop's condition excludes. *)
Fixpoint factor (n : nat) (p : Parser) {struct n} : outcome (value * Parser) :=
  match n with
  | O => OutOfFuel
  | S n' =>
      let token := current_token p in
      match ttype token with
      | NUMBER =>
          p1 <- eat NUMBER p ;;
          Ok (number_value token, p1)
      | LPAREN =>
          p1 <- eat LPAREN p ;;
          '(result, p2) <- expression n' p1 ;;
          p3 <- eat RPAREN p2 ;;
          Ok (result, p3)
      | NOT =>
          p1 <- eat NOT p ;;
          '(v, p2) <- factor n' p1 ;;
          Ok (py_not v, p2)
      | MINUS =>
          p1 <- eat MINUS p ;;
          '(v, p2) <- factor n' p1 ;;
          Ok (py_neg v, p2)
      | _ => Raise InvalidFactor
      end
  end

with term_loop (n : nat) (result : value) (p : Parser) {struct n}
  : outcome (value * Parser) :=
  if type_in (ttype (current_token p)) term_operators then
    match n with
    | O => OutOfFuel
    | S n' =>
        let token := current_token p in
        match ttype token with
        | MULTIPLY =>
            p1 <- eat MULTIPLY p ;;
            '(v, p2) <- factor n' p1 ;;
            result1 <- py_mul result v ;;
            term_loop n' result1 p2
        | DIVIDE =>
            p1 <- eat DIVIDE p ;;
            '(divisor, p2) <- factor n' p1 ;;
            if py_eq_zero divisor then Raise DivisionByZero
            else
              result1 <- py_truediv result divisor ;;
              term_loop n' result1 p2
        | MODULO =>
            p1 <- eat MODULO p ;;
            '(v, p2) <- factor n' p1 ;;
            result1 <- py_mod result v ;;
            term_loop n' result1 p2
        | _ => term_loop n' result p
        end
    end
  else Ok (result, p)

with term (n : nat) (p : Parser) {struct n} : outcome (value * Parser) :=
  match n with
  | O => OutOfFuel
  | S n' =>
      '(result, p1) <- factor n' p ;;
      term_loop n' result p1
  end

with expression (n : nat) (p : Parser) {struct n} : outcome (value * Parser) :=
  match n with
  | O => OutOfFuel
  | S n' => term n' p
  end.

(** Fuel that [parse] never exhausts on a text of this length. *)
Definition parse_fuel (t : string) : nat := 3 * String.length t + 3.

(** [Parser.parse], with the parser it leaves behind. *)
Definition parse (n : nat) (p : Parser) : outcome (value * Parser) :=
  expression n p.

(** [evaluate], with the parser it leaves behind. *)
Definition evaluate_run (n : nat) (t : string) : outcome (value * Parser) :=
  let lexer := Lexer_init t in
  parser <- Parser_init lexer ;;
  parse n parser.

(** [evaluate] on [n] units of fuel. *)
Definition evaluate_with (n : nat) (t : string) : outcome value :=
  '(v, _) <- evaluate_run n t ;;
  Ok v.

(** [evaluate] *)
Definition evaluate (t : string) : outcome value :=
  evaluate_with (parse_fuel t) t.

(** ** Measures for the fuel *)

(** Characters the lexer has still to read, the current one included. *)
Definition remaining (s : Lexer) : nat :=
  match current_char s with
  | None => O
  | Some _ => S (String.length (text s) - S (pos s))
  end.

(** Tokens the parser can still consume, bounded by the characters left and
    the token in hand. *)
Definition pending (p : Parser) : nat :=
  (remaining (lexer p)
   + (if TokenType_eqb (ttype (current_token p)) EOF then 0 else 1))%nat.

(** ** Reading results *)

(** The rational a finite float stands for. *)
Definition to_Q (x : float) : option Q :=
  match x with
  | S754_zero _ => Some (0 # 1)%Q
  | S754_finite s m e => Some (Qmult (inject_Z (cond_Zopp s (Zpos m))) (Qpower (2 # 1)%Q e))
  | _ => None
  end.

(** The outcome is the binary64 float of value [q]. *)
Definition is_float (r : outcome value) (q : Q) : Prop :=
  exists f x, r = Ok (VFloat f)
    /\ valid_binary prec emax f = true
    /\ to_Q f = Some x /\ Qeq x q.

(** [v < 0] and [v > 0] *)
Definition py_lt0 (v : value) : bool :=
  match v with
  | VFloat f => ltb0 f
  | VBool _ => false
  | VInt z => z <? 0
  end.

Definition py_gt0 (v : value) : bool :=
  match v with
  | VFloat f => gtb0 f
  | VBool b => b
  | VInt z => 0 <? z
  end.

(** ** Predicates of the statements *)

(** What stops a loop of the lexer: the end of the text or a character
    outside the class [cls]. *)
Definition stops_at (cls : ascii -> bool) (s : Lexer) : Prop :=
  match current_char s with
  | None => True
  | Some c => cls c = false
  end.

(** What [get_next_token] returns from the state [s]: the token [t] and the
    state [s1], over the same text, with characters consumed unless the token
    is the end of the input; a [NUMBER] carries a float. *)
Definition scanned (s : Lexer) (t : Token) (s1 : Lexer) : Prop :=
  text s1 = text s
  /\ ((remaining s1 < remaining s)%nat \/ (ttype t = EOF /\ s1 = s))
  /\ (ttype t = NUMBER -> exists f, tvalue t = TVfloat f).

Definition scans (s : Lexer) (r : outcome (Token * Lexer)) : Prop :=
  match r with
  | Ok (t, s1) => scanned s t s1
  | Raise _ => True
  | OutOfFuel => False
  end.

(** The sign carried by a float, when it has one that [<] sees. *)
Definition signed (s : bool) (x : float) : Prop :=
  match x with
  | S754_nan => True
  | S754_zero s1 | S754_infinity s1 | S754_finite s1 _ _ => s1 = s
  end.

(** What [fmod] returns: not a number, a zero, its first operand against an
    infinity, or a finite float strictly below a finite second operand in
    magnitude. *)
Definition below (x y : float) : Prop :=
  match x, y with
  | S754_finite _ mx ex, S754_finite _ my ey =>
      ex <= ey /\ Zpos mx < Zpos my * 2 ^ (ey - ex)
  | S754_finite _ _ _, S754_infinity _ => True
  | S754_finite _ _ _, _ => False
  | S754_infinity _, _ => False
  | _, _ => True
  end.

Fixpoint all_in (cls : ascii -> bool) (s : string) : bool :=
  match s with
  | EmptyString => true
  | String c s' => cls c && all_in cls s'
  end.

(** The integers the grammar can produce: [-1], [0] and [1]. *)
Definition small (v : value) : Prop :=
  match v with
  | VInt z => -1 <= z <= 1
  | _ => True
  end.

(** ** Sample states *)

(** A parser on line 1 of [t], its cursor at index [k] and column [col],
    with [tok] in hand. *)
Definition sample (t : string) (k : nat) (col : Z) (tok : Token) : Parser :=
  {| lexer := mkLexer t k (String.get k t) 1 col; current_token := tok |}.

Definition eof_at (col : Z) : Token := mkToken EOF TVNone 1 col.

(** A text of two lines, the lexer behind its parenthesis, and that token. *)
Definition two_lines : string := " " ++ String newline " (7".
Definition behind_paren : Lexer := mkLexer two_lines 4 (Some "7"%char) 2 3.
Definition paren_token : Token := mkToken LPAREN (TVstr "(") 2 2.

(** The lexer at the end of a blank text, and the token of that end. *)
Definition at_end : Lexer := mkLexer " " 1 None 1 2.
Definition end_token : Token := mkToken EOF TVNone 1 2.

(** [5.0], [-10.0], [3.0] and [2.0] *)
Definition f5 : float := S754_finite false 5629499534213120 (-50).
Definition f10neg : float := S754_finite true 5629499534213120 (-49).
Definition f3 : float := S754_finite false 6755399441055744 (-51).
Definition f2 : float := S754_finite false 4503599627370496 (-51).

(** ** The text under the cursor *)

Definition head (t : string) : option ascii :=
  match t with
  | EmptyString => None
  | String c _ => Some c
  end.

Definition tail (t : string) : string :=
  match t with
  | EmptyString => EmptyString
  | String _ t' => t'
  end.

Fixpoint drop (n : nat) (t : string) : string :=
  match n with
  | O => t
  | S n' => drop n' (tail t)
  end.

(** [self.text[self.pos:]] *)
Definition rest (s : Lexer) : string := drop (pos s) (text s).

(** The cursor and the current character agree:
    [current_char = text[pos] if pos < len(text) else None]. *)
Definition in_step (s : Lexer) : Prop :=
  current_char s = String.get (pos s) (text s).

Fixpoint take_while (cls : ascii -> bool) (t : string) : string :=
  match t with
  | EmptyString => EmptyString
  | String c t' => if cls c then String c (take_while cls t') else EmptyString
  end.

Fixpoint drop_while (cls : ascii -> bool) (t : string) : string :=
  match t with
  | EmptyString => EmptyString
  | String c t' => if cls c then drop_while cls t' else t
  end.

(** The 1-based line and column of the character of index [n] of [t],
    counted from line [l] and column [c] at index 0. *)
Fixpoint line_col (t : string) (n : nat) (l c : Z) : Z * Z :=
  match n, t with
  | S n', String a t' =>
      if Ascii.eqb a newline then line_col t' n' (l + 1) 1
      else line_col t' n' l (c + 1)
  | _, _ => (l, c)
  end.

(** The lexer is where its counters say: cursor and character agree, the
    cursor is within the text or at its end, and line and column are those
    of the cursor. *)
Definition positioned (s : Lexer) : Prop :=
  in_step s
  /\ (pos s <= String.length (text s))%nat
  /\ line_col (text s) (pos s) 1 1 = (line s, column s).

(** The characters that [get_next_token] turns into a one-character token. *)
Definition symbol_type (c : ascii) : option TokenType :=
  if Ascii.eqb c "+" then Some PLUS
  else if Ascii.eqb c "-" then Some MINUS
  else if Ascii.eqb c "*" then Some MULTIPLY
  else if Ascii.eqb c "/" then Some DIVIDE
  else if Ascii.eqb c "^" then Some POWER
  else if Ascii.eqb c "%" then Some MODULO
  else if Ascii.eqb c "(" then Some LPAREN
  else if Ascii.eqb c ")" then Some RPAREN
  else if Ascii.eqb c "<" then Some LESS
  else if Ascii.eqb c ">" then Some GREATER
  else None.

(** A well-formed decimal literal: a decimal digit first, then decimal
    digits with at most one dot. *)
Fixpoint count_dots (t : string) : nat :=
  match t with
  | EmptyString => O
  | String c t' => ((if Ascii.eqb c "." then 1 else 0) + count_dots t')%nat
  end.

Definition decimal_or_dot (c : ascii) : bool := isdecimal c || Ascii.eqb c ".".

Definition literal (t : string) : bool :=
  match t with
  | EmptyString => false
  | String c t' => isdecimal c && all_in decimal_or_dot t' && (count_dots t' <=? 1)%nat
  end.

Definition is_some {A : Type} (o : option A) : bool :=
  match o with Some _ => true | None => false end.

(** The text is empty or starts with a character outside the class. *)
Definition starts_outside (cls : ascii -> bool) (t : string) : Prop :=
  match t with
  | EmptyString => True
  | String c _ => cls c = false
  end.

(** The token a text [a] starts with, when [a] is empty (the end of the
    input) or starts with one of the ten symbols. *)
Definition sep_type (a : string) : option TokenType :=
  match a with
  | EmptyString => Some EOF
  | String c _ => symbol_type c
  end.

(** Two tokens of the same kind and value, wherever they stand. *)
Definition same_token (t t' : Token) : Prop :=
  ttype t' = ttype t /\ tvalue t' = tvalue t.

(** The parser [p'] reads the text that [p] reads, followed by [a]: either
    both hold the same token and [p'] has [a] more to read, or [p] is at the
    end of its text and [p'] holds the first token of [a]. *)
Definition follows (a : string) (p p' : Parser) : Prop :=
  in_step (lexer p) /\ in_step (lexer p')
  /\ ((ttype (current_token p) <> EOF
       /\ same_token (current_token p) (current_token p')
       /\ rest (lexer p') = rest (lexer p) ++ a)
      \/ (ttype (current_token p) = EOF
          /\ sep_type a = Some (ttype (current_token p'))
          /\ rest (lexer p') = tail a)).

(** The whole text [t] is one factor, of value [v]: [factor] reads it from
    its first token to its end. *)
Definition whole_factor (t : string) (v : value) : Prop :=
  exists n p0 q,
    Parser_init (Lexer_init t) = Ok p0
    /\ factor n p0 = Ok (v, q)
    /\ ttype (current_token q) = EOF.

(** An exception of the lexer: an unexpected character, or a run of digits
    and dots that [float] rejects. *)
Definition lexical (e : exn) : Prop :=
  match e with
  | UnexpectedCharacter _ _ _ | ValueError _ => True
  | _ => False
  end.

Definition not_percent (c : ascii) : bool := negb (Ascii.eqb c "%").

(** A parser that has no [%] to read and none in hand. *)
Definition percent_free (p : Parser) : Prop :=
  in_step (lexer p)
  /\ all_in not_percent (rest (lexer p)) = true
  /\ ttype (current_token p) <> MODULO.

(** * A chain of factors *)

(** One round of the loop of [term] as the specification words it: the
    operator [c] on the result so far and the value of the next factor,
    [/] with its check of the divisor first. *)
Definition operate (c : ascii) (result v : value) : outcome value :=
  if Ascii.eqb c "*" then py_mul result v
  else if Ascii.eqb c "/" then
    if py_eq_zero v then Raise DivisionByZero else py_truediv result v
  else py_mod result v.

(** The operators of a chain combined from left to right; each link is an
    operator character, the text of a factor and the value of that
    factor. *)
Fixpoint left_to_right (result : value) (ops : list (ascii * string * value))
  {struct ops} : outcome value :=
  match ops with
  | [] => Ok result
  | (c, _, v) :: ops' => r <- operate c result v ;; left_to_right r ops'
  end.

(** The text of the links, [c1 b1 c2 b2 ...], and of the chain
    [a c1 b1 c2 b2 ...]. *)
Fixpoint behind (ops : list (ascii * string * value)) {struct ops} : string :=
  match ops with
  | [] => ""
  | (c, b, _) :: ops' => String c (b ++ behind ops')
  end.

Definition chain (a : string) (ops : list (ascii * string * value)) : string :=
  a ++ behind ops.

Definition is_operator (c : ascii) : bool :=
  Ascii.eqb c "*" || Ascii.eqb c "/" || Ascii.eqb c "%".

(** Every link has one of the three operators and a text that is one whole
    factor, of the value named. *)
Fixpoint operands (ops : list (ascii * string * value)) {struct ops} : Prop :=
  match ops with
  | [] => True
  | (c, b, v) :: ops' => is_operator c = true /\ whole_factor b v /\ operands ops'
  end.

(** * The objects of a run, in a store *)

(** ** The lexer, written in place *)

(** A method of the lexer reads and writes the fields of [self] and nothing
    else: it gives an outcome and the fields it leaves.  What it has
    written stays written when it raises. *)
Definition method (A : Type) : Type := Lexer -> outcome A * Lexer.

(** A step that returns the fields with its result, or raises with the
    fields as they are in [s]. *)
Definition leaving {A : Type} (s : Lexer) (r : outcome (A * Lexer))
  : outcome A * Lexer :=
  match r with
  | Ok (a, s1) => (Ok a, s1)
  | Raise e => (Raise e, s)
  | OutOfFuel => (OutOfFuel, s)
  end.

(** [Lexer.number]: [float] raises once the run has been read. *)
Definition number_in_place : method Token := fun s =>
  match collect_while number_class (lexer_fuel s) "" s with
  | Ok (result, s1) =>
      leaving s1
        (f <- py_float result ;;
         Ok (mkToken NUMBER (TVfloat f) (line s1) (column s1 - len result), s1))
  | Raise e => (Raise e, s)
  | OutOfFuel => (OutOfFuel, s)
  end.

(** [Lexer._id]: [self.error()] raises once the word has been read. *)
Definition _id_in_place : method Token := fun s =>
  match collect_while isalnum (lexer_fuel s) "" s with
  | Ok (result, s1) =>
      leaving s1
        match keywords_get (upper result) with
        | Some (key, token_type) =>
            Ok (mkToken token_type (TVstr key) (line s1) (column s1 - len result), s1)
        | None => error s1
        end
  | Raise e => (Raise e, s)
  | OutOfFuel => (OutOfFuel, s)
  end.

(** [Lexer.get_next_token] *)
Fixpoint get_next_token_in_place_loop (n : nat) (s : Lexer) {struct n}
  : outcome Token * Lexer :=
  match current_char s with
  | Some c =>
      if isspace c then
        match skip_whitespace s with
        | Ok s1 =>
            match n with
            | O => (OutOfFuel, s1)
            | S n' => get_next_token_in_place_loop n' s1
            end
        | Raise e => (Raise e, s)
        | OutOfFuel => (OutOfFuel, s)
        end
      else if isdigit c then number_in_place s
      else if isalpha c then _id_in_place s
      else if Ascii.eqb c "+" then leaving s (symbol PLUS "+" s)
      else if Ascii.eqb c "-" then leaving s (symbol MINUS "-" s)
      else if Ascii.eqb c "*" then leaving s (symbol MULTIPLY "*" s)
      else if Ascii.eqb c "/" then leaving s (symbol DIVIDE "/" s)
      else if Ascii.eqb c "^" then leaving s (symbol POWER "^" s)
      else if Ascii.eqb c "%" then leaving s (symbol MODULO "%" s)
      else if Ascii.eqb c "(" then leaving s (symbol LPAREN "(" s)
      else if Ascii.eqb c ")" then leaving s (symbol RPAREN ")" s)
      else if Ascii.eqb c "<" then leaving s (symbol LESS "<" s)
      else if Ascii.eqb c ">" then leaving s (symbol GREATER ">" s)
      else leaving s (error s)
  | None => (Ok (mkToken EOF TVNone (line s) (column s)), s)
  end.

Definition get_next_token_in_place : method Token := fun s =>
  get_next_token_in_place_loop (lexer_fuel s) s.

(** ** The store *)

(** The objects the program creates: a lexer with its fields (its
    dictionary of keywords is built by [__init__] for the object itself and
    never written: the constant [keywords]), and a parser, which holds a
    reference to its lexer and, once [__init__] has set it, the current
    token. *)
Inductive object :=
| LexerObject (fields : Lexer)
| ParserObject (lexer_ref : nat) (token : option Token).

(** The store of all objects, each at the address it was created at. *)
Definition store : Type := list object.

(** A step of the program on the store: [None] when it reads an object
    that is not there, otherwise an outcome and the store it leaves, also
    when it raises. *)
Definition action (A : Type) : Type := store -> option (outcome A * store).

Definition lift {A : Type} (o : outcome A) : action A := fun h => Some (o, h).

Definition and_then {A B : Type} (m : action A) (k : A -> action B) : action B :=
  fun h =>
    match m h with
    | Some (Ok a, h1) => k a h1
    | Some (Raise e, h1) => Some (Raise e, h1)
    | Some (OutOfFuel, h1) => Some (OutOfFuel, h1)
    | None => None
    end.

Notation "x <~ m ;; k" := (and_then m (fun x => k))
  (at level 61, m at next level, right associativity).
Notation "' p <~ m ;; k" := (and_then m (fun x => let p := x in k))
  (at level 61, p pattern, m at next level, right associativity).

Fixpoint write (a : nat) (o : object) (h : store) {struct h} : store :=
  match h, a with
  | [], _ => []
  | _ :: h', O => o :: h'
  | x :: h', S a' => x :: write a' o h'
  end.

(** A new object, at the first free address. *)
Definition allocate (o : object) : action nat :=
  fun h => Some (Ok (List.length h), (h ++ [o])%list).

(** A method of the lexer at address [a]. *)
Definition call {A : Type} (a : nat) (m : method A) : action A :=
  fun h =>
    match nth_error h a with
    | Some (LexerObject l) =>
        let '(r, l1) := m l in Some (r, write a (LexerObject l1) h)
    | _ => None
    end.

(** [self.lexer] and [self.current_token] of the parser at [self]. *)
Definition fields_of (self : nat) : action (nat * Token) :=
  fun h =>
    match nth_error h self with
    | Some (ParserObject lexer_ref (Some t)) => Some (Ok (lexer_ref, t), h)
    | _ => None
    end.

(** [self.current_token = t] *)
Definition set_current_token (self : nat) (t : Token) : action unit :=
  fun h =>
    match nth_error h self with
    | Some (ParserObject lexer_ref _) =>
        Some (Ok tt, write self (ParserObject lexer_ref (Some t)) h)
    | _ => None
    end.

(** [Lexer(text)] *)
Definition Lexer_new (t : string) : action nat :=
  allocate (LexerObject (Lexer_init t)).

(** [Parser(lexer)]: the object is there with its reference to the lexer
    before the first token is asked for. *)
Definition Parser_new (lexer_ref : nat) : action nat :=
  self <~ allocate (ParserObject lexer_ref None) ;;
  t <~ call lexer_ref get_next_token_in_place ;;
  _ <~ set_current_token self t ;;
  lift (Ok self).

(** [Parser.eat] *)
Definition eat_at (token_type : TokenType) (self : nat) : action unit :=
  '(lexer_ref, token) <~ fields_of self ;;
  if TokenType_eqb (ttype token) token_type then
    t <~ call lexer_ref get_next_token_in_place ;;
    set_current_token self t
  else lift (Raise (ExpectedToken token_type (ttype token))).

(** [Parser.factor], [Parser.term] and [Parser.expression] *)
Fixpoint factor_at (n : nat) (self : nat) {struct n} : action value :=
  match n with
  | O => lift OutOfFuel
  | S n' =>
      '(_, token) <~ fields_of self ;;
      match ttype token with
      | NUMBER =>
          _ <~ eat_at NUMBER self ;;
          lift (Ok (number_value token))
      | LPAREN =>
          _ <~ eat_at LPAREN self ;;
          result <~ expression_at n' self ;;
          _ <~ eat_at RPAREN self ;;
          lift (Ok result)
      | NOT =>
          _ <~ eat_at NOT self ;;
          v <~ factor_at n' self ;;
          lift (Ok (py_not v))
      | MINUS =>
          _ <~ eat_at MINUS self ;;
          v <~ factor_at n' self ;;
          lift (Ok (py_neg v))
      | _ => lift (Raise InvalidFactor)
      end
  end

with term_loop_at (n : nat) (result : value) (self : nat) {struct n} : action value :=
  '(_, token) <~ fields_of self ;;
  if type_in (ttype token) term_operators then
    match n with
    | O => lift OutOfFuel
    | S n' =>
        match ttype token with
        | MULTIPLY =>
            _ <~ eat_at MULTIPLY self ;;
            v <~ factor_at n' self ;;
            result1 <~ lift (py_mul result v) ;;
            term_loop_at n' result1 self
        | DIVIDE =>
            _ <~ eat_at DIVIDE self ;;
            divisor <~ factor_at n' self ;;
            if py_eq_zero divisor then lift (Raise DivisionByZero)
            else
              result1 <~ lift (py_truediv result divisor) ;;
              term_loop_at n' result1 self
        | MODULO =>
            _ <~ eat_at MODULO self ;;
            v <~ factor_at n' self ;;
            result1 <~ lift (py_mod result v) ;;
            term_loop_at n' result1 self
        | _ => term_loop_at n' result self
        end
    end
  else lift (Ok result)

with term_at (n : nat) (self : nat) {struct n} : action value :=
  match n with
  | O => lift OutOfFuel
  | S n' =>
      result <~ factor_at n' self ;;
      term_loop_at n' result self
  end

with expression_at (n : nat) (self : nat) {struct n} : action value :=
  match n with
  | O => lift OutOfFuel
  | S n' => term_at n' self
  end.

(** [Parser.parse] *)
Definition parse_at (n : nat) (self : nat) : action value :=
  expression_at n self.

(** [evaluate], on the store the program has reached: a new lexer, a new
    parser on it, and [parse]. *)
Definition evaluate_in_with (n : nat) (t : string) : action value :=
  lexer <~ Lexer_new t ;;
  parser <~ Parser_new lexer ;;
  parse_at n parser.

Definition evaluate_in (t : string) : action value :=
  evaluate_in_with (parse_fuel t) t.

(** The value of an outcome, without the parser it leaves. *)
Definition value_of {A B : Type} (o : outcome (A * B)) : outcome A :=
  '(v, _) <- o ;; Ok v.

(** The parser at [self] and its lexer at [lexer_ref] hold what [p] holds. *)
Definition holds (h : store) (self lexer_ref : nat) (p : Parser) : Prop :=
  nth_error h lexer_ref = Some (LexerObject (lexer p))
  /\ nth_error h self = Some (ParserObject lexer_ref (Some (current_token p))).

(** From [h] to [h'] no object was removed, and none but those at [a] and
    [b] was written. *)
Definition others_kept (a b : nat) (h h' : store) : Prop :=
  List.length h' = List.length h
  /\ forall c, c <> a -> c <> b -> nth_error h' c = nth_error h c.

(** [h'] is [h] with new objects behind it: every object of [h] is in [h']
    as it was. *)
Definition extends (h h' : store) : Prop :=
  (List.length h <= List.length h')%nat
  /\ forall a, (a < List.length h)%nat -> nth_error h' a = nth_error h a.

(** On the store [h], the step [m] of the parser at [self] has the outcome
    the rule has on [p], leaves the other objects alone and, when it
    returns, leaves the parser and its lexer holding what the rule leaves. *)
Definition simulated {A : Type} (self lexer_ref : nat)
  (m : action A) (o : outcome (A * Parser)) (h : store) : Prop :=
  exists h',
    m h = Some (value_of o, h')
    /\ others_kept self lexer_ref h h'
    /\ forall a q, o = Ok (a, q) -> holds h' self lexer_ref q.

(** * Properties *)

(** ** Outcomes *)

Lemma bind_Ok {A B : Type} (m : outcome A) (k : A -> outcome B) (b : B) :
  bind m k = Ok b -> exists a, m = Ok a /\ k a = Ok b.
Proof.
  destruct m as [a | e | ]; simpl; intros H; try discriminate.
  exists a; split; [reflexivity | assumption].
Qed.

Lemma bind_fuel {A B : Type} (m : outcome A) (k : A -> outcome B) :
  m <> OutOfFuel -> (forall a, m = Ok a -> k a <> OutOfFuel) ->
  bind m k <> OutOfFuel.
Proof.
  destruct m as [a | e | ]; simpl; intros Hm Hk.
  - apply Hk; reflexivity.
  - discriminate.
  - exfalso; apply Hm; reflexivity.
Qed.

(** ** The lexer's loops end *)

Lemma get_Some_lt (s : string) :
  forall n c, String.get n s = Some c -> (n < String.length s)%nat.
Proof.
  induction s as [ | a s IH]; intros n c H.
  - destruct n; discriminate.
  - destruct n as [ | n]; simpl in *.
    + lia.
    + apply IH in H; lia.
Qed.

Lemma text_advance (s : Lexer) : text (advance s) = text s.
Proof. reflexivity. Qed.

Lemma pos_advance (s : Lexer) : pos (advance s) = S (pos s).
Proof. reflexivity. Qed.

Lemma remaining_advance (s : Lexer) (c : ascii) :
  current_char s = Some c -> (remaining (advance s) < remaining s)%nat.
Proof.
  intros Hc. unfold remaining at 2. rewrite Hc.
  unfold remaining. rewrite text_advance, pos_advance.
  destruct (current_char (advance s)) as [d | ] eqn:Hd; [ | lia].
  unfold advance in Hd; simpl in Hd.
  apply get_Some_lt in Hd. lia.
Qed.

Lemma remaining_fuel (s : Lexer) : (remaining s <= lexer_fuel s)%nat.
Proof.
  unfold remaining, lexer_fuel. destruct (current_char s); lia.
Qed.

Lemma skip_whitespace_loop_ends :
  forall n s, (remaining s <= n)%nat ->
  exists s1, skip_whitespace_loop n s = Ok s1
    /\ text s1 = text s
    /\ (remaining s1 <= remaining s)%nat
    /\ stops_at isspace s1
    /\ (forall c, current_char s = Some c -> isspace c = true ->
        (remaining s1 < remaining s)%nat).
Proof.
  induction n as [ | n IH]; intros s Hn.
  - assert (Hc : current_char s = None).
    { unfold remaining in Hn. destruct (current_char s); [lia | reflexivity]. }
    exists s. simpl. unfold stops_at. rewrite Hc.
    repeat split; auto. intros c H; discriminate.
  - simpl. destruct (current_char s) as [c | ] eqn:Hc.
    + destruct (isspace c) eqn:Hs.
      * pose proof (remaining_advance s c Hc) as Hlt.
        destruct (IH (advance s)) as (s1 & E & Ht & Hr & Hstop & _); [lia | ].
        exists s1. rewrite E. repeat split; auto.
        -- lia.
        -- intros; lia.
      * exists s. unfold stops_at. rewrite Hc.
        repeat split; auto.
        intros c' H' Hs'. inversion H'; subst. congruence.
    + exists s. unfold stops_at. rewrite Hc.
      repeat split; auto. intros c H; discriminate.
Qed.

Lemma append_empty_r (s : string) : s ++ "" = s.
Proof. induction s as [ | c s IH]; simpl; [ | rewrite IH]; reflexivity. Qed.

Lemma append_assoc (a b c : string) : (a ++ b) ++ c = a ++ (b ++ c).
Proof. induction a as [ | x a IH]; simpl; [ | rewrite IH]; reflexivity. Qed.

(** A collecting loop reads the whole run of characters of its class: it
    stops only at the end of the text or at a character outside the class,
    and has moved the cursor by the length of what it collected. *)
Lemma collect_while_ends (cls : ascii -> bool) :
  forall n result s, (remaining s <= n)%nat ->
  exists r s1, collect_while cls n result s = Ok (result ++ r, s1)
    /\ text s1 = text s
    /\ pos s1 = (pos s + String.length r)%nat
    /\ (remaining s1 <= remaining s)%nat
    /\ stops_at cls s1
    /\ (forall c, current_char s = Some c -> cls c = true ->
        (remaining s1 < remaining s)%nat).
Proof.
  induction n as [ | n IH]; intros result s Hn.
  - assert (Hc : current_char s = None).
    { unfold remaining in Hn. destruct (current_char s); [lia | reflexivity]. }
    exists "", s. simpl. unfold stops_at. rewrite Hc.
    rewrite append_empty_r, Nat.add_0_r.
    repeat split; auto. intros c H; discriminate.
  - simpl. destruct (current_char s) as [c | ] eqn:Hc.
    + destruct (cls c) eqn:Hs.
      * pose proof (remaining_advance s c Hc) as Hlt.
        destruct (IH (append_char result c) (advance s))
          as (r & s1 & E & Ht & Hp & Hr & Hstop & _); [lia | ].
        exists (String c r), s1. rewrite E. unfold append_char.
        rewrite append_assoc. simpl.
        repeat split; auto.
        -- rewrite Hp, pos_advance. lia.
        -- lia.
        -- intros; lia.
      * exists "", s. unfold stops_at. rewrite Hc.
        rewrite append_empty_r, Nat.add_0_r.
        repeat split; auto.
        intros c' H' Hs'. inversion H'; subst. congruence.
    + exists "", s. unfold stops_at. rewrite Hc.
      rewrite append_empty_r, Nat.add_0_r.
      repeat split; auto. intros c H; discriminate.
Qed.

(** ** One token at a time *)

Lemma keywords_get_type (u : list N) (key : string) (t : TokenType) :
  keywords_get u = Some (key, t) -> t <> NUMBER /\ t <> EOF.
Proof.
  unfold keywords_get, keywords. simpl.
  repeat match goal with
         | |- context [N_list_eqb ?a ?b] => destruct (N_list_eqb a b)
         end;
    intros H; inversion H; split; discriminate.
Qed.

Lemma number_scans (s : Lexer) (c : ascii) :
  current_char s = Some c -> isdigit c = true -> scans s (number s).
Proof.
  intros Hc Hd. unfold number.
  destruct (collect_while_ends number_class (lexer_fuel s) "" s (remaining_fuel s))
    as (r & s1 & E & Ht & _ & _ & _ & Hlt).
  rewrite E. simpl.
  destruct (py_float r) as [f | e | ] eqn:Hf; simpl; auto.
  - repeat split; auto.
    + left. apply (Hlt c Hc). unfold number_class. rewrite Hd. reflexivity.
    + intros _. exists f. reflexivity.
  - unfold py_float in Hf. destruct (scan_literal r false false 0 0) as [[m k] | ];
      discriminate.
Qed.

Lemma isalpha_isalnum (c : ascii) : isalpha c = true -> isalnum c = true.
Proof. unfold isalnum. intros ->. reflexivity. Qed.

Lemma _id_scans (s : Lexer) (c : ascii) :
  current_char s = Some c -> isalpha c = true -> scans s (_id s).
Proof.
  intros Hc Hd. unfold _id.
  destruct (collect_while_ends isalnum (lexer_fuel s) "" s (remaining_fuel s))
    as (r & s1 & E & Ht & _ & _ & _ & Hlt).
  rewrite E. simpl.
  destruct (keywords_get (upper r)) as [[key t] | ] eqn:Hk; simpl; auto.
  apply keywords_get_type in Hk. destruct Hk as [Hn _].
  repeat split; auto.
  - left. apply (Hlt c Hc). apply isalpha_isalnum; assumption.
  - simpl. intros H; contradiction.
Qed.

Lemma symbol_scans (t : TokenType) (v : string) (s : Lexer) (c : ascii) :
  current_char s = Some c -> t <> NUMBER -> scans s (symbol t v s).
Proof.
  intros Hc Ht. unfold symbol. simpl. repeat split.
  - left. apply (remaining_advance s c Hc).
  - simpl. intros H; contradiction.
Qed.

Lemma get_next_token_loop_scans :
  forall n s, (remaining s <= n)%nat -> scans s (get_next_token_loop n s).
Proof.
  induction n as [ | n IH]; intros s Hn.
  - assert (Hc : current_char s = None).
    { unfold remaining in Hn. destruct (current_char s); [lia | reflexivity]. }
    simpl. rewrite Hc. simpl. repeat split; auto. discriminate.
  - simpl. destruct (current_char s) as [c | ] eqn:Hc.
    + destruct (isspace c) eqn:Hs.
      * unfold skip_whitespace.
        destruct (skip_whitespace_loop_ends (lexer_fuel s) s (remaining_fuel s))
          as (s1 & E & Ht & _ & _ & Hlt).
        rewrite E. simpl. specialize (Hlt c Hc Hs).
        assert (H1 : (remaining s1 <= n)%nat) by lia.
        specialize (IH s1 H1). unfold scans in *.
        destruct (get_next_token_loop n s1) as [[t s2] | e | ]; auto.
        destruct IH as (Ht2 & Hr & Hnum).
        repeat split; auto.
        -- congruence.
        -- left. destruct Hr as [Hr | [_ ->]]; lia.
      * destruct (isdigit c) eqn:Hd; [eapply number_scans; eauto | ].
        destruct (isalpha c) eqn:Ha; [eapply _id_scans; eauto | ].
        repeat match goal with
               | |- context [if Ascii.eqb c ?x then _ else _] =>
                   destruct (Ascii.eqb c x);
                   [eapply symbol_scans; [eassumption | discriminate] | ]
               end.
        exact I.
    + simpl. repeat split; auto. discriminate.
Qed.

Lemma get_next_token_scans (s : Lexer) : scans s (get_next_token s).
Proof. apply get_next_token_loop_scans, remaining_fuel. Qed.

(** ** One step of the parser *)

Lemma TokenType_eqb_eq (a b : TokenType) : TokenType_eqb a b = true <-> a = b.
Proof.
  unfold TokenType_eqb. destruct (TokenType_eq_dec a b); split; intros;
    congruence.
Qed.

(** After a successful [eat] of a real token fewer tokens are pending. *)
Lemma eat_Ok (t : TokenType) (p p1 : Parser) :
  eat t p = Ok p1 -> t <> EOF ->
  ttype (current_token p) = t /\ (pending p1 < pending p)%nat.
Proof.
  unfold eat. intros H Ht.
  destruct (TokenType_eqb (ttype (current_token p)) t) eqn:E; [ | discriminate].
  apply TokenType_eqb_eq in E. split; [assumption | ].
  pose proof (get_next_token_scans (lexer p)) as Hs.
  destruct (get_next_token (lexer p)) as [[t1 l1] | e | ]; simpl in H;
    try discriminate.
  inversion H; subst p1; clear H.
  destruct Hs as (_ & Hr & _).
  unfold pending; simpl.
  destruct (TokenType_eqb (ttype (current_token p)) EOF) eqn:E1.
  { apply TokenType_eqb_eq in E1. congruence. }
  destruct Hr as [Hr | [Heof ->]].
  - destruct (TokenType_eqb (ttype t1) EOF); lia.
  - rewrite Heof. simpl. lia.
Qed.

Lemma eat_fuel (t : TokenType) (p : Parser) : eat t p <> OutOfFuel.
Proof.
  unfold eat. destruct (TokenType_eqb (ttype (current_token p)) t);
    [ | discriminate].
  pose proof (get_next_token_scans (lexer p)) as Hs.
  destruct (get_next_token (lexer p)) as [[t1 l1] | e | ]; simpl;
    [discriminate | discriminate | contradiction].
Qed.

(** ** The grammar: progress, fuel and determinism *)

Ltac split_pair a :=
  lazymatch type of a with
  | (_ * _)%type => destruct a as [? ?]
  | _ => idtac
  end.

Ltac invert_bind H :=
  let a := fresh "a" in
  let H1 := fresh "Hstep" in
  apply bind_Ok in H; destruct H as (a & H1 & H);
  split_pair a; simpl in H.

(** Every rule that returns has consumed tokens ([term_loop]: none or more). *)
Lemma grammar_progress :
  forall n,
    (forall p v p1, factor n p = Ok (v, p1) -> (pending p1 < pending p)%nat)
    /\ (forall r p v p1, term_loop n r p = Ok (v, p1) ->
        (pending p1 <= pending p)%nat)
    /\ (forall p v p1, term n p = Ok (v, p1) -> (pending p1 < pending p)%nat)
    /\ (forall p v p1, expression n p = Ok (v, p1) ->
        (pending p1 < pending p)%nat).
Proof.
  induction n as [ | n (IHf & IHl & IHt & IHe)].
  - repeat split; simpl; intros; try discriminate.
    destruct (ttype (current_token p)); try discriminate;
      inversion H; subst; lia.
  - repeat split.
    + intros p v p1 H. simpl in H.
      destruct (ttype (current_token p)); try discriminate.
      * invert_bind H. invert_bind H.
        apply eat_Ok in Hstep; [ | discriminate].
        apply IHf in Hstep0. inversion H; subst. lia.
      * invert_bind H. invert_bind H.
        apply eat_Ok in Hstep; [ | discriminate].
        apply IHf in Hstep0. inversion H; subst. lia.
      * invert_bind H. apply eat_Ok in Hstep; [ | discriminate].
        inversion H; subst. lia.
      * invert_bind H. invert_bind H. invert_bind H.
        apply eat_Ok in Hstep; [ | discriminate].
        apply IHe in Hstep0.
        apply eat_Ok in Hstep1; [ | discriminate].
        inversion H; subst. lia.
    + intros r p v p1 H. simpl in H.
      destruct (ttype (current_token p));
        try (inversion H; subst; lia).
      * invert_bind H. invert_bind H. invert_bind H.
        apply eat_Ok in Hstep; [ | discriminate].
        apply IHf in Hstep0. apply IHl in H. lia.
      * invert_bind H. invert_bind H.
        apply eat_Ok in Hstep; [ | discriminate].
        apply IHf in Hstep0.
        destruct (py_eq_zero v0); [discriminate | ].
        invert_bind H. apply IHl in H. lia.
      * invert_bind H. invert_bind H. invert_bind H.
        apply eat_Ok in Hstep; [ | discriminate].
        apply IHf in Hstep0. apply IHl in H. lia.
    + intros p v p1 H. simpl in H.
      invert_bind H. apply IHf in Hstep. apply IHl in H. lia.
    + intros p v p1 H. simpl in H. apply IHt in H. assumption.
Qed.

Lemma to_float_fuel (v : value) : to_float v <> OutOfFuel.
Proof.
  destruct v as [f | b | z]; simpl; try discriminate; unfold int_to_float;
    match goal with |- context [of_Z ?x] => destruct (of_Z x) end;
    discriminate.
Qed.

Lemma py_mul_fuel (a b : value) : py_mul a b <> OutOfFuel.
Proof.
  unfold py_mul.
  destruct (as_int a), (as_int b); try discriminate;
    (apply bind_fuel; [apply to_float_fuel | intros x _];
     apply bind_fuel; [apply to_float_fuel | intros y _]; discriminate).
Qed.

Lemma float_div_fuel (x y : float) : float_div x y <> OutOfFuel.
Proof. unfold float_div. destruct (is_zero y); discriminate. Qed.

Lemma long_true_divide_fuel (x y : Z) : long_true_divide x y <> OutOfFuel.
Proof.
  unfold long_true_divide. destruct (y =? 0); [discriminate | ].
  match goal with |- match ?q with _ => _ end <> _ => destruct q end;
    discriminate.
Qed.

Lemma py_truediv_fuel (a b : value) : py_truediv a b <> OutOfFuel.
Proof.
  unfold py_truediv.
  destruct (as_int a), (as_int b);
    try (apply bind_fuel; [apply long_true_divide_fuel | intros q _]; discriminate);
    (apply bind_fuel; [apply to_float_fuel | intros x _];
     apply bind_fuel; [apply to_float_fuel | intros y _];
     apply bind_fuel; [apply float_div_fuel | intros q _]; discriminate).
Qed.

Lemma float_rem_fuel (x y : float) : float_rem x y <> OutOfFuel.
Proof.
  unfold float_rem. destruct (is_zero y); [discriminate | ].
  destruct (negb (is_zero (fmod x y))); [ | discriminate].
  destruct (negb (Bool.eqb (ltb0 y) (ltb0 (fmod x y)))); discriminate.
Qed.

Lemma py_mod_fuel (a b : value) : py_mod a b <> OutOfFuel.
Proof.
  unfold py_mod.
  destruct (as_int a), (as_int b);
    try (apply bind_fuel;
         [unfold long_mod; destruct (_ =? 0); discriminate
         | intros q _; discriminate]);
    (apply bind_fuel; [apply to_float_fuel | intros x _];
     apply bind_fuel; [apply to_float_fuel | intros y _];
     apply bind_fuel; [apply float_rem_fuel | intros q _]; discriminate).
Qed.

(** Three units of fuel for each pending token are enough. *)
Lemma grammar_fuel :
  forall n,
    (forall p, (3 * pending p + 1 <= n)%nat -> factor n p <> OutOfFuel)
    /\ (forall r p, (3 * pending p + 1 <= n)%nat ->
        term_loop n r p <> OutOfFuel)
    /\ (forall p, (3 * pending p + 2 <= n)%nat -> term n p <> OutOfFuel)
    /\ (forall p, (3 * pending p + 3 <= n)%nat -> expression n p <> OutOfFuel).
Proof.
  induction n as [ | n (IHf & IHl & IHt & IHe)].
  - repeat split; intros; lia.
  - pose proof (grammar_progress n) as (Pf & Pl & Pt & Pe).
    repeat split.
    + intros p Hn. simpl.
      destruct (ttype (current_token p)); try discriminate.
      * apply bind_fuel; [apply eat_fuel | intros p1 H1].
        apply eat_Ok in H1; [ | discriminate].
        apply bind_fuel; [apply IHf; lia | intros [v p2] H2]; discriminate.
      * apply bind_fuel; [apply eat_fuel | intros p1 H1].
        apply eat_Ok in H1; [ | discriminate].
        apply bind_fuel; [apply IHf; lia | intros [v p2] H2]; discriminate.
      * apply bind_fuel; [apply eat_fuel | intros p1 H1]; discriminate.
      * apply bind_fuel; [apply eat_fuel | intros p1 H1].
        apply eat_Ok in H1; [ | discriminate].
        apply bind_fuel; [apply IHe; lia | intros [v p2] H2].
        apply bind_fuel; [apply eat_fuel | intros p3 H3]; discriminate.
    + intros r p Hn. simpl.
      destruct (ttype (current_token p)); try discriminate.
      * apply bind_fuel; [apply eat_fuel | intros p1 H1].
        apply eat_Ok in H1; [ | discriminate].
        apply bind_fuel; [apply IHf; lia | intros [v p2] H2].
        apply Pf in H2.
        apply bind_fuel; [apply py_mul_fuel | intros r1 _].
        apply IHl; lia.
      * apply bind_fuel; [apply eat_fuel | intros p1 H1].
        apply eat_Ok in H1; [ | discriminate].
        apply bind_fuel; [apply IHf; lia | intros [v p2] H2].
        apply Pf in H2.
        destruct (py_eq_zero v); [discriminate | ].
        apply bind_fuel; [apply py_truediv_fuel | intros r1 _].
        apply IHl; lia.
      * apply bind_fuel; [apply eat_fuel | intros p1 H1].
        apply eat_Ok in H1; [ | discriminate].
        apply bind_fuel; [apply IHf; lia | intros [v p2] H2].
        apply Pf in H2.
        apply bind_fuel; [apply py_mod_fuel | intros r1 _].
        apply IHl; lia.
    + intros p Hn. simpl.
      apply bind_fuel; [apply IHf; lia | intros [v p1] H1].
      apply Pf in H1. apply IHl; lia.
    + intros p Hn. simpl. apply IHt; lia.
Qed.

Lemma bind_mono {A B : Type} (m m' : outcome A) (k k' : A -> outcome B) :
  bind m k <> OutOfFuel ->
  (m <> OutOfFuel -> m' = m) ->
  (forall a, m = Ok a -> k a <> OutOfFuel -> k' a = k a) ->
  bind m' k' = bind m k.
Proof.
  intros H Hm Hk. destruct m as [a | e | ]; simpl in *.
  - rewrite Hm by discriminate. simpl. apply Hk; auto.
  - rewrite Hm by discriminate. reflexivity.
  - exfalso; apply H; reflexivity.
Qed.

(** One more bind of a chain whose outcome is known not to be [OutOfFuel]. *)
Ltac mono_bind :=
  match goal with
  | H : bind ?m ?k <> OutOfFuel |- bind _ _ = bind ?m ?k =>
      apply bind_mono;
      [ exact H
      | clear H; intros H
      | clear H; let a := fresh "a" in intros a _ H;
        split_pair a; simpl in H |- * ]
  end.

(** An outcome that is not [OutOfFuel] is the outcome with any more fuel. *)
Lemma grammar_mono :
  forall n,
    (forall p m, (n <= m)%nat -> factor n p <> OutOfFuel ->
                 factor m p = factor n p)
    /\ (forall r p m, (n <= m)%nat -> term_loop n r p <> OutOfFuel ->
                      term_loop m r p = term_loop n r p)
    /\ (forall p m, (n <= m)%nat -> term n p <> OutOfFuel ->
                    term m p = term n p)
    /\ (forall p m, (n <= m)%nat -> expression n p <> OutOfFuel ->
                    expression m p = expression n p).
Proof.
  induction n as [ | n (IHf & IHl & IHt & IHe)].
  - repeat split; simpl; intros; try congruence.
    destruct m; simpl; destruct (ttype (current_token p)); simpl in *;
      congruence.
  - repeat split.
    + intros p [ | m] Hm H; [lia | ]. simpl in *.
      destruct (ttype (current_token p)); try reflexivity.
      * mono_bind; [reflexivity | ].
        mono_bind; [apply IHf; [lia | assumption] | reflexivity].
      * mono_bind; [reflexivity | ].
        mono_bind; [apply IHf; [lia | assumption] | reflexivity].
      * mono_bind; [reflexivity | ].
        mono_bind; [apply IHe; [lia | assumption] | reflexivity].
    + intros r p [ | m] Hm H; [lia | ]. simpl in *.
      destruct (ttype (current_token p)); simpl in *; try reflexivity.
      * mono_bind; [reflexivity | ].
        mono_bind; [apply IHf; [lia | assumption] | ].
        mono_bind; [reflexivity | ].
        apply IHl; [lia | assumption].
      * mono_bind; [reflexivity | ].
        mono_bind; [apply IHf; [lia | assumption] | ].
        destruct (py_eq_zero v); [reflexivity | ].
        mono_bind; [reflexivity | ].
        apply IHl; [lia | assumption].
      * mono_bind; [reflexivity | ].
        mono_bind; [apply IHf; [lia | assumption] | ].
        mono_bind; [reflexivity | ].
        apply IHl; [lia | assumption].
    + intros p [ | m] Hm H; [lia | ]. simpl in *.
      mono_bind; [apply IHf; [lia | assumption] | ].
      apply IHl; [lia | assumption].
    + intros p [ | m] Hm H; [lia | ]. simpl in *.
      apply IHt; [lia | assumption].
Qed.

(** ** The run of [evaluate] *)

Lemma remaining_init (t : string) : remaining (Lexer_init t) = String.length t.
Proof. destruct t as [ | c t]; unfold remaining; simpl; lia. Qed.

Lemma Parser_init_fuel (l : Lexer) : Parser_init l <> OutOfFuel.
Proof.
  unfold Parser_init. pose proof (get_next_token_scans l) as Hs.
  destruct (get_next_token l) as [[t l1] | e | ]; simpl;
    [discriminate | discriminate | contradiction].
Qed.

Lemma Parser_init_pending (l : Lexer) (p : Parser) :
  Parser_init l = Ok p -> (pending p <= remaining l)%nat.
Proof.
  unfold Parser_init. intros H. pose proof (get_next_token_scans l) as Hs.
  destruct (get_next_token l) as [[t l1] | e | ]; simpl in H; try discriminate.
  inversion H; subst p; clear H. destruct Hs as (_ & Hr & _).
  unfold pending; simpl. destruct Hr as [Hr | [Heof ->]].
  - destruct (TokenType_eqb (ttype t) EOF); lia.
  - rewrite Heof. simpl. lia.
Qed.

(** [evaluate] always has an outcome: its fuel is never exhausted. *)
Lemma evaluate_run_fuel (t : string) (n : nat) :
  (parse_fuel t <= n)%nat -> evaluate_run n t <> OutOfFuel.
Proof.
  intros Hn. unfold evaluate_run.
  apply bind_fuel; [apply Parser_init_fuel | intros p Hp].
  apply Parser_init_pending in Hp. rewrite remaining_init in Hp.
  unfold parse. apply (grammar_fuel n). unfold parse_fuel in Hn. lia.
Qed.

(** The outcome does not depend on the fuel, once there is enough. *)
Lemma evaluate_run_mono (t : string) (n : nat) :
  (parse_fuel t <= n)%nat -> evaluate_run n t = evaluate_run (parse_fuel t) t.
Proof.
  intros Hn. pose proof (evaluate_run_fuel t _ (Nat.le_refl _)) as H.
  unfold evaluate_run in *.
  mono_bind; [reflexivity | ].
  unfold parse in *. apply (grammar_mono (parse_fuel t)); assumption.
Qed.

Lemma evaluate_fuel (t : string) : evaluate t <> OutOfFuel.
Proof.
  unfold evaluate, evaluate_with.
  apply bind_fuel; [apply evaluate_run_fuel; lia | intros [v p] _].
  discriminate.
Qed.

(** ** Signs in the host's arithmetic *)

Lemma signed_ltb0 (s : bool) (x : float) :
  signed s x -> ltb0 x = true -> s = true.
Proof.
  destruct x as [s1 | s1 | | s1 m e]; simpl; intros H L; subst;
    try discriminate; destruct s; auto; discriminate.
Qed.

Lemma signed_gtb0 (s : bool) (x : float) :
  signed s x -> gtb0 x = true -> s = false.
Proof.
  destruct x as [s1 | s1 | | s1 m e]; simpl; intros H L; subst;
    try discriminate; destruct s; auto; discriminate.
Qed.

(** Rounding keeps the sign it is given. *)
Lemma binary_round_aux_signed (s : bool) (m e : Z) (l : location) :
  signed s (binary_round_aux prec emax s m e l).
Proof.
  unfold binary_round_aux.
  destruct (shr_fexp prec emax m e l) as [mrs1 e1].
  destruct (shr_fexp prec emax _ e1 loc_Exact) as [mrs2 e2].
  destruct (shr_m mrs2); simpl; auto.
  destruct (_ <=? _); unfold signed; reflexivity.
Qed.

Lemma binary_round_signed (s : bool) (m : positive) (e : Z) :
  signed s (binary_round prec emax s m e).
Proof.
  unfold binary_round. destruct (shl_align m e _) as [mz ez].
  apply binary_round_aux_signed.
Qed.

Lemma iter_xO (m d : positive) : Zpos (Pos.iter xO m d) = Zpos m * 2 ^ Zpos d.
Proof.
  apply (Pos.iter_ind positive xO m (fun p a => Zpos a = Zpos m * 2 ^ Zpos p)).
  - rewrite Z.pow_1_r. lia.
  - intros p a IH. rewrite Pos2Z.inj_succ, Z.pow_succ_r by lia.
    rewrite Pos2Z.inj_xO, IH. ring.
Qed.

(** [shl_align] keeps the value and never raises the exponent. *)
Lemma shl_align_spec (m : positive) (e e1 : Z) :
  snd (shl_align m e e1) <= e
  /\ Zpos (fst (shl_align m e e1)) = Zpos m * 2 ^ (e - snd (shl_align m e e1)).
Proof.
  unfold shl_align. destruct (e1 - e) as [ | d | d] eqn:E; cbn [fst snd].
  - rewrite Z.sub_diag, Z.pow_0_r. lia.
  - rewrite Z.sub_diag, Z.pow_0_r. lia.
  - split; [lia | ]. rewrite iter_xO. f_equal. f_equal. lia.
Qed.

Lemma shl_align_le (m : positive) (e e1 : Z) :
  e1 <= e -> Zpos (fst (shl_align m e e1)) = Zpos m * 2 ^ (e - e1).
Proof.
  intros H. unfold shl_align. destruct (e1 - e) as [ | d | d] eqn:E; cbn [fst snd].
  - replace (e - e1) with 0 by lia. rewrite Z.pow_0_r. lia.
  - lia.
  - rewrite iter_xO. f_equal. f_equal. lia.
Qed.

Lemma fmod_below (x y : float) : below (fmod x y) y.
Proof.
  destruct x as [sx | sx | | sx mx ex], y as [sy | sy | | sy my ey];
    try exact I.
  unfold fmod. cbv zeta.
  set (ez := Z.min ex ey).
  set (Y := Zpos my * 2 ^ (ey - ez)).
  assert (HY : 0 < Y) by (apply Z.mul_pos_pos; [lia | apply Z.pow_pos_nonneg; lia]).
  pose proof (Z.mod_pos_bound (Zpos mx * 2 ^ (ex - ez)) Y HY) as Hr.
  destruct ((Zpos mx * 2 ^ (ex - ez)) mod Y) as [ | mr | mr]; try exact I.
  pose proof (shl_align_spec mr ez (fexp prec emax (Zpos (digits2_pos mr) + ez)))
    as (Hle & Hm).
  destruct (shl_align mr ez _) as [mz e]; cbn [fst snd below] in *.
  split; [lia | ].
  rewrite Hm. unfold Y in Hr.
  replace (ey - e) with ((ey - ez) + (ez - e)) by lia.
  rewrite Z.pow_add_r by lia.
  assert (0 < 2 ^ (ez - e)) by (apply Z.pow_pos_nonneg; lia).
  nia.
Qed.

Lemma fmod_nan_r (x : float) : fmod x S754_nan = S754_nan.
Proof. destruct x; reflexivity. Qed.

(** Adding a float to a larger one of the other sign gives the sign of the
    larger. *)
Lemma add_below_signed (sx sy : bool) (mx my : positive) (ex ey : Z) :
  below (S754_finite sx mx ex) (S754_finite sy my ey) -> sx <> sy ->
  signed sy (add (S754_finite sx mx ex) (S754_finite sy my ey)).
Proof.
  cbn [below]. intros [Hle Hlt] Hs. unfold add, SFadd.
  rewrite Z.min_l by assumption.
  rewrite (shl_align_le mx ex ex) by lia.
  rewrite (shl_align_le my ey ex) by assumption.
  rewrite Z.sub_diag, Z.pow_0_r, Z.mul_1_r.
  remember (cond_Zopp sx (Zpos mx) + cond_Zopp sy (Zpos my * 2 ^ (ey - ex))) as z eqn:Ez.
  unfold binary_normalize.
  destruct sx, sy; try congruence; unfold cond_Zopp in Ez;
    destruct z as [ | p | p]; try lia; apply binary_round_signed.
Qed.

(** The remainder of floats is on the side of the divisor. *)
Ltac float_cases :=
  unfold ltb0, gtb0, is_zero, SFltb, SFeqb, zero in *; cbn [SFcompare negb] in *.

Lemma float_rem_sign (x y r : float) :
  float_rem x y = Ok r ->
  (ltb0 r = true -> ltb0 y = true) /\ (gtb0 r = true -> gtb0 y = true).
Proof.
  unfold float_rem. destruct (is_zero y) eqn:Zy; [discriminate | ].
  pose proof (fmod_below x y) as Hb.
  destruct (negb (is_zero (fmod x y))) eqn:Zm.
  - destruct (negb (Bool.eqb (ltb0 y) (ltb0 (fmod x y)))) eqn:Hs;
      intros H; inversion H; subst r; clear H.
    + destruct y as [sy | sy | | sy my ey]; try discriminate.
      * destruct (fmod x (S754_infinity sy)) as [sm | sm | | sm mm em];
          cbn [below add SFadd] in *; try contradiction; auto;
          float_cases; try discriminate; split; discriminate.
      * rewrite fmod_nan_r. split; discriminate.
      * destruct (fmod x (S754_finite sy my ey)) as [sm | sm | | sm mm em] eqn:Em;
          cbn [below] in Hb; try contradiction; try discriminate.
        -- split; discriminate.
        -- assert (Hne : sm <> sy).
           { intros ->. destruct sy; discriminate. }
           pose proof (add_below_signed sm sy mm my em ey Hb Hne) as Hsg.
           split; intros Hr.
           ++ apply (signed_ltb0 _ _ Hsg) in Hr. subst. reflexivity.
           ++ apply (signed_gtb0 _ _ Hsg) in Hr. subst. reflexivity.
    + apply negb_false_iff, Bool.eqb_prop in Hs. rewrite <- Hs.
      split; [auto | ]. intros Hg.
      destruct y as [sy | sy | | sy my ey]; try discriminate.
      * destruct sy; [ | reflexivity].
        destruct (fmod x (S754_infinity true)) as [sm | sm | | sm mm em];
          float_cases; try discriminate; destruct sm; discriminate.
      * rewrite fmod_nan_r in Hg. discriminate.
      * destruct sy; [ | reflexivity].
        destruct (fmod x (S754_finite true my ey)) as [sm | sm | | sm mm em];
          float_cases; try discriminate; destruct sm; discriminate.
  - intros H; inversion H; subst r; clear H.
    destruct y; split; discriminate.
Qed.

Lemma of_Z_signed (z : Z) : signed (z <? 0) (of_Z z).
Proof.
  unfold of_Z, binary_normalize. destruct z as [ | p | p]; simpl.
  - reflexivity.
  - apply binary_round_signed.
  - apply binary_round_signed.
Qed.

Lemma of_Z_lt0 (z : Z) : ltb0 (of_Z z) = true -> z < 0.
Proof.
  intros H. apply (signed_ltb0 _ _ (of_Z_signed z)) in H. lia.
Qed.

Lemma of_Z_gt0 (z : Z) : gtb0 (of_Z z) = true -> 0 < z.
Proof.
  intros H. pose proof (signed_gtb0 _ _ (of_Z_signed z) H) as Hs.
  destruct z as [ | p | p]; [discriminate | lia | discriminate].
Qed.

Lemma to_float_sign (v : value) (f : float) :
  to_float v = Ok f ->
  (ltb0 f = true -> py_lt0 v = true) /\ (gtb0 f = true -> py_gt0 v = true).
Proof.
  destruct v as [g | b | z]; simpl.
  - intros H; inversion H; subst; auto.
  - unfold int_to_float. intros H.
    assert (Hf : f = of_Z (if b then 1 else 0)).
    { destruct (of_Z (if b then 1 else 0)); inversion H; reflexivity. }
    subst f. split; intros Hs.
    + apply of_Z_lt0 in Hs. destruct b; lia.
    + apply of_Z_gt0 in Hs. destruct b; [reflexivity | lia].
  - unfold int_to_float. intros H.
    assert (Hf : f = of_Z z).
    { destruct (of_Z z); inversion H; reflexivity. }
    subst f. split; intros Hs.
    + apply of_Z_lt0 in Hs. lia.
    + apply of_Z_gt0 in Hs. lia.
Qed.

(** The sign of [a % b] is the sign of [b], for every pair of operands. *)
Lemma py_mod_sign (a b r : value) :
  py_mod a b = Ok r ->
  (py_lt0 r = true -> py_lt0 b = true) /\ (py_gt0 r = true -> py_gt0 b = true).
Proof.
  assert (Hfloat : forall x y q,
             to_float b = Ok y -> float_rem x y = Ok q ->
             (py_lt0 (VFloat q) = true -> py_lt0 b = true)
             /\ (py_gt0 (VFloat q) = true -> py_gt0 b = true)).
  { intros x y q Hy Hq. apply float_rem_sign in Hq. apply to_float_sign in Hy.
    simpl. tauto. }
  assert (Hint : forall x y q,
             as_int b = Some y -> long_mod x y = Ok q ->
             (py_lt0 (VInt q) = true -> py_lt0 b = true)
             /\ (py_gt0 (VInt q) = true -> py_gt0 b = true)).
  { intros x y q Hy Hq. unfold long_mod in Hq.
    destruct (y =? 0) eqn:E; [discriminate | ]. inversion Hq; subst q; clear Hq.
    apply Z.eqb_neq in E. simpl.
    destruct b as [g | c | z]; simpl in *; inversion Hy; subst y.
    - destruct c; [ | congruence]. pose proof (Z.mod_pos_bound x 1). lia.
    - destruct (Z.lt_ge_cases 0 z).
      + pose proof (Z.mod_pos_bound x z). lia.
      + pose proof (Z.mod_neg_bound x z). lia. }
  unfold py_mod. intros H.
  destruct (as_int a) as [x | ] eqn:Ea, (as_int b) as [y | ] eqn:Eb.
  - invert_bind H. inversion H; subst r. eapply Hint; eauto.
  - invert_bind H. invert_bind H. invert_bind H. inversion H; subst r.
    eapply Hfloat; eauto.
  - invert_bind H. invert_bind H. invert_bind H. inversion H; subst r.
    eapply Hfloat; eauto.
  - invert_bind H. invert_bind H. invert_bind H. inversion H; subst r.
    eapply Hfloat; eauto.
Qed.

(** Every [NUMBER] the lexer returns carries a float. *)
Lemma get_next_token_NUMBER (s s1 : Lexer) (t : Token) :
  get_next_token s = Ok (t, s1) -> ttype t = NUMBER ->
  exists f, tvalue t = TVfloat f.
Proof.
  intros H. pose proof (get_next_token_scans s) as Hs. rewrite H in Hs.
  destruct Hs as (_ & _ & Hn). exact Hn.
Qed.

Lemma all_in_app (cls : ascii -> bool) (a b : string) :
  all_in cls (a ++ b) = all_in cls a && all_in cls b.
Proof.
  induction a as [ | c a IH]; simpl; [reflexivity | ].
  rewrite IH, andb_assoc. reflexivity.
Qed.

(** A collecting loop collects characters of its class only. *)
Lemma collect_while_class (cls : ascii -> bool) :
  forall n result s r s1,
    collect_while cls n result s = Ok (r, s1) ->
    all_in cls result = true -> all_in cls r = true.
Proof.
  induction n as [ | n IH]; intros result s r s1 H Hall; simpl in H.
  - destruct (current_char s) as [c | ]; [destruct (cls c) | ];
      inversion H; subst; assumption.
  - destruct (current_char s) as [c | ]; [destruct (cls c) eqn:Hc | ];
      try (inversion H; subst; assumption).
    apply IH in H; [assumption | ].
    unfold append_char. rewrite all_in_app, Hall. simpl. rewrite Hc. reflexivity.
Qed.

(** ** The model of [fmod] stays within binary64 *)

Lemma digits2_bounds (p : positive) :
  2 ^ (Zpos (digits2_pos p) - 1) <= Zpos p < 2 ^ Zpos (digits2_pos p).
Proof.
  induction p as [p IH | p IH | ]; simpl digits2_pos.
  - rewrite Pos2Z.inj_succ. change (Zpos p~1) with (2 * Zpos p + 1).
    replace (Z.succ (Zpos (digits2_pos p)) - 1) with (Z.succ (Zpos (digits2_pos p) - 1)) by lia.
    rewrite !Z.pow_succ_r by lia. lia.
  - rewrite Pos2Z.inj_succ. change (Zpos p~0) with (2 * Zpos p).
    replace (Z.succ (Zpos (digits2_pos p)) - 1) with (Z.succ (Zpos (digits2_pos p) - 1)) by lia.
    rewrite !Z.pow_succ_r by lia. lia.
  - simpl. lia.
Qed.

Lemma digits2_unique (p : positive) (k : Z) :
  2 ^ (k - 1) <= Zpos p < 2 ^ k -> Zpos (digits2_pos p) = k.
Proof.
  intros [Hlo Hhi]. pose proof (digits2_bounds p) as [Dlo Dhi].
  set (d := Zpos (digits2_pos p)) in *.
  assert (Hk : 0 < k).
  { destruct (Z.lt_ge_cases 0 k) as [ | Hle]; [assumption | ].
    exfalso. destruct (Z.eq_dec k 0) as [-> | ].
    - simpl in Hhi. lia.
    - rewrite Z.pow_neg_r in Hhi by lia. lia. }
  destruct (Z.lt_trichotomy d k) as [Hlt | [Heq | Hgt]]; [ | assumption | ].
  - assert (2 ^ d <= 2 ^ (k - 1)) by (apply Z.pow_le_mono_r; lia). lia.
  - assert (2 ^ k <= 2 ^ (d - 1)) by (apply Z.pow_le_mono_r; lia). lia.
Qed.

Lemma digits2_shift (m mz : positive) (k : Z) :
  0 <= k -> Zpos mz = Zpos m * 2 ^ k ->
  Zpos (digits2_pos mz) = Zpos (digits2_pos m) + k.
Proof.
  intros Hk Hm. apply digits2_unique. rewrite Hm.
  pose proof (digits2_bounds m) as [Dlo Dhi].
  replace (Zpos (digits2_pos m) + k - 1) with ((Zpos (digits2_pos m) - 1) + k) by lia.
  rewrite !Z.pow_add_r by lia.
  assert (0 < 2 ^ k) by (apply Z.pow_pos_nonneg; lia).
  split; nia.
Qed.

Lemma shl_align_snd (m : positive) (e e1 : Z) :
  e1 <= e -> snd (shl_align m e e1) = e1.
Proof.
  intros H. unfold shl_align. destruct (e1 - e) eqn:E; cbn [snd]; lia.
Qed.

(** What [valid_binary] says of a finite float. *)
Lemma bounded_inv (m : positive) (e : Z) :
  bounded prec emax m e = true ->
  Zpos (digits2_pos m) <= 53 /\ -1074 <= e <= 971.
Proof.
  unfold bounded, canonical_mantissa, fexp, SpecFloat.emin, prec, emax.
  intros H. apply andb_true_iff in H. destruct H as [Hc He].
  apply Z.eqb_eq in Hc. apply Z.leb_le in He. lia.
Qed.

(** The remainder of two binary64 floats is a binary64 float. *)
Lemma fmod_valid (x y : float) :
  valid_binary prec emax x = true -> valid_binary prec emax y = true ->
  valid_binary prec emax (fmod x y) = true.
Proof.
  destruct x as [sx | sx | | sx mx ex], y as [sy | sy | | sy my ey];
    try (intros; assumption); try reflexivity.
  cbn [valid_binary]. intros Hx Hy.
  apply bounded_inv in Hx. apply bounded_inv in Hy.
  destruct Hx as [Dx Ex], Hy as [Dy Ey].
  unfold fmod. cbv zeta.
  set (ez := Z.min ex ey).
  set (X := Zpos mx * 2 ^ (ex - ez)). set (Y := Zpos my * 2 ^ (ey - ez)).
  assert (HX : 0 <= X) by (apply Z.mul_nonneg_nonneg; [lia | apply Z.pow_nonneg; lia]).
  assert (HY : 0 < Y) by (apply Z.mul_pos_pos; [lia | apply Z.pow_pos_nonneg; lia]).
  pose proof (Z.mod_pos_bound X Y HY) as Hr.
  pose proof (Z.mod_le X Y HX HY) as Hle.
  destruct (X mod Y) as [ | mr | mr] eqn:Er; try reflexivity.
  assert (Hbig : Zpos mr < 2 ^ 53).
  { pose proof (digits2_bounds mx) as [_ Bx].
    pose proof (digits2_bounds my) as [_ By].
    assert (2 ^ Zpos (digits2_pos mx) <= 2 ^ 53) by (apply Z.pow_le_mono_r; lia).
    assert (2 ^ Zpos (digits2_pos my) <= 2 ^ 53) by (apply Z.pow_le_mono_r; lia).
    destruct (Z.le_ge_cases ex ey).
    - unfold X, ez in Hle. rewrite Z.min_l, Z.sub_diag, Z.pow_0_r in Hle by lia. lia.
    - unfold Y, ez in Hr. rewrite Z.min_r, Z.sub_diag, Z.pow_0_r in Hr by lia. lia. }
  assert (Dr : Zpos (digits2_pos mr) <= 53).
  { pose proof (digits2_bounds mr) as [Blo _].
    destruct (Z.le_gt_cases (Zpos (digits2_pos mr)) 53); [assumption | ].
    assert (2 ^ 53 <= 2 ^ (Zpos (digits2_pos mr) - 1)) by (apply Z.pow_le_mono_r; lia).
    lia. }
  set (e1 := fexp prec emax (Zpos (digits2_pos mr) + ez)).
  assert (He1 : e1 <= ez /\ -1074 <= e1).
  { unfold e1, fexp, SpecFloat.emin, prec, emax. unfold ez in *. lia. }
  pose proof (shl_align_snd mr ez e1 (proj1 He1)) as Hs.
  pose proof (shl_align_le mr ez e1 (proj1 He1)) as Hm.
  destruct (shl_align mr ez e1) as [mz e]. cbn [fst snd] in Hs, Hm. subst e.
  cbn [valid_binary]. unfold bounded, canonical_mantissa.
  rewrite (digits2_shift mr mz (ez - e1)) by (lia || assumption).
  replace (Zpos (digits2_pos mr) + (ez - e1) + e1) with (Zpos (digits2_pos mr) + ez) by lia.
  fold e1. rewrite Z.eqb_refl. simpl andb.
  apply Z.leb_le. unfold emax, prec, ez in *. lia.
Qed.

(** ** The integers of the grammar are small *)

Lemma small_to_float (v : value) : small v -> exists x, to_float v = Ok x.
Proof.
  destruct v as [f | b | z]; simpl; intros H.
  - exists f. reflexivity.
  - destruct b; eexists; reflexivity.
  - assert (Hz : z = -1 \/ z = 0 \/ z = 1) by lia.
    destruct Hz as [-> | [-> | ->]]; eexists; reflexivity.
Qed.

Lemma as_int_small (v : value) (z : Z) :
  small v -> as_int v = Some z -> -1 <= z <= 1.
Proof.
  destruct v as [f | b | i]; simpl; intros H E; inversion E; subst; auto.
  destruct b; lia.
Qed.

Lemma py_mul_small (a b r : value) :
  small a -> small b -> py_mul a b = Ok r -> small r.
Proof.
  intros Ha Hb. unfold py_mul.
  destruct (as_int a) as [x | ] eqn:Ea, (as_int b) as [y | ] eqn:Eb; intros H;
    try (invert_bind H; invert_bind H; inversion H; subst r; exact I).
  inversion H; subst r. simpl.
  pose proof (as_int_small a x Ha Ea). pose proof (as_int_small b y Hb Eb). nia.
Qed.

Lemma py_truediv_small (a b r : value) : py_truediv a b = Ok r -> small r.
Proof.
  unfold py_truediv.
  destruct (as_int a) as [x | ], (as_int b) as [y | ]; intros H;
    try (invert_bind H; invert_bind H; invert_bind H; inversion H; subst r;
         exact I).
  invert_bind H. inversion H; subst r. exact I.
Qed.

Lemma py_mod_small (a b r : value) :
  small b -> py_mod a b = Ok r -> small r.
Proof.
  intros Hb. unfold py_mod.
  destruct (as_int a) as [x | ] eqn:Ea, (as_int b) as [y | ] eqn:Eb; intros H;
    try (invert_bind H; invert_bind H; invert_bind H; inversion H; subst r;
         exact I).
  invert_bind H. inversion H; subst r. simpl.
  unfold long_mod in Hstep. destruct (y =? 0) eqn:E; [discriminate | ].
  inversion Hstep; subst a0. apply Z.eqb_neq in E.
  pose proof (as_int_small b y Hb Eb).
  destruct (Z.lt_ge_cases 0 y).
  - pose proof (Z.mod_pos_bound x y). lia.
  - pose proof (Z.mod_neg_bound x y). lia.
Qed.

Lemma py_neg_small (v : value) : small v -> small (py_neg v).
Proof. destruct v as [f | b | z]; simpl; [auto | destruct b; lia | lia]. Qed.

(** Every value a rule of the grammar returns is a float, a boolean or one
    of the integers [-1], [0], [1]; so it converts to a float. *)
Lemma grammar_small :
  forall n,
    (forall p v p1, factor n p = Ok (v, p1) -> small v)
    /\ (forall r p v p1, small r -> term_loop n r p = Ok (v, p1) -> small v)
    /\ (forall p v p1, term n p = Ok (v, p1) -> small v)
    /\ (forall p v p1, expression n p = Ok (v, p1) -> small v).
Proof.
  induction n as [ | n (IHf & IHl & IHt & IHe)].
  - repeat split; simpl; intros; try discriminate.
    destruct (ttype (current_token p)); simpl in *; try discriminate;
      inversion H0; subst; assumption.
  - repeat split.
    + intros p v p1 H. simpl in H.
      destruct (ttype (current_token p)); try discriminate.
      * invert_bind H. invert_bind H. inversion H; subst.
        apply py_neg_small. eapply IHf; eauto.
      * invert_bind H. invert_bind H. inversion H; subst. exact I.
      * invert_bind H. inversion H; subst.
        unfold number_value. destruct (tvalue (current_token p)); exact I.
      * invert_bind H. invert_bind H. invert_bind H. inversion H; subst.
        eapply IHe; eauto.
    + intros r p v p1 Hr H. simpl in H.
      destruct (ttype (current_token p)); simpl in H;
        try (inversion H; subst; assumption).
      * invert_bind H. invert_bind H. invert_bind H.
        eapply IHl; [ | exact H].
        eapply py_mul_small; [exact Hr | eapply IHf; eauto | eauto].
      * invert_bind H. invert_bind H.
        destruct (py_eq_zero v0); [discriminate | ].
        invert_bind H. eapply IHl; [ | exact H].
        eapply py_truediv_small; eauto.
      * invert_bind H. invert_bind H. invert_bind H.
        eapply IHl; [ | exact H].
        eapply py_mod_small; [eapply IHf; eauto | eauto].
    + intros p v p1 H. simpl in H. invert_bind H.
      eapply IHl; [ | exact H]. eapply IHf; eauto.
    + intros p v p1 H. simpl in H. eapply IHt; eauto.
Qed.

(** ** The claims of the specification *)

Ltac exact_float :=
  eexists; eexists; split; [vm_compute; reflexivity | ];
  split; [vm_compute; reflexivity | ];
  split; [vm_compute; reflexivity | vm_compute; reflexivity].

Ltac other_float :=
  let f := fresh "f" in let x := fresh "x" in
  let H := fresh "H" in let Hq := fresh "Hq" in let He := fresh "He" in
  intros (f & x & H & _ & Hq & He);
  vm_compute in H; inversion H; subst f; clear H;
  vm_compute in Hq; inversion Hq; subst x; clear Hq;
  vm_compute in He; discriminate.

(** C1: [evaluate("2+3")] does not fail and is not [5.0]: it is [2.0].  The
    loop of [term] leaves a [PLUS] where it finds it, and the run ends with
    the [PLUS] as current token and the [3] not yet read. *)
Theorem C1_plus_is_left_unconsumed :
  is_float (evaluate "2+3") (2 # 1)
  /\ ~ is_float (evaluate "2+3") (5 # 1)
  /\ (exists v p,
        evaluate_run (parse_fuel "2+3") "2+3" = Ok (v, p)
        /\ ttype (current_token p) = PLUS
        /\ pos (lexer p) = 2%nat
        /\ current_char (lexer p) = Some "3"%char)
  /\ (forall n result l v ln col,
        let p := mkParser l (mkToken PLUS v ln col) in
        term_loop n result p = Ok (result, p)).
Proof.
  split; [exact_float | ].
  split; [other_float | ].
  split.
  - eexists; eexists. split; [vm_compute; reflexivity | ].
    repeat split.
  - intros n result l v ln col p. destruct n; reflexivity.
Qed.

Lemma is_zero_iff (f : float) : is_zero f = true <-> exists s, f = S754_zero s.
Proof.
  split.
  - destruct f as [s | s | | s m e]; try discriminate.
    + intros _. exists s. reflexivity.
    + destruct s; discriminate.
    + destruct s; discriminate.
  - intros [s ->]. reflexivity.
Qed.

(** C5: on a [NOT], [factor] returns the boolean negation of the factor
    that follows, true exactly when that value equals zero: [NOT 0] is
    [True] and [NOT 5] is [False], and the only floats that are false are
    the two zeros. *)
Theorem C5_not_is_logical_negation :
  evaluate "NOT 0" = Ok (VBool true)
  /\ evaluate "NOT 5" = Ok (VBool false)
  /\ (forall n l v ln col,
        let p := mkParser l (mkToken NOT v ln col) in
        factor (S n) p
        = (p1 <- eat NOT p ;; '(x, p2) <- factor n p1 ;; Ok (py_not x, p2)))
  /\ (forall v, py_not v = VBool (py_eq_zero v))
  /\ (forall f, py_not (VFloat f) = VBool true <-> exists s, f = S754_zero s).
Proof.
  split; [vm_compute; reflexivity | ].
  split; [vm_compute; reflexivity | ].
  split; [reflexivity | ].
  split.
  - intros [f | b | z]; unfold py_not; simpl; rewrite ?negb_involutive;
      reflexivity.
  - intros f. rewrite <- is_zero_iff. unfold py_not; simpl.
    rewrite negb_involutive. split; [intros H; inversion H; reflexivity | ].
    intros ->; reflexivity.
Qed.

(** C3: when the right operand of a [DIVIDE] evaluates to zero, the term
    fails with the division-by-zero exception, whatever the left operand:
    no division is attempted.  The operand is evaluated first: in ["5/(0"]
    its own failure is the outcome. *)
Theorem C3_divide_by_zero
  (n : nat) (result divisor : value) (p p1 p2 : Parser) :
  eat DIVIDE p = Ok p1 ->
  factor n p1 = Ok (divisor, p2) ->
  py_eq_zero divisor = true ->
  term_loop (S n) result p = Raise DivisionByZero
  /\ evaluate "5/0" = Raise DivisionByZero
  /\ evaluate "5/-0" = Raise DivisionByZero
  /\ evaluate "5/(0" = Raise (ExpectedToken RPAREN EOF).
Proof.
  intros He Hf Hz. split; [ | repeat split; vm_compute; reflexivity].
  pose proof (eat_Ok _ _ _ He) as [Ht _]; [discriminate | ].
  simpl. rewrite Ht. simpl. rewrite He. simpl. rewrite Hf. simpl.
  rewrite Hz. reflexivity.
Qed.

Lemma C3_divide_by_zero_witness :
  let p := sample "5/0" 2 3 (mkToken DIVIDE (TVstr "/") 1 2) in
  let p1 := sample "5/0" 3 4 (mkToken NUMBER (TVfloat zero) 1 3) in
  let p2 := sample "5/0" 3 4 (eof_at 4) in
  (eat DIVIDE p = Ok p1
   /\ factor 1 p1 = Ok (VFloat zero, p2)
   /\ py_eq_zero (VFloat zero) = true)
  /\ (term_loop 2 (VFloat f5) p = Raise DivisionByZero
      /\ evaluate "5/0" = Raise DivisionByZero
      /\ evaluate "5/-0" = Raise DivisionByZero
      /\ evaluate "5/(0" = Raise (ExpectedToken RPAREN EOF)).
Proof.
  intros p p1 p2.
  split; [repeat split; vm_compute; reflexivity | ].
  apply (C3_divide_by_zero 1 (VFloat f5) (VFloat zero) p p1 p2);
    vm_compute; reflexivity.
Defined.

(** [a % b] with [b == 0] is the host's zero-division error. *)
Lemma py_mod_zero (a b : value) (x : float) :
  py_eq_zero b = true -> to_float a = Ok x ->
  py_mod a b = Raise ZeroDivisionError.
Proof.
  intros Hz Ha. unfold py_mod.
  assert (Hb : exists y, to_float b = Ok y /\ is_zero y = true).
  { destruct b as [f | c | z]; simpl in *.
    - exists f. auto.
    - destruct c; [discriminate | ]. exists zero. auto.
    - apply Z.eqb_eq in Hz. subst z. exists zero. auto. }
  destruct Hb as (y & Hy & Hyz).
  assert (Hf : (x0 <- to_float a ;; y0 <- to_float b ;; r <- float_rem x0 y0 ;;
                Ok (VFloat r)) = Raise ZeroDivisionError).
  { rewrite Ha, Hy. simpl. unfold float_rem. rewrite Hyz. reflexivity. }
  destruct (as_int a) as [i | ] eqn:Ea; [ | exact Hf].
  destruct (as_int b) as [j | ] eqn:Eb; [ | exact Hf].
  assert (Hj : j = 0).
  { destruct b as [f | c | z]; simpl in *; inversion Eb; subst.
    - destruct c; [discriminate | reflexivity].
    - apply Z.eqb_eq in Hz. assumption. }
  subst j. reflexivity.
Qed.

(** C10: when the right operand of a [MODULO] evaluates to zero, the term
    fails with the host's zero-division error, not with the exception that
    [term] raises itself for [DIVIDE]: that check is on the [DIVIDE] branch
    alone.  The left operand is any value the grammar produces
    (lemma [grammar_small]). *)
Theorem C10_modulo_by_zero_is_unguarded
  (n : nat) (result v : value) (p p1 p2 : Parser) :
  eat MODULO p = Ok p1 ->
  factor n p1 = Ok (v, p2) ->
  py_eq_zero v = true ->
  small result ->
  term_loop (S n) result p = Raise ZeroDivisionError
  /\ evaluate "5%0" = Raise ZeroDivisionError
  /\ evaluate "5%0" <> Raise DivisionByZero
  /\ evaluate "5/0" = Raise DivisionByZero.
Proof.
  intros He Hf Hz Hsmall. destruct (small_to_float result Hsmall) as [x Hx].
  split; [ | split; [vm_compute; reflexivity | split;
                     [vm_compute; discriminate | vm_compute; reflexivity]]].
  pose proof (eat_Ok _ _ _ He) as [Ht _]; [discriminate | ].
  simpl. rewrite Ht. simpl. rewrite He. simpl. rewrite Hf. simpl.
  rewrite (py_mod_zero result v x Hz Hx). reflexivity.
Qed.

Lemma C10_modulo_by_zero_is_unguarded_witness :
  let p := sample "5%0" 2 3 (mkToken MODULO (TVstr "%") 1 2) in
  let p1 := sample "5%0" 3 4 (mkToken NUMBER (TVfloat zero) 1 3) in
  let p2 := sample "5%0" 3 4 (eof_at 4) in
  (eat MODULO p = Ok p1
   /\ factor 1 p1 = Ok (VFloat zero, p2)
   /\ py_eq_zero (VFloat zero) = true
   /\ small (VFloat f5))
  /\ (term_loop 2 (VFloat f5) p = Raise ZeroDivisionError
      /\ evaluate "5%0" = Raise ZeroDivisionError
      /\ evaluate "5%0" <> Raise DivisionByZero
      /\ evaluate "5/0" = Raise DivisionByZero).
Proof.
  intros p p1 p2.
  split; [repeat split; vm_compute; reflexivity | ].
  apply (C10_modulo_by_zero_is_unguarded 1 (VFloat f5) (VFloat zero) p p1 p2);
    vm_compute; (reflexivity || exact I).
Defined.

(** C8: advancing past a newline adds one to the line and leaves the column
    at 1, so what stands right after the newline is reported at column 1 of
    the next line, as in the error for the [=] of the second line below. *)
Theorem C8_advance_past_newline (s : Lexer) :
  current_char s = Some newline ->
  line (advance s) = line s + 1
  /\ column (advance s) = 1
  /\ current_char (advance s) = String.get (S (pos s)) (text s)
  /\ @error Token (advance s)
     = Raise (UnexpectedCharacter (String.get (S (pos s)) (text s)) (line s + 1) 1)
  /\ evaluate (String "2" (String "*" (String newline "=")))
     = Raise (UnexpectedCharacter (Some "="%char) 2 1).
Proof.
  intros Hc. unfold error, advance. rewrite Hc. simpl.
  repeat split.
Qed.

Lemma C8_advance_past_newline_witness :
  let s := mkLexer (String "2" (String newline "=")) 1 (Some newline) 1 2 in
  current_char s = Some newline
  /\ (line (advance s) = 1 + 1
      /\ column (advance s) = 1
      /\ current_char (advance s) = Some "="%char
      /\ @error Token (advance s) = Raise (UnexpectedCharacter (Some "="%char) (1 + 1) 1)
      /\ evaluate (String "2" (String "*" (String newline "=")))
         = Raise (UnexpectedCharacter (Some "="%char) 2 1)).
Proof.
  intros s. split; [reflexivity | ].
  apply (C8_advance_past_newline s). reflexivity.
Defined.

(** The loop of [term] stops at a token that is none of its operators. *)
Lemma term_loop_stops (n : nat) (r : value) (p : Parser) :
  type_in (ttype (current_token p)) term_operators = false ->
  term_loop n r p = Ok (r, p).
Proof.
  intros H. destruct n; simpl; simpl in H; rewrite H; reflexivity.
Qed.

(** C2, as the claim has it, fails: the remainder of [-10] by [3] is [2.0],
    which is positive, not of the sign of the dividend. *)
Lemma C2_sign_is_not_that_of_the_dividend :
  is_float (evaluate "-10") (-10 # 1)
  /\ is_float (evaluate "-10%3") (2 # 1)
  /\ ~ (exists v, evaluate "-10%3" = Ok v /\ py_lt0 v = true).
Proof.
  split; [exact_float | ]. split; [exact_float | ].
  intros (v & H & Hv). vm_compute in H. inversion H; subst v.
  vm_compute in Hv. discriminate.
Qed.

(** C2, amended: in a term [a MODULO b] the remainder is Python's, on the
    side of the divisor: a negative result has a negative [b] and a positive
    result a positive [b], for floats, integers and booleans alike. *)
Theorem C2_modulo_sign_follows_divisor
  (n : nat) (a b r : value) (p p1 p2 p3 : Parser) :
  eat MODULO p = Ok p1 ->
  factor n p1 = Ok (b, p2) ->
  type_in (ttype (current_token p2)) term_operators = false ->
  term_loop (S n) a p = Ok (r, p3) ->
  py_mod a b = Ok r
  /\ (py_lt0 r = true -> py_lt0 b = true)
  /\ (py_gt0 r = true -> py_gt0 b = true).
Proof.
  intros He Hf Hend H.
  pose proof (eat_Ok _ _ _ He) as [Ht _]; [discriminate | ].
  simpl in H. rewrite Ht in H. simpl in H. rewrite He in H. simpl in H.
  rewrite Hf in H. simpl in H.
  destruct (py_mod a b) as [r1 | e | ] eqn:Hm; simpl in H; try discriminate.
  rewrite (term_loop_stops n r1 p2 Hend) in H. inversion H; subst r1 p3. split; [reflexivity | ]. apply (py_mod_sign a b r Hm).
Qed.

Lemma C2_modulo_sign_follows_divisor_witness :
  let p := sample "-10%3" 4 5 (mkToken MODULO (TVstr "%") 1 4) in
  let p1 := sample "-10%3" 5 6 (mkToken NUMBER (TVfloat f3) 1 5) in
  let p2 := sample "-10%3" 5 6 (eof_at 6) in
  (eat MODULO p = Ok p1
   /\ factor 1 p1 = Ok (VFloat f3, p2)
   /\ type_in (ttype (current_token p2)) term_operators = false
   /\ term_loop 2 (VFloat f10neg) p = Ok (VFloat f2, p2))
  /\ (py_mod (VFloat f10neg) (VFloat f3) = Ok (VFloat f2)
      /\ (py_lt0 (VFloat f2) = true -> py_lt0 (VFloat f3) = true)
      /\ (py_gt0 (VFloat f2) = true -> py_gt0 (VFloat f3) = true)).
Proof.
  intros p p1 p2.
  split; [repeat split; vm_compute; reflexivity | ].
  apply (C2_modulo_sign_follows_divisor 1 (VFloat f10neg) (VFloat f3) (VFloat f2)
           p p1 p2 p2); vm_compute; reflexivity.
Defined.

(** C6, as the claim has it, fails: no token comes out of ["1.2.3"]. *)
Lemma C6_no_NUMBER_for_two_dots :
  ~ (exists t s1, get_next_token (Lexer_init "1.2.3") = Ok (t, s1)).
Proof.
  intros (t & s1 & H). vm_compute in H. discriminate.
Qed.

(** C6, amended: on a digit the scanner reads the whole run of digits and
    dots, however many dots there are; of ["1.2.3"] it reads all five
    characters, and the conversion of that text to a float then fails with
    the host's [ValueError], which is the outcome of the scan: no token. *)
Theorem C6_number_reads_the_run_then_conversion_fails :
  (forall s, exists r s1,
      collect_while number_class (lexer_fuel s) "" s = Ok (r, s1)
      /\ text s1 = text s
      /\ pos s1 = (pos s + String.length r)%nat
      /\ all_in number_class r = true
      /\ stops_at number_class s1)
  /\ (exists s1,
        collect_while number_class (lexer_fuel (Lexer_init "1.2.3")) ""
                      (Lexer_init "1.2.3") = Ok ("1.2.3", s1)
        /\ pos s1 = 5%nat /\ current_char s1 = None)
  /\ py_float "1.2.3" = Raise (ValueError "1.2.3")
  /\ get_next_token (Lexer_init "1.2.3") = Raise (ValueError "1.2.3")
  /\ evaluate "1.2.3" = Raise (ValueError "1.2.3").
Proof.
  split.
  - intros s.
    destruct (collect_while_ends number_class (lexer_fuel s) "" s (remaining_fuel s))
      as (r & s1 & E & Ht & Hp & _ & Hstop & _).
    exists r, s1. change ("" ++ r) with r in E. repeat split; auto.
    apply (collect_while_class number_class _ _ _ _ _ E). reflexivity.
  - split; [eexists; split; [vm_compute; reflexivity | split; reflexivity] | ].
    repeat split; vm_compute; reflexivity.
Qed.

(** A letter is neither a space nor a digit. *)
Lemma isalpha_only (c : ascii) :
  isalpha c = true -> isspace c = false /\ isdigit c = false.
Proof.
  destruct c as [[] [] [] [] [] [] [] []]; vm_compute; intros H;
    try discriminate H; split; reflexivity.
Qed.

Lemma len_append_char (r : string) (c : ascii) : len (append_char r c) = len r + 1.
Proof.
  unfold len, append_char. induction r as [ | a r IH]; simpl String.length.
  - reflexivity.
  - rewrite !Nat2Z.inj_succ in *. lia.
Qed.

(** A loop that collects no newline stays on its line and moves the column
    by the length of what it collects. *)
Lemma collect_while_position (cls : ascii -> bool) :
  cls newline = false ->
  forall n result s r s1,
    collect_while cls n result s = Ok (r, s1) ->
    line s1 = line s /\ column s1 - len r = column s - len result.
Proof.
  intros Hnl. induction n as [ | n IH]; intros result s r s1 H; simpl in H.
  - destruct (current_char s) as [c | ]; [destruct (cls c) | ];
      inversion H; subst; auto.
  - destruct (current_char s) as [c | ] eqn:Hc; [destruct (cls c) eqn:Hcls | ];
      try (inversion H; subst; auto; fail).
    apply IH in H. destruct H as [Hl Hcol].
    rewrite len_append_char in Hcol.
    assert (Hne : Ascii.eqb c newline = false).
    { destruct (Ascii.eqb c newline) eqn:E; [ | reflexivity].
      apply Ascii.eqb_eq in E. congruence. }
    unfold advance in Hl, Hcol. rewrite Hc, Hne in Hl, Hcol. simpl in Hl, Hcol.
    split; lia.
Qed.

(** C7: an unknown word makes the scan fail, but [_id] reports the error
    after its loop has moved the cursor past the word: the exception carries
    what stands after the word and the column after it, on the same line.
    For ["abc"] that is no character at all, at column 4; for ["abc*2"] the
    [*] at column 4. *)
Theorem C7_unknown_word_error_is_past_the_word (s : Lexer) (c : ascii) :
  current_char s = Some c ->
  isalpha c = true ->
  (exists r s1,
      collect_while isalnum (lexer_fuel s) "" s = Ok (String c r, s1)
      /\ pos s1 = (pos s + S (String.length r))%nat
      /\ (keywords_get (upper (String c r)) = None ->
          get_next_token s
          = Raise (UnexpectedCharacter (current_char s1) (line s)
                     (column s + len (String c r)))))
  /\ evaluate "abc" = Raise (UnexpectedCharacter None 1 4)
  /\ evaluate "abc*2" = Raise (UnexpectedCharacter (Some "*"%char) 1 4).
Proof.
  intros Hc Ha. split; [ | split; vm_compute; reflexivity].
  pose proof (isalpha_isalnum c Ha) as Hn.
  destruct (isalpha_only c Ha) as [Hsp Hdg].
  pose proof (remaining_advance s c Hc) as Hlt.
  destruct (collect_while_ends isalnum (String.length (text s) - pos s)
              (append_char "" c) (advance s)) as (r & s1 & E & _ & Hp & _).
  { unfold remaining in *. rewrite Hc in Hlt. rewrite text_advance in *.
    destruct (current_char (advance s)); lia. }
  assert (E0 : collect_while isalnum (lexer_fuel s) "" s = Ok (String c r, s1)).
  { unfold lexer_fuel. simpl. rewrite Hc, Hn. exact E. }
  exists r, s1. split; [exact E0 | ].
  split; [rewrite Hp, pos_advance; lia | ].
  intros Hk.
  assert (Hnl : isalnum newline = false) by reflexivity.
  destruct (collect_while_position isalnum Hnl _ _ _ _ _ E0) as [Hl Hcol].
  unfold get_next_token, lexer_fuel. simpl get_next_token_loop.
  rewrite Hc, Hsp, Hdg, Ha. unfold _id. rewrite E0. simpl bind.
  change (upper_char c ++ upper r)%list with (upper (String c r)).
  rewrite Hk. unfold error. rewrite Hl.
  replace (column s1) with (column s + len (String c r))
    by (change (len "") with 0 in Hcol; lia).
  reflexivity.
Qed.

Lemma C7_unknown_word_error_is_past_the_word_witness :
  (current_char (Lexer_init "abc*2") = Some "a"%char
   /\ isalpha "a" = true)
  /\ ((exists r s1,
         collect_while isalnum (lexer_fuel (Lexer_init "abc*2")) ""
                       (Lexer_init "abc*2") = Ok (String "a" r, s1)
         /\ pos s1 = (pos (Lexer_init "abc*2") + S (String.length r))%nat
         /\ (keywords_get (upper (String "a" r)) = None ->
             get_next_token (Lexer_init "abc*2")
             = Raise (UnexpectedCharacter (current_char s1)
                        (line (Lexer_init "abc*2"))
                        (column (Lexer_init "abc*2") + len (String "a" r)))))
      /\ evaluate "abc" = Raise (UnexpectedCharacter None 1 4)
      /\ evaluate "abc*2" = Raise (UnexpectedCharacter (Some "*"%char) 1 4)).
Proof.
  split; [split; reflexivity | ].
  apply (C7_unknown_word_error_is_past_the_word (Lexer_init "abc*2") "a");
    reflexivity.
Defined.

(** * Further properties of the code *)

(** ** The cursor and the text *)

Lemma get_head_drop (t : string) :
  forall n, String.get n t = head (drop n t).
Proof.
  induction t as [ | a t IH]; intros n.
  - destruct n; simpl; [reflexivity | ].
    clear. induction n; simpl; auto.
  - destruct n; simpl; [reflexivity | apply IH].
Qed.

Lemma drop_tail (t : string) : forall n, drop n (tail t) = tail (drop n t).
Proof.
  intros n. revert t. induction n as [ | n IH]; intros t; simpl.
  - reflexivity.
  - rewrite IH. reflexivity.
Qed.

Lemma drop_S (n : nat) (t : string) : drop (S n) t = tail (drop n t).
Proof. simpl. apply drop_tail. Qed.

Lemma length_tail (t : string) : String.length (tail t) = (String.length t - 1)%nat.
Proof. destruct t; simpl; lia. Qed.

Lemma length_drop (t : string) :
  forall n, String.length (drop n t) = (String.length t - n)%nat.
Proof.
  intros n. revert t. induction n as [ | n IH]; intros t; simpl.
  - lia.
  - rewrite IH, length_tail. lia.
Qed.

Lemma in_step_init (t : string) : in_step (Lexer_init t).
Proof. destruct t; reflexivity. Qed.

Lemma in_step_advance (s : Lexer) : in_step (advance s).
Proof. reflexivity. Qed.

Lemma rest_advance (s : Lexer) : rest (advance s) = tail (rest s).
Proof. unfold rest. rewrite pos_advance, text_advance. apply drop_S. Qed.

Lemma in_step_head (s : Lexer) : in_step s -> current_char s = head (rest s).
Proof. unfold in_step, rest. intros ->. apply get_head_drop. Qed.

Lemma rest_cases (s : Lexer) :
  in_step s ->
  (current_char s = None /\ rest s = "")
  \/ (exists c, current_char s = Some c /\ rest s = String c (rest (advance s))).
Proof.
  intros H. apply in_step_head in H. rewrite rest_advance.
  destruct (rest s) as [ | c tl]; simpl in *; [left | right; exists c]; auto.
Qed.

Lemma remaining_rest (s : Lexer) :
  in_step s -> remaining s = String.length (rest s).
Proof.
  intros H. unfold remaining. pose proof (in_step_head s H) as Hh.
  unfold in_step in H. unfold rest in *. rewrite length_drop.
  destruct (current_char s) as [c | ].
  - symmetry in H. apply get_Some_lt in H. lia.
  - destruct (drop (pos s) (text s)) eqn:E; [ | discriminate].
    apply (f_equal String.length) in E. rewrite length_drop in E. simpl in E. lia.
Qed.

(** A collecting loop, seen from the text: it takes the longest prefix in
    its class of the text under the cursor and leaves the cursor on what
    follows. *)
Lemma collect_while_rest (cls : ascii -> bool) :
  forall n result s,
    in_step s -> (remaining s <= n)%nat ->
    exists s1,
      collect_while cls n result s = Ok (result ++ take_while cls (rest s), s1)
      /\ in_step s1
      /\ text s1 = text s
      /\ rest s1 = drop_while cls (rest s)
      /\ pos s1 = (pos s + String.length (take_while cls (rest s)))%nat.
Proof.
  induction n as [ | n IH]; intros result s Hs Hn;
    destruct (rest_cases s Hs) as [[Hc Hr] | (c & Hc & Hr)].
  - exists s. simpl. rewrite Hc, Hr. simpl. rewrite append_empty_r.
    repeat split; auto.
  - unfold remaining in Hn. rewrite Hc in Hn. lia.
  - exists s. simpl. rewrite Hc, Hr. simpl. rewrite append_empty_r.
    repeat split; auto.
  - simpl. rewrite Hc, Hr. simpl. destruct (cls c) eqn:Hcls.
    + pose proof (remaining_advance s c Hc) as Hlt.
      destruct (IH (append_char result c) (advance s) (in_step_advance s))
        as (s1 & E & H1 & Ht & Hrest & Hp); [lia | ].
      exists s1. rewrite E. unfold append_char. rewrite append_assoc. simpl.
      repeat split; auto. rewrite Hp, pos_advance. lia.
    + exists s. rewrite append_empty_r. repeat split; auto.
Qed.

Lemma skip_whitespace_rest (s : Lexer) :
  in_step s ->
  exists s1,
    skip_whitespace s = Ok s1
    /\ in_step s1
    /\ text s1 = text s
    /\ rest s1 = drop_while isspace (rest s)
    /\ (pos s <= pos s1)%nat.
Proof.
  unfold skip_whitespace. generalize (remaining_fuel s).
  generalize (lexer_fuel s) as n. intros n. revert s.
  induction n as [ | n IH]; intros s Hn Hs;
    destruct (rest_cases s Hs) as [[Hc Hr] | (c & Hc & Hr)].
  - exists s. simpl. rewrite Hc, Hr. repeat split; auto.
  - unfold remaining in Hn. rewrite Hc in Hn. lia.
  - exists s. simpl. rewrite Hc, Hr. repeat split; auto.
  - simpl. rewrite Hc, Hr. simpl. destruct (isspace c) eqn:Hcls.
    + pose proof (remaining_advance s c Hc) as Hlt.
      destruct (IH (advance s)) as (s1 & E & H1 & Ht & Hrest & Hp);
        [lia | apply in_step_advance | ].
      exists s1. rewrite E. repeat split; auto.
      rewrite pos_advance in Hp. lia.
    + exists s. repeat split; auto.
Qed.

(** ** Line and column follow the cursor *)

Lemma line_col_0 (t : string) (l c : Z) : line_col t 0 l c = (l, c).
Proof. destruct t; reflexivity. Qed.

Lemma line_col_S (t : string) :
  forall n l c a,
    String.get n t = Some a ->
    line_col t (S n) l c
    = (if Ascii.eqb a newline then (fst (line_col t n l c) + 1, 1)
       else (fst (line_col t n l c), snd (line_col t n l c) + 1)).
Proof.
  induction t as [ | b t IH]; intros n l c a H.
  - destruct n; discriminate.
  - destruct n as [ | n].
    + simpl in H. inversion H; subst b. simpl. rewrite !line_col_0.
      destruct (Ascii.eqb a newline); reflexivity.
    + simpl in H. change (line_col (String b t) (S (S n)) l c)
        with (if Ascii.eqb b newline then line_col t (S n) (l + 1) 1
              else line_col t (S n) l (c + 1)).
      change (line_col (String b t) (S n) l c)
        with (if Ascii.eqb b newline then line_col t n (l + 1) 1
              else line_col t n l (c + 1)).
      destruct (Ascii.eqb b newline); apply IH; assumption.
Qed.

Lemma positioned_init (t : string) : positioned (Lexer_init t).
Proof.
  split; [apply in_step_init | ]. split; [simpl; lia | ].
  simpl. apply line_col_0.
Qed.

Lemma positioned_advance (s : Lexer) (c : ascii) :
  positioned s -> current_char s = Some c -> positioned (advance s).
Proof.
  intros (Hs & Hp & Hlc) Hc. unfold in_step in Hs. rewrite Hc in Hs.
  symmetry in Hs. split; [apply in_step_advance | ]. split.
  - rewrite pos_advance, text_advance. apply get_Some_lt in Hs. lia.
  - rewrite pos_advance, text_advance. rewrite (line_col_S _ _ _ _ _ Hs), Hlc.
    unfold advance. rewrite Hc. simpl.
    destruct (Ascii.eqb c newline); reflexivity.
Qed.

Lemma collect_while_positioned (cls : ascii -> bool) :
  forall n result s r s1,
    positioned s -> collect_while cls n result s = Ok (r, s1) -> positioned s1.
Proof.
  induction n as [ | n IH]; intros result s r s1 Hs H; simpl in H.
  - destruct (current_char s) as [c | ]; [destruct (cls c) | ];
      inversion H; subst; assumption.
  - destruct (current_char s) as [c | ] eqn:Hc; [destruct (cls c) | ];
      try (inversion H; subst; assumption).
    apply (IH _ _ _ _ (positioned_advance s c Hs Hc) H).
Qed.

Lemma skip_whitespace_positioned (s s1 : Lexer) :
  positioned s -> skip_whitespace s = Ok s1 -> positioned s1.
Proof.
  unfold skip_whitespace. generalize (lexer_fuel s) as n. intros n. revert s.
  induction n as [ | n IH]; intros s Hs H; simpl in H.
  - destruct (current_char s) as [c | ]; [destruct (isspace c) | ];
      inversion H; subst; assumption.
  - destruct (current_char s) as [c | ] eqn:Hc; [destruct (isspace c) | ];
      try (inversion H; subst; assumption).
    apply (IH _ (positioned_advance s c Hs Hc) H).
Qed.

(** ** One token, seen from the text *)

Lemma stops_at_head (cls : ascii -> bool) (s : Lexer) :
  in_step s -> rest s = drop_while cls (rest s) -> stops_at cls s.
Proof.
  intros Hs Hr. unfold stops_at. rewrite (in_step_head s Hs).
  destruct (rest s) as [ | c tl]; simpl in *; [exact I | ].
  destruct (cls c) eqn:E; [ | reflexivity].
  exfalso. clear Hs. revert c E Hr. induction tl as [ | d tl IH]; intros c E Hr.
  - discriminate.
  - simpl in Hr. destruct (cls d) eqn:Ed.
    + apply (f_equal String.length) in Hr. simpl in Hr.
      assert (Hle : forall t, (String.length (drop_while cls t) <= String.length t)%nat).
      { clear. induction t as [ | a t IHt]; simpl; [lia | ].
        destruct (cls a); simpl; lia. }
      specialize (Hle tl). lia.
    + inversion Hr; subst. congruence.
Qed.

Lemma drop_while_idem (cls : ascii -> bool) (t : string) :
  drop_while cls (drop_while cls t) = drop_while cls t.
Proof.
  induction t as [ | c t IH]; simpl; [reflexivity | ].
  destruct (cls c) eqn:E; [assumption | ]. simpl. rewrite E. reflexivity.
Qed.

(** Without a space under the cursor the loop of [get_next_token] takes no
    fuel. *)
Lemma get_next_token_loop_fuel (s : Lexer) (n m : nat) :
  stops_at isspace s -> get_next_token_loop n s = get_next_token_loop m s.
Proof.
  unfold stops_at. intros H.
  destruct n, m; simpl; destruct (current_char s) as [c | ]; try reflexivity;
    rewrite H; reflexivity.
Qed.

(** [get_next_token] first skips the spaces, then scans where that stops. *)
Lemma get_next_token_skip (s : Lexer) :
  in_step s ->
  exists s0,
    skip_whitespace s = Ok s0
    /\ in_step s0
    /\ text s0 = text s
    /\ rest s0 = drop_while isspace (rest s)
    /\ (pos s <= pos s0)%nat
    /\ stops_at isspace s0
    /\ get_next_token s = get_next_token s0.
Proof.
  intros Hs.
  destruct (skip_whitespace_rest s Hs) as (s0 & E & H0 & Ht & Hr & Hp).
  assert (Hstop : stops_at isspace s0).
  { apply stops_at_head; [assumption | ]. rewrite Hr. symmetry.
    apply drop_while_idem. }
  exists s0. repeat split; auto.
  unfold get_next_token at 1. unfold lexer_fuel. simpl get_next_token_loop.
  destruct (current_char s) as [c | ] eqn:Hc.
  - destruct (isspace c) eqn:Hsp.
    + rewrite E. simpl bind. apply get_next_token_loop_fuel. assumption.
    + assert (s0 = s).
      { unfold skip_whitespace, lexer_fuel in E. simpl in E.
        rewrite Hc, Hsp in E. inversion E. reflexivity. }
      subst s0. unfold get_next_token, lexer_fuel. simpl get_next_token_loop.
      rewrite Hc, Hsp. reflexivity.
  - assert (s0 = s).
    { unfold skip_whitespace, lexer_fuel in E. simpl in E.
      rewrite Hc in E. inversion E. reflexivity. }
    subst s0. unfold get_next_token, lexer_fuel. simpl get_next_token_loop.
    rewrite Hc. reflexivity.
Qed.

(** At the end of the text: the end-of-input token, and the lexer stays. *)
Lemma get_next_token_end (s : Lexer) :
  current_char s = None ->
  get_next_token s = Ok (mkToken EOF TVNone (line s) (column s), s).
Proof.
  intros Hc. unfold get_next_token, lexer_fuel. simpl. rewrite Hc. reflexivity.
Qed.

Lemma symbol_type_class (c : ascii) (t : TokenType) :
  symbol_type c = Some t ->
  isspace c = false /\ isdigit c = false /\ isalnum c = false
  /\ isalpha c = false /\ Ascii.eqb c newline = false /\ Ascii.eqb c "." = false.
Proof.
  destruct c as [[] [] [] [] [] [] [] []]; vm_compute; intros H;
    try discriminate H; repeat split; reflexivity.
Qed.

(** On one of the ten symbols: its token, at the position of the symbol,
    and the cursor one character further. *)
Lemma get_next_token_symbol (s : Lexer) (c : ascii) (t : TokenType) :
  current_char s = Some c -> symbol_type c = Some t ->
  get_next_token s
  = Ok (mkToken t (TVstr (String c "")) (line s) (column s), advance s).
Proof.
  intros Hc Ht.
  destruct (symbol_type_class c t Ht) as (Hsp & Hd & _ & Ha & Hnl & _).
  unfold get_next_token, lexer_fuel. simpl get_next_token_loop.
  rewrite Hc, Hsp, Hd, Ha.
  assert (Hpos : line (advance s) = line s /\ column (advance s) - 1 = column s).
  { unfold advance. rewrite Hc, Hnl. simpl. split; lia. }
  destruct Hpos as [Hl Hcol].
  unfold symbol_type in Ht.
  repeat match goal with
         | H : (if Ascii.eqb c ?x then _ else _) = Some t |- _ =>
             let E := fresh "E" in
             destruct (Ascii.eqb c x) eqn:E;
             [apply Ascii.eqb_eq in E; subst c; inversion H; subst t;
              unfold symbol; rewrite Hl, Hcol; reflexivity | ]
         end.
  discriminate.
Qed.

(** On any other character: the error of [Lexer.error], with the character
    and the position of the cursor. *)
Lemma get_next_token_other (s : Lexer) (c : ascii) :
  current_char s = Some c ->
  isspace c = false -> isdigit c = false -> isalpha c = false ->
  symbol_type c = None ->
  get_next_token s = Raise (UnexpectedCharacter (Some c) (line s) (column s)).
Proof.
  intros Hc Hsp Hd Ha Ht.
  unfold get_next_token, lexer_fuel. simpl get_next_token_loop.
  rewrite Hc, Hsp, Hd, Ha. unfold symbol_type in Ht.
  repeat match goal with
         | H : (if Ascii.eqb c ?x then _ else _) = None |- _ =>
             destruct (Ascii.eqb c x); [discriminate H | ]
         end.
  unfold error. rewrite Hc. reflexivity.
Qed.

Lemma number_class_newline : number_class newline = false.
Proof. reflexivity. Qed.

Lemma isalnum_newline : isalnum newline = false.
Proof. reflexivity. Qed.

Lemma isdigit_only (c : ascii) :
  isdigit c = true -> isspace c = false /\ number_class c = true.
Proof.
  destruct c as [[] [] [] [] [] [] [] []]; vm_compute; intros H;
    try discriminate H; split; reflexivity.
Qed.

(** On a digit: the run of digits and dots that starts there, converted by
    [float]; the token is at the position of the first digit and the cursor
    after the run. *)
Lemma get_next_token_number (s : Lexer) (c : ascii) :
  in_step s -> current_char s = Some c -> isdigit c = true ->
  exists s1,
    in_step s1
    /\ text s1 = text s
    /\ rest s1 = drop_while number_class (rest s)
    /\ pos s1 = (pos s + String.length (take_while number_class (rest s)))%nat
    /\ line s1 = line s
    /\ column s1 = column s + len (take_while number_class (rest s))
    /\ (positioned s -> positioned s1)
    /\ get_next_token s
       = (f <- py_float (take_while number_class (rest s)) ;;
          Ok (mkToken NUMBER (TVfloat f) (line s) (column s), s1)).
Proof.
  intros Hs Hc Hd. destruct (isdigit_only c Hd) as [Hsp _].
  destruct (collect_while_rest number_class (lexer_fuel s) "" s Hs (remaining_fuel s))
    as (s1 & E & H1 & Ht & Hr & Hp).
  change ("" ++ take_while number_class (rest s)) with (take_while number_class (rest s)) in E.
  destruct (collect_while_position number_class number_class_newline _ _ _ _ _ E)
    as [Hl Hcol].
  change (len "") with 0 in Hcol.
  exists s1. do 5 (split; [assumption | ]). split; [lia | ].
  split; [intros Hpos; apply (collect_while_positioned _ _ _ _ _ _ Hpos E) | ].
  unfold get_next_token, lexer_fuel. simpl get_next_token_loop.
  rewrite Hc, Hsp, Hd. unfold number. fold (lexer_fuel s). rewrite E. simpl bind.
  rewrite Hl. replace (column s1 - len (take_while number_class (rest s)))
    with (column s) by lia.
  reflexivity.
Qed.

(** On a letter: the run of letters and digits that starts there, looked up
    in upper case among the keywords. *)
Lemma get_next_token_word (s : Lexer) (c : ascii) :
  in_step s -> current_char s = Some c -> isalpha c = true ->
  exists s1,
    in_step s1
    /\ text s1 = text s
    /\ rest s1 = drop_while isalnum (rest s)
    /\ pos s1 = (pos s + String.length (take_while isalnum (rest s)))%nat
    /\ line s1 = line s
    /\ column s1 = column s + len (take_while isalnum (rest s))
    /\ (positioned s -> positioned s1)
    /\ get_next_token s
       = match keywords_get (upper (take_while isalnum (rest s))) with
         | Some (key, t) => Ok (mkToken t (TVstr key) (line s) (column s), s1)
         | None => Raise (UnexpectedCharacter (current_char s1) (line s1) (column s1))
         end.
Proof.
  intros Hs Hc Ha. destruct (isalpha_only c Ha) as [Hsp Hd].
  destruct (collect_while_rest isalnum (lexer_fuel s) "" s Hs (remaining_fuel s))
    as (s1 & E & H1 & Ht & Hr & Hp).
  change ("" ++ take_while isalnum (rest s)) with (take_while isalnum (rest s)) in E.
  destruct (collect_while_position isalnum isalnum_newline _ _ _ _ _ E)
    as [Hl Hcol].
  change (len "") with 0 in Hcol.
  exists s1. do 5 (split; [assumption | ]). split; [lia | ].
  split; [intros Hpos; apply (collect_while_positioned _ _ _ _ _ _ Hpos E) | ].
  unfold get_next_token, lexer_fuel. simpl get_next_token_loop.
  rewrite Hc, Hsp, Hd, Ha. unfold _id. fold (lexer_fuel s). rewrite E. simpl bind.
  destruct (keywords_get _) as [[key t] | ]; [ | reflexivity].
  rewrite Hl. replace (column s1 - len (take_while isalnum (rest s)))
    with (column s) by lia.
  reflexivity.
Qed.

Lemma length_append (a b : string) :
  String.length (a ++ b) = (String.length a + String.length b)%nat.
Proof. induction a as [ | c a IH]; simpl; [ | rewrite IH]; reflexivity. Qed.

Lemma take_drop_while_app (cls : ascii -> bool) (w u : string) :
  all_in cls w = true -> starts_outside cls u ->
  take_while cls (w ++ u) = w /\ drop_while cls (w ++ u) = u.
Proof.
  intros Hw Hu. induction w as [ | c w IH]; simpl in *.
  - destruct u as [ | d u]; simpl in *; [auto | ]. rewrite Hu. auto.
  - apply andb_true_iff in Hw. destruct Hw as [Hc Hw]. rewrite Hc.
    destruct (IH Hw) as [-> ->]. auto.
Qed.

Lemma char_cases (c : ascii) :
  isspace c = true \/ isdigit c = true \/ isalpha c = true
  \/ (exists t, symbol_type c = Some t)
  \/ (isspace c = false /\ isdigit c = false /\ isalpha c = false
      /\ symbol_type c = None).
Proof.
  destruct (isspace c); [auto | ]. destruct (isdigit c); [auto | ].
  destruct (isalpha c); [auto | ].
  destruct (symbol_type c) as [t | ]; [right; right; right; left; eauto | ].
  repeat right. auto.
Qed.

Lemma symbol_type_kind (c : ascii) (t : TokenType) :
  symbol_type c = Some t -> t <> EOF /\ t <> NUMBER.
Proof.
  unfold symbol_type.
  repeat match goal with
         | |- context [if Ascii.eqb c ?x then _ else _] => destruct (Ascii.eqb c x)
         end; intros H; inversion H; split; discriminate.
Qed.

(** The cursor of a positioned lexer is the length of the text less what is
    left of it. *)
Lemma pos_rest (s : Lexer) :
  positioned s -> (pos s + String.length (rest s))%nat = String.length (text s).
Proof.
  intros (_ & Hp & _). unfold rest. rewrite length_drop. lia.
Qed.

(** [get_next_token] keeps the lexer positioned on its text, never moves the
    cursor back, and stamps the token with the line and column of the first
    character after the spaces, which is where the token starts; only the
    end-of-input token consumes nothing. *)
Theorem get_next_token_reports_position (s s1 : Lexer) (t : Token) :
  positioned s ->
  get_next_token s = Ok (t, s1) ->
  positioned s1
  /\ text s1 = text s
  /\ exists s0,
      skip_whitespace s = Ok s0
      /\ rest s0 = drop_while isspace (rest s)
      /\ (pos s <= pos s0 <= pos s1)%nat
      /\ line_col (text s) (pos s0) 1 1 = (tline t, tcolumn t)
      /\ ((pos s0 < pos s1)%nat \/ (ttype t = EOF /\ rest s0 = "")).
Proof.
  intros Hpos H. pose proof Hpos as (Hs & _).
  destruct (get_next_token_skip s Hs) as (s0 & E & H0 & Ht0 & Hr0 & Hp0 & Hstop & Eq).
  pose proof (skip_whitespace_positioned s s0 Hpos E) as Hpos0.
  rewrite Eq in H. pose proof Hpos0 as (_ & _ & Hlc). rewrite Ht0 in Hlc.
  assert (Hgoal : positioned s1 /\ text s1 = text s0
                  /\ (pos s0 <= pos s1)%nat
                  /\ tline t = line s0 /\ tcolumn t = column s0
                  /\ ((pos s0 < pos s1)%nat \/ (ttype t = EOF /\ rest s0 = ""))).
  { destruct (rest_cases s0 H0) as [[Hc Hr] | (c & Hc & Hr)].
    - rewrite (get_next_token_end s0 Hc) in H. inversion H; subst t s1.
      simpl. split; [assumption | ]. repeat split; auto.
    - unfold stops_at in Hstop. rewrite Hc in Hstop.
      destruct (char_cases c) as [Hsp | [Hd | [Ha | [[ty Hty] | (_ & Hd & Ha & Hty)]]]].
      + congruence.
      + destruct (get_next_token_number s0 c H0 Hc Hd)
          as (s2 & _ & Ht & _ & Hp & _ & _ & Hp2 & Eq2).
        rewrite Eq2 in H. destruct (py_float _) as [f | e | ]; simpl in H;
          inversion H; subst t s2. simpl.
        assert (0 < String.length (take_while number_class (rest s0)))%nat.
        { rewrite Hr. simpl. destruct (isdigit_only c Hd) as [_ ->]. simpl. lia. }
        split; [apply Hp2; assumption | ]. repeat split; auto; lia.
      + destruct (get_next_token_word s0 c H0 Hc Ha)
          as (s2 & _ & Ht & _ & Hp & _ & _ & Hp2 & Eq2).
        rewrite Eq2 in H.
        destruct (keywords_get _) as [[key ty] | ]; inversion H; subst t s2.
        simpl.
        assert (0 < String.length (take_while isalnum (rest s0)))%nat.
        { rewrite Hr. simpl. rewrite (isalpha_isalnum c Ha). simpl. lia. }
        split; [apply Hp2; assumption | ]. repeat split; auto; lia.
      + rewrite (get_next_token_symbol s0 c ty Hc Hty) in H.
        inversion H; subst t s1. simpl.
        split; [apply (positioned_advance s0 c Hpos0 Hc) | ].
        repeat split; auto; lia.
      + rewrite (get_next_token_other s0 c Hc Hstop Hd Ha Hty) in H.
        discriminate. }
  destruct Hgoal as (Hp1 & Ht1 & Hle & Hl & Hcol & Hmove).
  split; [assumption | ]. split; [congruence | ].
  exists s0. repeat split; auto. rewrite Hlc, Hl, Hcol. reflexivity.
Qed.

Lemma get_next_token_reports_position_witness :
  positioned (Lexer_init two_lines)
  /\ get_next_token (Lexer_init two_lines) = Ok (paren_token, behind_paren)
  /\ positioned behind_paren
  /\ text behind_paren = text (Lexer_init two_lines)
  /\ exists s0,
      skip_whitespace (Lexer_init two_lines) = Ok s0
      /\ rest s0 = drop_while isspace (rest (Lexer_init two_lines))
      /\ (pos (Lexer_init two_lines) <= pos s0 <= pos behind_paren)%nat
      /\ line_col (text (Lexer_init two_lines)) (pos s0) 1 1
         = (tline paren_token, tcolumn paren_token)
      /\ ((pos s0 < pos behind_paren)%nat
          \/ (ttype paren_token = EOF /\ rest s0 = "")).
Proof.
  assert (Hpos : positioned (Lexer_init two_lines)).
  { split; [reflexivity | split; [simpl; lia | reflexivity]]. }
  assert (H : get_next_token (Lexer_init two_lines) = Ok (paren_token, behind_paren))
    by reflexivity.
  split; [exact Hpos | split; [exact H | ]].
  apply (get_next_token_reports_position _ _ _ Hpos H).
Defined.

(** Once the end of the input has been returned, every further call returns
    the same end-of-input token and leaves the lexer as it is. *)
Theorem get_next_token_end_is_final (s s1 : Lexer) (t : Token) :
  in_step s ->
  get_next_token s = Ok (t, s1) ->
  ttype t = EOF ->
  current_char s1 = None /\ get_next_token s1 = Ok (t, s1).
Proof.
  intros Hs H Heof.
  destruct (get_next_token_skip s Hs) as (s0 & _ & H0 & _ & _ & _ & Hstop & Eq).
  rewrite Eq in H.
  destruct (rest_cases s0 H0) as [[Hc Hr] | (c & Hc & Hr)].
  - rewrite (get_next_token_end s0 Hc) in H. inversion H; subst t s1.
    split; [assumption | apply get_next_token_end; assumption].
  - exfalso. unfold stops_at in Hstop. rewrite Hc in Hstop.
    destruct (char_cases c) as [Hsp | [Hd | [Ha | [[ty Hty] | (_ & Hd & Ha & Hty)]]]].
    + congruence.
    + destruct (get_next_token_number s0 c H0 Hc Hd) as (s2 & _ & _ & _ & _ & _ & _ & _ & Eq2).
      rewrite Eq2 in H. destruct (py_float _); simpl in H; inversion H; subst t.
      discriminate.
    + destruct (get_next_token_word s0 c H0 Hc Ha) as (s2 & _ & _ & _ & _ & _ & _ & _ & Eq2).
      rewrite Eq2 in H.
      destruct (keywords_get _) as [[key ty] | ] eqn:Hk; inversion H; subst t.
      apply keywords_get_type in Hk. simpl in Heof. tauto.
    + rewrite (get_next_token_symbol s0 c ty Hc Hty) in H. inversion H; subst t.
      apply symbol_type_kind in Hty. simpl in Heof. tauto.
    + rewrite (get_next_token_other s0 c Hc Hstop Hd Ha Hty) in H. discriminate.
Qed.

Lemma get_next_token_end_is_final_witness :
  in_step (Lexer_init " ")
  /\ get_next_token (Lexer_init " ") = Ok (end_token, at_end)
  /\ ttype end_token = EOF
  /\ current_char at_end = None
  /\ get_next_token at_end = Ok (end_token, at_end).
Proof.
  assert (Hs : in_step (Lexer_init " ")) by reflexivity.
  assert (H : get_next_token (Lexer_init " ") = Ok (end_token, at_end))
    by reflexivity.
  assert (He : ttype end_token = EOF) by reflexivity.
  split; [exact Hs | split; [exact H | split; [exact He | ]]].
  apply (get_next_token_end_is_final _ _ _ Hs H He).
Defined.

(** ** Whole runs on simple texts *)

Lemma parse_fuel_S (t : string) :
  parse_fuel t = S (S (S (3 * String.length t))).
Proof. unfold parse_fuel. lia. Qed.

Lemma evaluate_Raise_init (t : string) (e : exn) :
  get_next_token (Lexer_init t) = Raise e -> evaluate t = Raise e.
Proof.
  intros H. unfold evaluate, evaluate_with, evaluate_run, Parser_init.
  rewrite H. reflexivity.
Qed.

(** [evaluate] from the first token: one factor, then the loop of [term]. *)
Lemma evaluate_from_token (t : string) (tok : Token) (l : Lexer) :
  get_next_token (Lexer_init t) = Ok (tok, l) ->
  evaluate t
  = ('(v, _) <- ('(r, p1) <- factor (S (3 * String.length t)) (mkParser l tok) ;;
                 term_loop (S (3 * String.length t)) r p1) ;;
     Ok v).
Proof.
  intros H. unfold evaluate, evaluate_with, evaluate_run, Parser_init, parse.
  rewrite H, parse_fuel_S. reflexivity.
Qed.

Lemma all_in_drop_while (cls : ascii -> bool) (w : string) :
  all_in cls w = true -> drop_while cls w = "".
Proof.
  intros H. destruct (take_drop_while_app cls w "" H I) as [_ Hd].
  rewrite append_empty_r in Hd. assumption.
Qed.

Lemma rest_init (t : string) : rest (Lexer_init t) = t.
Proof. reflexivity. Qed.

(** An empty or blank text has no factor: [evaluate] fails with the
    'Invalid factor' exception. *)
Theorem evaluate_blank (t : string) :
  all_in isspace t = true -> evaluate t = Raise InvalidFactor.
Proof.
  intros Hw.
  destruct (get_next_token_skip (Lexer_init t) (in_step_init t))
    as (s0 & _ & H0 & _ & Hr & _ & _ & Eq).
  rewrite rest_init, (all_in_drop_while isspace t Hw) in Hr.
  assert (Hc : current_char s0 = None).
  { rewrite (in_step_head s0 H0), Hr. reflexivity. }
  rewrite (get_next_token_end s0 Hc) in Eq.
  rewrite (evaluate_from_token t _ _ Eq). reflexivity.
Qed.

Lemma evaluate_blank_witness :
  all_in isspace (String " " (String newline " ")) = true
  /\ evaluate (String " " (String newline " ")) = Raise InvalidFactor.
Proof.
  split; [reflexivity | ].
  apply (evaluate_blank (String " " (String newline " "))). reflexivity.
Defined.

(** When the first character after leading spaces is no digit, letter or
    symbol, [evaluate] fails with the 'Unexpected character' exception that
    carries this character and its own line and column in the text. *)
Theorem evaluate_unexpected_character (w u : string) (c : ascii) :
  all_in isspace w = true ->
  isspace c = false -> isdigit c = false -> isalpha c = false ->
  symbol_type c = None ->
  evaluate (w ++ String c u)
  = Raise (UnexpectedCharacter (Some c)
             (fst (line_col (w ++ String c u) (String.length w) 1 1))
             (snd (line_col (w ++ String c u) (String.length w) 1 1))).
Proof.
  intros Hw Hsp Hd Ha Hty. set (t := w ++ String c u).
  pose proof (positioned_init t) as Hpos.
  destruct (get_next_token_skip (Lexer_init t) (in_step_init t))
    as (s0 & E & H0 & Ht & Hr & _ & _ & Eq).
  pose proof (skip_whitespace_positioned _ _ Hpos E) as Hpos0.
  rewrite rest_init in Hr. unfold t in Hr.
  destruct (take_drop_while_app isspace w (String c u) Hw Hsp) as [_ Hdw].
  rewrite Hdw in Hr.
  assert (Hc : current_char s0 = Some c).
  { rewrite (in_step_head s0 H0), Hr. reflexivity. }
  assert (Hp : pos s0 = String.length w).
  { pose proof (pos_rest s0 Hpos0) as Hlen. rewrite Hr, Ht in Hlen.
    simpl in Hlen. unfold t in Hlen. rewrite length_append in Hlen.
    simpl in Hlen. lia. }
  destruct Hpos0 as (_ & _ & Hlc). rewrite Ht in Hlc. simpl in Hlc.
  rewrite Hp in Hlc. fold t. rewrite Hlc. simpl.
  apply evaluate_Raise_init. rewrite Eq.
  apply get_next_token_other; assumption.
Qed.

Lemma evaluate_unexpected_character_witness :
  (all_in isspace (String " " (String newline " ")) = true
   /\ isspace "=" = false /\ isdigit "=" = false /\ isalpha "=" = false
   /\ symbol_type "=" = None)
  /\ evaluate (String " " (String newline " ") ++ String "=" "2")
     = Raise (UnexpectedCharacter (Some "="%char)
                (fst (line_col (String " " (String newline " ") ++ String "=" "2") 3 1 1))
                (snd (line_col (String " " (String newline " ") ++ String "=" "2") 3 1 1))).
Proof.
  split; [repeat split | ].
  apply (evaluate_unexpected_character (String " " (String newline " ")) "2" "=");
    reflexivity.
Defined.

(** ** Numbers and keywords *)

Lemma decimal_or_dot_dot (c : ascii) :
  isdecimal c = false -> decimal_or_dot c = Ascii.eqb c ".".
Proof. unfold decimal_or_dot. intros ->. reflexivity. Qed.

(** After a first digit, [float] accepts exactly decimal digits with at
    most one dot. *)
Lemma scan_literal_accepts (r : string) :
  forall dot m k,
    is_some (scan_literal r dot true m k)
    = all_in decimal_or_dot r
      && (count_dots r + (if dot then 1 else 0) <=? 1)%nat.
Proof.
  induction r as [ | c r IH]; intros dot m k; simpl.
  - destruct dot; reflexivity.
  - destruct (isdecimal c) eqn:Hd.
    + assert (Hdot : Ascii.eqb c "." = false).
      { destruct c as [[] [] [] [] [] [] [] []]; vm_compute in Hd |- *;
          congruence. }
      assert (Hdd : decimal_or_dot c = true).
      { unfold decimal_or_dot. rewrite Hd. reflexivity. }
      rewrite IH, Hdd, Hdot. reflexivity.
    + rewrite (decimal_or_dot_dot c Hd).
      destruct (Ascii.eqb c "."); simpl; [ | reflexivity].
      destruct dot.
      * simpl. rewrite andb_comm.
        replace (count_dots r + 1 <=? 0)%nat with false; [reflexivity | ].
        symmetry. apply Nat.leb_gt. lia.
      * rewrite IH. f_equal.
        destruct (Nat.leb_spec (count_dots r + 1) 1);
          [symmetry; apply Nat.leb_le | symmetry; apply Nat.leb_gt]; lia.
Qed.

Lemma py_float_literal (r : string) :
  literal r = true -> exists f, py_float r = Ok f.
Proof.
  destruct r as [ | c r]; [discriminate | ]. unfold literal, py_float. simpl.
  intros H. apply andb_true_iff in H. destruct H as [H Hdots].
  apply andb_true_iff in H. destruct H as [Hd Hall]. rewrite Hd.
  pose proof (scan_literal_accepts r false (10 * 0 + (Z.of_N (code c) - 48)) 0) as Hs.
  rewrite Hall, Nat.add_0_r, Hdots in Hs. simpl in Hs.
  destruct (scan_literal r false true _ 0) as [[m k] | ]; [ | discriminate].
  eexists. reflexivity.
Qed.

Lemma py_float_not_literal (c : ascii) (r : string) :
  isdigit c = true -> literal (String c r) = false ->
  py_float (String c r) = Raise (ValueError (String c r)).
Proof.
  intros Hdg H. unfold literal in H. unfold py_float. simpl.
  destruct (isdecimal c) eqn:Hd.
  - simpl in H.
    pose proof (scan_literal_accepts r false (10 * 0 + (Z.of_N (code c) - 48)) 0) as Hs.
    rewrite Nat.add_0_r, H in Hs.
    destruct (scan_literal r false true _ 0) as [[m k] | ]; [discriminate | ].
    reflexivity.
  - assert (Hdot : Ascii.eqb c "." = false).
    { destruct c as [[] [] [] [] [] [] [] []]; vm_compute in Hdg |- *;
        congruence. }
    rewrite Hdot. reflexivity.
Qed.

(** On a digit, [get_next_token] returns a [NUMBER] exactly when the run of
    digits and dots is a literal [float] reads: decimal digits with at most
    one dot.  With a second dot, or a digit that is not decimal, the scan
    fails with the host's [ValueError] on the whole run. *)
Theorem get_next_token_number_or_ValueError (s : Lexer) (c : ascii) :
  in_step s -> current_char s = Some c -> isdigit c = true ->
  (literal (take_while number_class (rest s)) = true ->
   exists f s1,
     py_float (take_while number_class (rest s)) = Ok f
     /\ get_next_token s = Ok (mkToken NUMBER (TVfloat f) (line s) (column s), s1)
     /\ rest s1 = drop_while number_class (rest s))
  /\ (literal (take_while number_class (rest s)) = false ->
      get_next_token s = Raise (ValueError (take_while number_class (rest s)))).
Proof.
  intros Hs Hc Hd.
  destruct (get_next_token_number s c Hs Hc Hd)
    as (s1 & _ & _ & Hr & _ & _ & _ & _ & Eq).
  split; intros Hl.
  - destruct (py_float_literal _ Hl) as [f Hf].
    exists f, s1. rewrite Eq, Hf. auto.
  - rewrite Eq.
    destruct (rest_cases s Hs) as [[Hn _] | (d & Hd' & Hrest)]; [congruence | ].
    assert (d = c) by congruence. subst d.
    rewrite Hrest in *. simpl in *.
    destruct (isdigit_only c Hd) as [_ Hnc]. rewrite Hnc in *.
    rewrite (py_float_not_literal c _ Hd Hl). reflexivity.
Qed.

Lemma get_next_token_number_or_ValueError_witness :
  (in_step (Lexer_init "1.2.3*4")
   /\ current_char (Lexer_init "1.2.3*4") = Some "1"%char
   /\ isdigit "1" = true)
  /\ ((literal (take_while number_class (rest (Lexer_init "1.2.3*4"))) = true ->
       exists f s1,
         py_float (take_while number_class (rest (Lexer_init "1.2.3*4"))) = Ok f
         /\ get_next_token (Lexer_init "1.2.3*4")
            = Ok (mkToken NUMBER (TVfloat f) (line (Lexer_init "1.2.3*4"))
                    (column (Lexer_init "1.2.3*4")), s1)
         /\ rest s1 = drop_while number_class (rest (Lexer_init "1.2.3*4")))
      /\ (literal (take_while number_class (rest (Lexer_init "1.2.3*4"))) = false ->
          get_next_token (Lexer_init "1.2.3*4")
          = Raise (ValueError (take_while number_class (rest (Lexer_init "1.2.3*4"))))))
  /\ take_while number_class (rest (Lexer_init "1.2.3*4")) = "1.2.3"
  /\ literal "1.2.3" = false.
Proof.
  split; [repeat split | ].
  split; [ | split; reflexivity].
  apply (get_next_token_number_or_ValueError (Lexer_init "1.2.3*4") "1");
    reflexivity.
Defined.

Lemma literal_number_class (r : string) :
  all_in decimal_or_dot r = true -> all_in number_class r = true.
Proof.
  induction r as [ | c r IH]; simpl; [reflexivity | ].
  intros H. apply andb_true_iff in H. destruct H as [Hc Hr].
  rewrite (IH Hr), andb_true_r.
  unfold decimal_or_dot in Hc. unfold number_class, isdigit.
  destruct (isdecimal c); simpl in *; [reflexivity | ].
  rewrite Hc. apply orb_true_r.
Qed.

Lemma literal_inv (d : string) :
  literal d = true ->
  exists c r, d = String c r /\ isdecimal c = true /\ isdigit c = true
              /\ all_in number_class d = true.
Proof.
  destruct d as [ | c r]; [discriminate | ]. unfold literal. intros H.
  apply andb_true_iff in H. destruct H as [H _].
  apply andb_true_iff in H. destruct H as [Hd Hall].
  exists c, r. repeat split; auto.
  - unfold isdigit. rewrite Hd. reflexivity.
  - simpl. rewrite (literal_number_class r Hall), andb_true_r.
    unfold number_class, isdigit. rewrite Hd. reflexivity.
Qed.

(** A literal that the text under the cursor starts with, followed by
    nothing or by a character that is no digit and no dot, is the next
    token. *)
Lemma get_next_token_literal (s : Lexer) (d u : string) :
  in_step s -> rest s = d ++ u -> literal d = true ->
  starts_outside number_class u ->
  exists f s1,
    py_float d = Ok f
    /\ get_next_token s = Ok (mkToken NUMBER (TVfloat f) (line s) (column s), s1)
    /\ in_step s1 /\ rest s1 = u /\ text s1 = text s.
Proof.
  intros Hs Hr Hl Hu.
  destruct (literal_inv d Hl) as (c & r & -> & Hdec & Hdg & Hall).
  assert (Hc : current_char s = Some c).
  { rewrite (in_step_head s Hs), Hr. reflexivity. }
  destruct (take_drop_while_app number_class _ u Hall Hu) as [Htk Hdr].
  destruct (get_next_token_number s c Hs Hc Hdg)
    as (s1 & H1 & Ht & Hr1 & _ & _ & _ & _ & Eq).
  rewrite Hr, Htk in Eq. rewrite Hr, Hdr in Hr1.
  destruct (py_float_literal _ Hl) as [f Hf].
  exists f, s1. rewrite Eq, Hf. auto.
Qed.

(** A decimal literal evaluates to the float that [float] reads in it. *)
Theorem evaluate_literal (d : string) :
  literal d = true ->
  exists f, py_float d = Ok f /\ evaluate d = Ok (VFloat f).
Proof.
  intros Hl.
  destruct (get_next_token_literal (Lexer_init d) d "" (in_step_init d))
    as (f & s1 & Hf & Eq & H1 & Hr1 & _); auto.
  { rewrite rest_init, append_empty_r. reflexivity. }
  { exact I. }
  exists f. split; [assumption | ].
  rewrite (evaluate_from_token d _ _ Eq).
  assert (Hc : current_char s1 = None).
  { rewrite (in_step_head s1 H1), Hr1. reflexivity. }
  simpl. unfold eat. simpl. rewrite (get_next_token_end s1 Hc). reflexivity.
Qed.

Lemma evaluate_literal_witness :
  literal "3.25" = true
  /\ exists f, py_float "3.25" = Ok f /\ evaluate "3.25" = Ok (VFloat f).
Proof.
  split; [reflexivity | ]. apply (evaluate_literal "3.25"). reflexivity.
Defined.

(** ** A text and the same text with more behind it *)

Lemma take_drop_while_ext (cls : ascii -> bool) (r a : string) :
  starts_outside cls a ->
  take_while cls (r ++ a) = take_while cls r
  /\ drop_while cls (r ++ a) = drop_while cls r ++ a.
Proof.
  intros Ha. induction r as [ | d r [IHt IHd]]; simpl.
  - destruct a as [ | c a]; simpl in *; [auto | ]. rewrite Ha. auto.
  - destruct (cls d); [rewrite IHt, IHd | ]; auto.
Qed.

Lemma sep_type_outside (a : string) (ty : TokenType) :
  sep_type a = Some ty ->
  starts_outside isspace a /\ starts_outside number_class a
  /\ starts_outside isalnum a.
Proof.
  destruct a as [ | c u]; simpl; [auto | ]. intros H.
  destruct (symbol_type_class c ty H) as (Hsp & Hd & Han & _ & _ & Hdot).
  unfold number_class. rewrite Hd, Hdot. auto.
Qed.

Section Follows.

Variable a : string.
Variable ty : TokenType.
Hypothesis Hsep : sep_type a = Some ty.

(** The lexer on a text and on the text followed by [a]: the same token, or
    at the end of the text the first token of [a]. *)
Lemma get_next_token_follows (s s' s1 : Lexer) (t : Token) :
  in_step s -> in_step s' -> rest s' = rest s ++ a ->
  get_next_token s = Ok (t, s1) ->
  exists t' s1',
    get_next_token s' = Ok (t', s1')
    /\ follows a (mkParser s1 t) (mkParser s1' t').
Proof.
  intros Hs Hs' Hr H.
  destruct (sep_type_outside a ty Hsep) as (Osp & Onum & Oaln).
  destruct (get_next_token_skip s Hs) as (s0 & _ & H0 & _ & Hr0 & _ & Hstop & Eq).
  destruct (get_next_token_skip s' Hs') as (s0' & _ & H0' & _ & Hr0' & _ & _ & Eq').
  rewrite Eq in H. rewrite Eq'. clear Eq Eq'.
  rewrite Hr in Hr0'.
  destruct (take_drop_while_ext isspace (rest s) a Osp) as [_ Hd].
  rewrite Hd, <- Hr0 in Hr0'. clear Hd Hr0 Hr Hs Hs' s s'.
  destruct (rest_cases s0 H0) as [[Hc Hrest] | (c & Hc & Hrest)].
  - rewrite (get_next_token_end s0 Hc) in H. inversion H; subst t s1. clear H.
    rewrite Hrest in Hr0'. simpl in Hr0'.
    destruct a as [ | d u] eqn:Ea; simpl in Hsep.
    + assert (Hc' : current_char s0' = None).
      { rewrite (in_step_head s0' H0'), Hr0'. reflexivity. }
      rewrite (get_next_token_end s0' Hc'). eexists; eexists.
      split; [reflexivity | ]. unfold follows; simpl.
      split; [assumption | ]. split; [assumption | ]. right. auto.
    + assert (Hc' : current_char s0' = Some d).
      { rewrite (in_step_head s0' H0'), Hr0'. reflexivity. }
      rewrite (get_next_token_symbol s0' d ty Hc' Hsep). eexists; eexists.
      split; [reflexivity | ]. unfold follows; simpl.
      split; [assumption | ]. split; [apply in_step_advance | ]. right.
      rewrite rest_advance, Hr0'. auto.
  - assert (Hc' : current_char s0' = Some c).
    { rewrite (in_step_head s0' H0'), Hr0', Hrest. reflexivity. }
    unfold stops_at in Hstop. rewrite Hc in Hstop.
    destruct (char_cases c) as [Hsp | [Hd | [Ha | [[ty1 Hty] | (_ & Hd & Ha & Hty)]]]].
    + congruence.
    + destruct (get_next_token_number s0 c H0 Hc Hd)
        as (s2 & H2 & _ & Hr2 & _ & _ & _ & _ & Eq2).
      destruct (get_next_token_number s0' c H0' Hc' Hd)
        as (s2' & H2' & _ & Hr2' & _ & _ & _ & _ & Eq2').
      rewrite Eq2 in H. rewrite Eq2'. rewrite Hr0' in *.
      destruct (take_drop_while_ext number_class (rest s0) a Onum) as [Htk Hdr].
      rewrite Htk. rewrite Hdr, <- Hr2 in Hr2'.
      destruct (py_float _) as [f | e | ]; simpl in H; inversion H; subst t s2.
      simpl. eexists; eexists. split; [reflexivity | ]. unfold follows; simpl.
      split; [assumption | ]. split; [assumption | ]. left.
      split; [discriminate | ]. split; [split; reflexivity | assumption].
    + destruct (get_next_token_word s0 c H0 Hc Ha)
        as (s2 & H2 & _ & Hr2 & _ & _ & _ & _ & Eq2).
      destruct (get_next_token_word s0' c H0' Hc' Ha)
        as (s2' & H2' & _ & Hr2' & _ & _ & _ & _ & Eq2').
      rewrite Eq2 in H. rewrite Eq2'. rewrite Hr0' in *.
      destruct (take_drop_while_ext isalnum (rest s0) a Oaln) as [Htk Hdr].
      rewrite Htk. rewrite Hdr, <- Hr2 in Hr2'.
      destruct (keywords_get _) as [[key t1] | ] eqn:Hk; inversion H; subst t s2.
      apply keywords_get_type in Hk.
      eexists; eexists. split; [reflexivity | ]. unfold follows; simpl.
      split; [assumption | ]. split; [assumption | ]. left.
      split; [tauto | ]. split; [split; reflexivity | assumption].
    + rewrite (get_next_token_symbol s0 c ty1 Hc Hty) in H.
      rewrite (get_next_token_symbol s0' c ty1 Hc' Hty).
      inversion H; subst t s1. apply symbol_type_kind in Hty.
      eexists; eexists. split; [reflexivity | ]. unfold follows; simpl.
      split; [apply in_step_advance | ]. split; [apply in_step_advance | ].
      left. split; [tauto | ]. split; [split; reflexivity | ].
      rewrite !rest_advance, Hr0', Hrest. reflexivity.
    + rewrite (get_next_token_other s0 c Hc Hstop Hd Ha Hty) in H. discriminate.
Qed.

Lemma eat_follows (x : TokenType) (p p' p1 : Parser) :
  follows a p p' -> eat x p = Ok p1 -> x <> EOF ->
  exists p1', eat x p' = Ok p1' /\ follows a p1 p1'.
Proof.
  intros (Hi & Hi' & Hf) H Hx. unfold eat in *.
  destruct (TokenType_eqb (ttype (current_token p)) x) eqn:E; [ | discriminate].
  apply TokenType_eqb_eq in E.
  destruct Hf as [(_ & [Hty _] & Hr) | (Heof & _)]; [ | congruence].
  rewrite Hty, E.
  replace (TokenType_eqb x x) with true by (symmetry; apply TokenType_eqb_eq; reflexivity).
  destruct (get_next_token (lexer p)) as [[t l1] | e | ] eqn:G; simpl in H;
    inversion H; subst p1.
  destruct (get_next_token_follows _ _ _ _ Hi Hi' Hr G) as (t' & l1' & G' & F).
  rewrite G'. simpl. eexists. split; [reflexivity | exact F].
Qed.

End Follows.

Section FollowsGrammar.

Variable a : string.
Variable ty : TokenType.
Hypothesis Hsep : sep_type a = Some ty.

Lemma follows_type (p p' : Parser) :
  follows a p p' -> ttype (current_token p) <> EOF ->
  ttype (current_token p') = ttype (current_token p)
  /\ number_value (current_token p') = number_value (current_token p).
Proof.
  intros (_ & _ & [(_ & [Hty Hv] & _) | (Heof & _)]) Hne; [ | congruence].
  split; [assumption | ]. unfold number_value. rewrite Hv. reflexivity.
Qed.

(** What a rule returns on a text it returns on the text followed by [a],
    once it has not stopped at the very end of the text in front of an
    operator of [term]. *)
Lemma grammar_follows :
  forall n,
    (forall p p' v q,
        follows a p p' -> factor n p = Ok (v, q) ->
        exists q', factor n p' = Ok (v, q') /\ follows a q q')
    /\ (forall r p p' v q,
           follows a p p' -> term_loop n r p = Ok (v, q) ->
           ttype (current_token q) <> EOF \/ type_in ty term_operators = false ->
           exists q', term_loop n r p' = Ok (v, q') /\ follows a q q')
    /\ (forall p p' v q,
           follows a p p' -> term n p = Ok (v, q) ->
           ttype (current_token q) <> EOF \/ type_in ty term_operators = false ->
           exists q', term n p' = Ok (v, q') /\ follows a q q')
    /\ (forall p p' v q,
           follows a p p' -> expression n p = Ok (v, q) ->
           ttype (current_token q) <> EOF \/ type_in ty term_operators = false ->
           exists q', expression n p' = Ok (v, q') /\ follows a q q').
Proof.
  induction n as [ | n (IHf & IHl & IHt & IHe)].
  - split; [intros; discriminate | ].
    split; [ | split; intros; discriminate].
    intros r p p' v q F H Hq. simpl in H |- *.
    pose proof F as (Hi & Hi' & [(Hne & [Hty Hv] & Hr) | (Heof & Hs & Hr)]).
    + rewrite Hty.
      destruct (ttype (current_token p)) eqn:Et; simpl in H |- *;
        try discriminate;
        (inversion H; subst; exists p'; split; [reflexivity | assumption]).
    + rewrite Heof in H. simpl in H. inversion H; subst v q.
      rewrite Hsep in Hs. inversion Hs as [Hty]. rewrite <- Hty.
      destruct Hq as [Hq | Hq]; [congruence | ].
      change (type_in ty term_operators) with
        (TokenType_eqb ty MULTIPLY || (TokenType_eqb ty DIVIDE
           || (TokenType_eqb ty MODULO || false))) in Hq.
      rewrite Hq. exists p'. split; [reflexivity | assumption].
  - split; [ | split; [ | split]].
    + intros p p' v q F H. simpl in H |- *.
      assert (Hne : ttype (current_token p) <> EOF).
      { intros E. rewrite E in H. discriminate. }
      destruct (follows_type p p' F Hne) as [Hty Hnum]. rewrite Hty.
      destruct (ttype (current_token p)); try discriminate.
      * invert_bind H. invert_bind H. inversion H; subst.
        destruct (eat_follows a ty Hsep _ _ _ _ F Hstep) as (p1' & E1 & F1);
          [discriminate | ].
        rewrite E1. simpl.
        destruct (IHf _ _ _ _ F1 Hstep0) as (q' & E2 & F2).
        rewrite E2. simpl. eauto.
      * invert_bind H. invert_bind H. inversion H; subst.
        destruct (eat_follows a ty Hsep _ _ _ _ F Hstep) as (p1' & E1 & F1);
          [discriminate | ].
        rewrite E1. simpl.
        destruct (IHf _ _ _ _ F1 Hstep0) as (q' & E2 & F2).
        rewrite E2. simpl. eauto.
      * invert_bind H. inversion H; subst.
        destruct (eat_follows a ty Hsep _ _ _ _ F Hstep) as (p1' & E1 & F1);
          [discriminate | ].
        rewrite E1. simpl. rewrite Hnum. eauto.
      * invert_bind H. invert_bind H. invert_bind H. inversion H; subst.
        destruct (eat_follows a ty Hsep _ _ _ _ F Hstep) as (p1' & E1 & F1);
          [discriminate | ].
        rewrite E1. simpl.
        assert (Hrp : ttype (current_token p0) <> EOF).
        { unfold eat in Hstep1.
          destruct (TokenType_eqb (ttype (current_token p0)) RPAREN) eqn:E;
            [ | discriminate].
          apply TokenType_eqb_eq in E. rewrite E. discriminate. }
        destruct (IHe _ _ _ _ F1 Hstep0 (or_introl Hrp)) as (p2' & E2 & F2).
        rewrite E2. simpl.
        destruct (eat_follows a ty Hsep _ _ _ _ F2 Hstep1) as (p3' & E3 & F3);
          [discriminate | ].
        rewrite E3. simpl. eauto.
    + intros r p p' v q F H Hq. simpl in H |- *.
      pose proof F as (Hi & Hi' & [(Hne & [Hty Hv] & Hr) | (Heof & Hs & Hr)]).
      * rewrite Hty.
        destruct (ttype (current_token p)) eqn:Et; simpl in H |- *;
          try (inversion H; subst; exists p'; split; [reflexivity | assumption]).
        -- invert_bind H. invert_bind H. invert_bind H.
           destruct (eat_follows a ty Hsep _ _ _ _ F Hstep) as (p1' & E1 & F1);
             [discriminate | ].
           rewrite E1. simpl.
           destruct (IHf _ _ _ _ F1 Hstep0) as (q' & E2 & F2).
           rewrite E2. simpl. rewrite Hstep1. simpl.
           apply (IHl _ _ _ _ _ F2 H Hq).
        -- invert_bind H. invert_bind H.
           destruct (eat_follows a ty Hsep _ _ _ _ F Hstep) as (p1' & E1 & F1);
             [discriminate | ].
           rewrite E1. simpl.
           destruct (IHf _ _ _ _ F1 Hstep0) as (q' & E2 & F2).
           rewrite E2. simpl.
           destruct (py_eq_zero v0); [discriminate | ].
           invert_bind H. rewrite Hstep1. simpl.
           apply (IHl _ _ _ _ _ F2 H Hq).
        -- invert_bind H. invert_bind H. invert_bind H.
           destruct (eat_follows a ty Hsep _ _ _ _ F Hstep) as (p1' & E1 & F1);
             [discriminate | ].
           rewrite E1. simpl.
           destruct (IHf _ _ _ _ F1 Hstep0) as (q' & E2 & F2).
           rewrite E2. simpl. rewrite Hstep1. simpl.
           apply (IHl _ _ _ _ _ F2 H Hq).
      * rewrite Heof in H. simpl in H. inversion H; subst v q.
        rewrite Hsep in Hs. inversion Hs as [Hty]. rewrite <- Hty.
        destruct Hq as [Hq | Hq]; [congruence | ].
        change (type_in ty term_operators) with
          (TokenType_eqb ty MULTIPLY || (TokenType_eqb ty DIVIDE
             || (TokenType_eqb ty MODULO || false))) in Hq.
        rewrite Hq. exists p'. split; [reflexivity | assumption].
    + intros p p' v q F H Hq. simpl in H |- *. invert_bind H.
      destruct (IHf _ _ _ _ F Hstep) as (p1' & E1 & F1).
      rewrite E1. simpl. apply (IHl _ _ _ _ _ F1 H Hq).
    + intros p p' v q F H Hq. simpl in H |- *. apply (IHt _ _ _ _ F H Hq).
Qed.

End FollowsGrammar.

(** ** Texts put together *)

(** A result does not depend on the fuel, from the bound of [grammar_fuel]
    on. *)
Lemma factor_fuel_free (n m : nat) (p : Parser) (r : value * Parser) :
  factor n p = Ok r -> (3 * pending p + 1 <= m)%nat -> factor m p = Ok r.
Proof.
  intros H Hm. set (k := (3 * pending p + 1)%nat) in *.
  pose proof (proj1 (grammar_fuel k) p (Nat.le_refl _)) as Hk.
  assert (Ek : factor k p = Ok r).
  { destruct (Nat.le_ge_cases n k) as [Hle | Hge].
    - rewrite (proj1 (grammar_mono n) p k Hle); [assumption | congruence].
    - rewrite <- (proj1 (grammar_mono k) p n Hge Hk). assumption. }
  rewrite (proj1 (grammar_mono k) p m Hm Hk). assumption.
Qed.

Lemma expression_fuel_free (n m : nat) (p : Parser) (r : value * Parser) :
  expression n p = Ok r -> (3 * pending p + 3 <= m)%nat -> expression m p = Ok r.
Proof.
  intros H Hm. set (k := (3 * pending p + 3)%nat) in *.
  pose proof (proj2 (proj2 (proj2 (grammar_fuel k))) p (Nat.le_refl _)) as Hk.
  assert (Ek : expression k p = Ok r).
  { destruct (Nat.le_ge_cases n k) as [Hle | Hge].
    - rewrite (proj2 (proj2 (proj2 (grammar_mono n))) p k Hle);
        [assumption | congruence].
    - rewrite <- (proj2 (proj2 (proj2 (grammar_mono k))) p n Hge Hk). assumption. }
  rewrite (proj2 (proj2 (proj2 (grammar_mono k))) p m Hm Hk). assumption.
Qed.

Lemma init_pending (t : string) (tok : Token) (l : Lexer) :
  get_next_token (Lexer_init t) = Ok (tok, l) ->
  (pending (mkParser l tok) <= String.length t)%nat.
Proof.
  intros H. rewrite <- remaining_init. apply Parser_init_pending.
  unfold Parser_init. rewrite H. reflexivity.
Qed.

(** The run of [evaluate], taken apart. *)
Lemma evaluate_Ok_inv (t : string) (v : value) :
  evaluate t = Ok v ->
  exists tok l q,
    get_next_token (Lexer_init t) = Ok (tok, l)
    /\ expression (parse_fuel t) (mkParser l tok) = Ok (v, q).
Proof.
  unfold evaluate, evaluate_with, evaluate_run, Parser_init, parse. intros H.
  invert_bind H. inversion H; subst. invert_bind Hstep. invert_bind Hstep0.
  inversion Hstep0; subst. eauto.
Qed.

Lemma evaluate_Ok_intro (t : string) (v : value) (tok : Token) (l : Lexer)
      (q : Parser) (n : nat) :
  get_next_token (Lexer_init t) = Ok (tok, l) ->
  expression n (mkParser l tok) = Ok (v, q) ->
  evaluate t = Ok v.
Proof.
  intros G E. unfold evaluate, evaluate_with, evaluate_run, Parser_init, parse.
  rewrite G. simpl.
  rewrite (expression_fuel_free n (parse_fuel t) _ _ E); [reflexivity | ].
  pose proof (init_pending t tok l G). unfold parse_fuel. lia.
Qed.

(** What [evaluate] returns for a text it returns for the
    text followed by one of the symbols [+ - ^ ( ) < >] and anything at
    all: from the first token the grammar does not use, the input is
    ignored. *)
Theorem evaluate_ignores_what_follows
  (t u : string) (c : ascii) (ty : TokenType) (v : value) :
  symbol_type c = Some ty ->
  type_in ty term_operators = false ->
  evaluate t = Ok v ->
  evaluate (t ++ String c u) = Ok v.
Proof.
  intros Hty Hop H.
  destruct (evaluate_Ok_inv t v H) as (tok & l & q & G & E).
  assert (Hsep : sep_type (String c u) = Some ty) by exact Hty.
  destruct (get_next_token_follows (String c u) ty Hsep
              (Lexer_init t) (Lexer_init (t ++ String c u)) l tok
              (in_step_init _) (in_step_init _) eq_refl G)
    as (tok' & l' & G' & F).
  destruct (proj2 (proj2 (proj2 (grammar_follows (String c u) ty Hsep (parse_fuel t))))
              _ _ _ _ F E (or_intror Hop)) as (q' & E' & _).
  apply (evaluate_Ok_intro _ v tok' l' q' (parse_fuel t) G' E').
Qed.

Lemma evaluate_ignores_what_follows_witness :
  (symbol_type "+" = Some PLUS
   /\ type_in PLUS term_operators = false
   /\ evaluate "2*3" = Ok (VFloat (S754_finite false 6755399441055744 (-50))))
  /\ evaluate ("2*3" ++ String "+" "4 and so on")
     = Ok (VFloat (S754_finite false 6755399441055744 (-50))).
Proof.
  split; [repeat split; vm_compute; reflexivity | ].
  apply (evaluate_ignores_what_follows "2*3" "4 and so on" "+" PLUS);
    vm_compute; reflexivity.
Defined.

Lemma follows_at_end (a : string) (ty : TokenType) (q q' : Parser) :
  sep_type a = Some ty -> follows a q q' ->
  ttype (current_token q) = EOF ->
  ttype (current_token q') = ty /\ in_step (lexer q')
  /\ rest (lexer q') = tail a.
Proof.
  intros Hsep (_ & Hi & [(Hne & _) | (_ & Hs & Hr)]) Heof; [congruence | ].
  rewrite Hsep in Hs. inversion Hs. auto.
Qed.

Lemma eat_at_end (x : TokenType) (p : Parser) :
  ttype (current_token p) = x -> in_step (lexer p) -> rest (lexer p) = "" ->
  eat x p
  = Ok (mkParser (lexer p)
          (mkToken EOF TVNone (line (lexer p)) (column (lexer p)))).
Proof.
  intros Hx Hi Hr. unfold eat. rewrite Hx.
  replace (TokenType_eqb x x) with true
    by (symmetry; apply TokenType_eqb_eq; reflexivity).
  assert (Hc : current_char (lexer p) = None).
  { rewrite (in_step_head _ Hi), Hr. reflexivity. }
  rewrite (get_next_token_end _ Hc). reflexivity.
Qed.

(** Parentheses around a whole text do not change its value: when
    [evaluate] reads [t] to its end, ["(" ++ t ++ ")"] has the same
    value. *)
Theorem evaluate_parenthesized (t : string) (v : value) (q : Parser) :
  evaluate_run (parse_fuel t) t = Ok (v, q) ->
  ttype (current_token q) = EOF ->
  evaluate ("(" ++ t ++ ")") = Ok v /\ whole_factor ("(" ++ t ++ ")") v.
Proof.
  intros H Heof.
  unfold evaluate_run, Parser_init, parse in H. invert_bind H.
  invert_bind Hstep. inversion Hstep; subst a. clear Hstep.
  rename Hstep0 into G, H into E, t0 into tok.
  set (T := "(" ++ t ++ ")").
  assert (Hsep : sep_type ")" = Some RPAREN) by reflexivity.
  assert (GT : get_next_token (Lexer_init T)
               = Ok (mkToken LPAREN (TVstr "(") 1 1, advance (Lexer_init T))).
  { apply (get_next_token_symbol (Lexer_init T) "(" LPAREN); reflexivity. }
  destruct (get_next_token_follows ")" RPAREN Hsep
              (Lexer_init t) (advance (Lexer_init T)) l tok
              (in_step_init _) (in_step_advance _) eq_refl G)
    as (tok' & l' & G' & F).
  destruct (proj2 (proj2 (proj2 (grammar_follows ")" RPAREN Hsep (parse_fuel t))))
              _ _ _ _ F E (or_intror eq_refl)) as (q' & E' & F').
  destruct (follows_at_end ")" RPAREN q q' Hsep F' Heof) as (Hty & Hi & Hr).
  assert (Hlen : String.length T = S (S (String.length t))).
  { unfold T. simpl. rewrite length_append. simpl. lia. }
  assert (E2 : expression (3 * String.length T) (mkParser l' tok') = Ok (v, q')).
  { apply (expression_fuel_free _ _ _ _ E').
    pose proof (Parser_init_pending (advance (Lexer_init T)) (mkParser l' tok')) as Hp.
    unfold Parser_init in Hp. rewrite G' in Hp. specialize (Hp eq_refl).
    pose proof (remaining_rest _ (in_step_advance (Lexer_init T))) as Hrem.
    rewrite rest_advance, rest_init in Hrem. unfold T in Hrem. simpl in Hrem.
    rewrite length_append in Hrem. simpl in Hrem.
    change (String "(" (t ++ ")")) with T in Hrem. lia. }
  rewrite (evaluate_from_token T _ _ GT).
  clearbody T. remember (3 * String.length T)%nat as N eqn:HN. clear HN.
  cut (factor (S N)
         (mkParser (advance (Lexer_init T)) (mkToken LPAREN (TVstr "(") 1 1))
       = Ok (v, mkParser (lexer q')
                  (mkToken EOF TVNone (line (lexer q')) (column (lexer q'))))).
  { intros EF. split; [rewrite EF; reflexivity | ].
    exists (S N). eexists. eexists. unfold Parser_init. rewrite GT.
    split; [reflexivity | ]. split; [exact EF | reflexivity]. }
  assert (EF : factor (S N)
                 (mkParser (advance (Lexer_init T)) (mkToken LPAREN (TVstr "(") 1 1))
               = Ok (v, mkParser (lexer q')
                          (mkToken EOF TVNone (line (lexer q')) (column (lexer q'))))).
  { simpl factor. unfold eat at 1. simpl ttype. simpl TokenType_eqb.
    cbn [lexer]. rewrite G'. simpl bind. rewrite E2. simpl bind.
    rewrite (eat_at_end RPAREN q' Hty Hi Hr). reflexivity. }
  exact EF.
Qed.

Lemma evaluate_parenthesized_witness :
  (evaluate_run (parse_fuel "2*3") "2*3"
   = Ok (VFloat (S754_finite false 6755399441055744 (-50)),
         sample "2*3" 3 4 (eof_at 4))
   /\ ttype (current_token (sample "2*3" 3 4 (eof_at 4))) = EOF)
  /\ (evaluate ("(" ++ "2*3" ++ ")")
      = Ok (VFloat (S754_finite false 6755399441055744 (-50)))
      /\ whole_factor ("(" ++ "2*3" ++ ")")
           (VFloat (S754_finite false 6755399441055744 (-50)))).
Proof.
  split; [split; vm_compute; reflexivity | ].
  apply (evaluate_parenthesized "2*3" _ (sample "2*3" 3 4 (eof_at 4)));
    vm_compute; reflexivity.
Defined.

Lemma drop_while_spaces (w t : string) :
  all_in isspace w = true ->
  drop_while isspace (w ++ t) = drop_while isspace t.
Proof.
  induction w as [ | c w IH]; simpl; [reflexivity | ].
  intros H. apply andb_true_iff in H. destruct H as [Hc Hw].
  rewrite Hc. apply IH. assumption.
Qed.

(** Two texts that differ in their leading spaces only have the same
    value. *)
Lemma evaluate_same_after_spaces (t1 t2 : string) (v : value) :
  drop_while isspace t1 = drop_while isspace t2 ->
  evaluate t1 = Ok v -> evaluate t2 = Ok v.
Proof.
  intros Hd H.
  destruct (evaluate_Ok_inv t1 v H) as (tok & l & q & G & E).
  destruct (get_next_token_skip (Lexer_init t1) (in_step_init _))
    as (s1 & _ & H1 & _ & Hr1 & _ & _ & Eq1).
  destruct (get_next_token_skip (Lexer_init t2) (in_step_init _))
    as (s2 & _ & H2 & _ & Hr2 & _ & _ & Eq2).
  rewrite rest_init in Hr1, Hr2. rewrite Eq1 in G.
  assert (Hsep : sep_type "" = Some EOF) by reflexivity.
  assert (Hr : rest s2 = rest s1 ++ "").
  { rewrite append_empty_r. congruence. }
  destruct (get_next_token_follows "" EOF Hsep s1 s2 l tok H1 H2 Hr G)
    as (tok' & l' & G' & F).
  destruct (proj2 (proj2 (proj2 (grammar_follows "" EOF Hsep (parse_fuel t1))))
              _ _ _ _ F E (or_intror eq_refl)) as (q' & E' & _).
  rewrite <- Eq2 in G'.
  apply (evaluate_Ok_intro _ v tok' l' q' (parse_fuel t1) G' E').
Qed.

(** Leading whitespace does not change the value. *)
Theorem evaluate_leading_spaces (w t : string) (v : value) :
  all_in isspace w = true ->
  (evaluate (w ++ t) = Ok v <-> evaluate t = Ok v).
Proof.
  intros Hw. pose proof (drop_while_spaces w t Hw) as Hd.
  split; apply evaluate_same_after_spaces; congruence.
Qed.

Lemma evaluate_leading_spaces_witness :
  all_in isspace (String " " (String newline " ")) = true
  /\ (evaluate (String " " (String newline " ") ++ "10/4")
      = Ok (VFloat (S754_finite false 5629499534213120 (-51)))
      <-> evaluate "10/4" = Ok (VFloat (S754_finite false 5629499534213120 (-51)))).
Proof.
  split; [reflexivity | ].
  apply (evaluate_leading_spaces (String " " (String newline " ")) "10/4").
  reflexivity.
Defined.

(** ** Two factors and an operator *)

Lemma whole_factor_inv (t : string) (v : value) :
  whole_factor t v ->
  exists tok l q,
    get_next_token (Lexer_init t) = Ok (tok, l)
    /\ (forall m, (3 * String.length t + 1 <= m)%nat ->
                  factor m (mkParser l tok) = Ok (v, q))
    /\ ttype (current_token q) = EOF.
Proof.
  intros (n & p0 & q & Hi & Hf & He). unfold Parser_init in Hi.
  invert_bind Hi. inversion Hi; subst p0. rename t0 into tok.
  exists tok, l, q. split; [assumption | ]. split; [ | assumption].
  intros m Hm. apply (factor_fuel_free n m _ _ Hf).
  pose proof (init_pending t tok l Hstep). lia.
Qed.

(** The part two factors around an operator have in common: in
    [a ++ String c b], with [c] one of the symbols, the first factor is read
    as in [a] and leaves the token of [c]; after it the second factor is
    read as in [b], to the end. *)
Lemma two_factors (a b : string) (c : ascii) (op : TokenType) (va vb : value) :
  whole_factor a va -> whole_factor b vb -> symbol_type c = Some op ->
  exists tok l q p1 p2,
    get_next_token (Lexer_init (a ++ String c b)) = Ok (tok, l)
    /\ factor (S (3 * String.length (a ++ String c b))) (mkParser l tok) = Ok (va, q)
    /\ ttype (current_token q) = op
    /\ eat op q = Ok p1
    /\ factor (3 * String.length (a ++ String c b)) p1 = Ok (vb, p2)
    /\ ttype (current_token p2) = EOF.
Proof.
  intros Ha Hb Hop. set (T := a ++ String c b).
  assert (HT : String.length T = (String.length a + S (String.length b))%nat).
  { unfold T. rewrite length_append. reflexivity. }
  destruct (whole_factor_inv a va Ha) as (tok & l & q & G & F & He).
  destruct (whole_factor_inv b vb Hb) as (tokb & lb & qb & Gb & Fb & Heb).
  assert (Hsep : sep_type (String c b) = Some op) by exact Hop.
  destruct (get_next_token_follows (String c b) op Hsep
              (Lexer_init a) (Lexer_init T) l tok
              (in_step_init _) (in_step_init _) eq_refl G)
    as (tok' & l' & G' & Fo).
  destruct (proj1 (grammar_follows (String c b) op Hsep (S (3 * String.length T)))
              _ _ _ _ Fo (F (S (3 * String.length T)) ltac:(lia))) as (q' & E' & Fq).
  destruct (follows_at_end _ op q q' Hsep Fq He) as (Hty & Hi & Hr).
  simpl tail in Hr.
  assert (Hsep0 : sep_type "" = Some EOF) by reflexivity.
  assert (Hr0 : rest (lexer q') = rest (Lexer_init b) ++ "").
  { rewrite append_empty_r, rest_init. assumption. }
  destruct (get_next_token_follows "" EOF Hsep0
              (Lexer_init b) (lexer q') lb tokb (in_step_init _) Hi Hr0 Gb)
    as (tokb' & lb' & Gb' & Fb0).
  destruct (proj1 (grammar_follows "" EOF Hsep0 (3 * String.length T))
              _ _ _ _ Fb0 (Fb (3 * String.length T)%nat ltac:(lia))) as (p2 & E2 & Fp2).
  destruct (follows_at_end _ EOF qb p2 Hsep0 Fp2 Heb) as (Hty2 & _ & _).
  exists tok', l', q', (mkParser lb' tokb'), p2.
  repeat split; auto.
  unfold eat. rewrite Hty.
  replace (TokenType_eqb op op) with true
    by (symmetry; apply TokenType_eqb_eq; reflexivity).
  rewrite Gb'. reflexivity.
Qed.

(** The value of [a*b], [a/b] and [a%b] for two whole factors: the
    product; the quotient, unless [b] is zero, which is the parser's own
    division-by-zero exception; and the host's remainder, with its own
    error for a zero [b]. *)
Theorem evaluate_two_factors (a b : string) (va vb : value) :
  whole_factor a va -> whole_factor b vb ->
  evaluate (a ++ String "*" b) = (r <- py_mul va vb ;; Ok r)
  /\ evaluate (a ++ String "/" b)
     = (if py_eq_zero vb then Raise DivisionByZero
        else r <- py_truediv va vb ;; Ok r)
  /\ evaluate (a ++ String "%" b) = (r <- py_mod va vb ;; Ok r).
Proof.
  intros Ha Hb. split; [ | split].
  - destruct (two_factors a b "*" MULTIPLY va vb Ha Hb eq_refl)
      as (tok & l & q & p1 & p2 & G & F1 & Hty & He & F2 & Hend).
    rewrite (evaluate_from_token _ _ _ G).
    remember (3 * String.length (a ++ String "*" b))%nat as N eqn:HN. clear HN.
    rewrite F1. simpl bind. simpl term_loop. rewrite Hty. simpl.
    rewrite He. simpl. rewrite F2. simpl.
    destruct (py_mul va vb) as [r | e | ]; simpl; try reflexivity.
    rewrite term_loop_stops; [reflexivity | rewrite Hend; reflexivity].
  - destruct (two_factors a b "/" DIVIDE va vb Ha Hb eq_refl)
      as (tok & l & q & p1 & p2 & G & F1 & Hty & He & F2 & Hend).
    rewrite (evaluate_from_token _ _ _ G).
    remember (3 * String.length (a ++ String "/" b))%nat as N eqn:HN. clear HN.
    rewrite F1. simpl bind. simpl term_loop. rewrite Hty. simpl.
    rewrite He. simpl. rewrite F2. simpl.
    destruct (py_eq_zero vb); [reflexivity | ].
    destruct (py_truediv va vb) as [r | e | ]; simpl; try reflexivity.
    rewrite term_loop_stops; [reflexivity | rewrite Hend; reflexivity].
  - destruct (two_factors a b "%" MODULO va vb Ha Hb eq_refl)
      as (tok & l & q & p1 & p2 & G & F1 & Hty & He & F2 & Hend).
    rewrite (evaluate_from_token _ _ _ G).
    remember (3 * String.length (a ++ String "%" b))%nat as N eqn:HN. clear HN.
    rewrite F1. simpl bind. simpl term_loop. rewrite Hty. simpl.
    rewrite He. simpl. rewrite F2. simpl.
    destruct (py_mod va vb) as [r | e | ]; simpl; try reflexivity.
    rewrite term_loop_stops; [reflexivity | rewrite Hend; reflexivity].
Qed.

Lemma evaluate_two_factors_witness :
  (whole_factor "7" (VFloat (S754_finite false 7881299347898368 (-50)))
   /\ whole_factor "-2" (VFloat (S754_finite true 4503599627370496 (-51))))
  /\ (evaluate ("7" ++ String "*" "-2")
      = (r <- py_mul (VFloat (S754_finite false 7881299347898368 (-50)))
                     (VFloat (S754_finite true 4503599627370496 (-51))) ;; Ok r)
      /\ evaluate ("7" ++ String "/" "-2")
         = (if py_eq_zero (VFloat (S754_finite true 4503599627370496 (-51)))
            then Raise DivisionByZero
            else r <- py_truediv (VFloat (S754_finite false 7881299347898368 (-50)))
                                 (VFloat (S754_finite true 4503599627370496 (-51))) ;;
                 Ok r)
      /\ evaluate ("7" ++ String "%" "-2")
         = (r <- py_mod (VFloat (S754_finite false 7881299347898368 (-50)))
                        (VFloat (S754_finite true 4503599627370496 (-51))) ;; Ok r)).
Proof.
  assert (H7 : whole_factor "7" (VFloat (S754_finite false 7881299347898368 (-50)))).
  { exists 1%nat. eexists. eexists.
    split; [vm_compute; reflexivity | split; vm_compute; reflexivity]. }
  assert (H2 : whole_factor "-2" (VFloat (S754_finite true 4503599627370496 (-51)))).
  { exists 2%nat. eexists. eexists.
    split; [vm_compute; reflexivity | split; vm_compute; reflexivity]. }
  split; [split; assumption | ].
  apply (evaluate_two_factors "7" "-2" _ _ H7 H2).
Defined.

(** A whole factor, alone, evaluates to its value. *)
Lemma whole_factor_evaluate (t : string) (v : value) :
  whole_factor t v -> evaluate t = Ok v.
Proof.
  intros H. destruct (whole_factor_inv t v H) as (tok & l & q & G & F & He).
  rewrite (evaluate_from_token _ _ _ G).
  rewrite (F (S (3 * String.length t)) ltac:(lia)). cbn [bind].
  rewrite term_loop_stops; [reflexivity | rewrite He; reflexivity].
Qed.

Lemma whole_factor_literal (d : string) (f : float) :
  literal d = true -> py_float d = Ok f -> whole_factor d (VFloat f).
Proof.
  intros Hl Hf.
  destruct (get_next_token_literal (Lexer_init d) d "" (in_step_init d))
    as (f1 & s1 & Hf1 & Eq & H1 & Hr1 & _); auto.
  { rewrite rest_init, append_empty_r. reflexivity. }
  { exact I. }
  assert (f1 = f) by congruence. subst f1.
  exists 1%nat. eexists. eexists. unfold Parser_init. rewrite Eq. simpl bind.
  split; [reflexivity | ].
  simpl factor.
  erewrite eat_at_end; [ | reflexivity | exact H1 | exact Hr1].
  split; reflexivity.
Qed.

(** The lexer after spaces, on two texts that are the same from there. *)
Lemma get_next_token_after_spaces (s s' s1 : Lexer) (t : Token) :
  in_step s -> in_step s' ->
  drop_while isspace (rest s') = drop_while isspace (rest s) ->
  get_next_token s = Ok (t, s1) ->
  exists t' s1',
    get_next_token s' = Ok (t', s1')
    /\ follows "" (mkParser s1 t) (mkParser s1' t').
Proof.
  intros Hs Hs' Hd G.
  destruct (get_next_token_skip s Hs) as (s0 & _ & H0 & _ & Hr0 & _ & _ & Eq).
  destruct (get_next_token_skip s' Hs') as (s0' & _ & H0' & _ & Hr0' & _ & _ & Eq').
  rewrite Eq in G. rewrite Eq'.
  apply (get_next_token_follows "" EOF eq_refl s0 s0' s1 t H0 H0'); [ | assumption].
  rewrite append_empty_r. congruence.
Qed.

(** A factor after its unary operator: in a text that starts with the
    operator and goes on, after spaces, as [t], it is read as in [t]. *)
Lemma factor_after_operator (t : string) (v : value) (s : Lexer) :
  whole_factor t v -> in_step s ->
  drop_while isspace (rest s) = drop_while isspace t ->
  (String.length (rest s) <= S (String.length t))%nat ->
  exists tok l q,
    get_next_token s = Ok (tok, l)
    /\ factor (3 * String.length t + 1) (mkParser l tok) = Ok (v, q)
    /\ ttype (current_token q) = EOF.
Proof.
  intros H Hs Hd Hlen.
  destruct (whole_factor_inv t v H) as (tok & l & q & G & F & He).
  destruct (get_next_token_after_spaces (Lexer_init t) s l tok
              (in_step_init _) Hs Hd G) as (tok' & l' & G' & Fo).
  destruct (proj1 (grammar_follows "" EOF eq_refl (3 * String.length t + 1))
              _ _ _ _ Fo (F _ (Nat.le_refl _))) as (q' & E' & Fq).
  destruct (follows_at_end "" EOF q q' eq_refl Fq He) as (Hty & _ & _).
  exists tok', l', q'. auto.
Qed.

(** The unary operators on a whole factor: [-t] is the negation of [t] and
    [NOT t] its logical negation, and both are whole factors again. *)
Theorem evaluate_unary (t : string) (v : value) :
  whole_factor t v ->
  evaluate t = Ok v
  /\ evaluate ("-" ++ t) = Ok (py_neg v)
  /\ evaluate ("NOT " ++ t) = Ok (py_not v)
  /\ whole_factor ("-" ++ t) (py_neg v)
  /\ whole_factor ("NOT " ++ t) (py_not v).
Proof.
  intros H. split; [apply whole_factor_evaluate; assumption | ].
  assert (Hm : whole_factor ("-" ++ t) (py_neg v)).
  { set (T := "-" ++ t).
    assert (GT : get_next_token (Lexer_init T)
                 = Ok (mkToken MINUS (TVstr "-") 1 1, advance (Lexer_init T))).
    { apply (get_next_token_symbol (Lexer_init T) "-" MINUS); reflexivity. }
    destruct (factor_after_operator t v (advance (Lexer_init T)) H
                (in_step_advance _)) as (tok & l & q & G & F & He).
    { rewrite rest_advance, rest_init. reflexivity. }
    { rewrite rest_advance, rest_init. simpl. lia. }
    remember (3 * String.length t + 1)%nat as N eqn:HN. clear HN.
    exists (S N). eexists. exists q.
    unfold Parser_init. rewrite GT. simpl bind.
    split; [reflexivity | ]. split; [ | assumption].
    clearbody T. simpl factor. unfold eat. simpl. rewrite G. simpl.
    rewrite F. reflexivity. }
  assert (Hn : whole_factor ("NOT " ++ t) (py_not v)).
  { set (T := "NOT " ++ t).
    destruct (get_next_token_word (Lexer_init T) "N" (in_step_init _))
      as (s1 & H1 & _ & Hr1 & _ & _ & _ & _ & GT); try reflexivity.
    rewrite rest_init in Hr1, GT.
    change (take_while isalnum T) with "NOT" in GT.
    change (drop_while isalnum T) with (" " ++ t) in Hr1.
    change (keywords_get (upper "NOT")) with (Some ("NOT", NOT)) in GT.
    destruct (factor_after_operator t v s1 H H1) as (tok & l & q & G & F & He).
    { rewrite Hr1. reflexivity. }
    { rewrite Hr1. simpl. lia. }
    remember (3 * String.length t + 1)%nat as N eqn:HN. clear HN.
    exists (S N). eexists. exists q.
    unfold Parser_init. rewrite GT. simpl bind.
    split; [reflexivity | ]. split; [ | assumption].
    clearbody T. simpl factor. unfold eat. simpl. rewrite G. simpl.
    rewrite F. reflexivity. }
  split; [apply whole_factor_evaluate; assumption | ].
  split; [apply whole_factor_evaluate; assumption | ].
  split; assumption.
Qed.

Lemma evaluate_unary_witness :
  whole_factor "(2*3)" (VFloat (S754_finite false 6755399441055744 (-50)))
  /\ (evaluate "(2*3)" = Ok (VFloat (S754_finite false 6755399441055744 (-50)))
      /\ evaluate ("-" ++ "(2*3)")
         = Ok (py_neg (VFloat (S754_finite false 6755399441055744 (-50))))
      /\ evaluate ("NOT " ++ "(2*3)")
         = Ok (py_not (VFloat (S754_finite false 6755399441055744 (-50))))
      /\ whole_factor ("-" ++ "(2*3)")
           (py_neg (VFloat (S754_finite false 6755399441055744 (-50))))
      /\ whole_factor ("NOT " ++ "(2*3)")
           (py_not (VFloat (S754_finite false 6755399441055744 (-50))))).
Proof.
  assert (H : whole_factor "(2*3)" (VFloat (S754_finite false 6755399441055744 (-50)))).
  { exists 6%nat. eexists. eexists.
    split; [vm_compute; reflexivity | split; vm_compute; reflexivity]. }
  split; [assumption | ]. apply (evaluate_unary "(2*3)" _ H).
Defined.

(** ** The exceptions of a run *)

Lemma bind_Raise {A B : Type} (m : outcome A) (k : A -> outcome B) (e : exn) :
  bind m k = Raise e -> m = Raise e \/ exists x, m = Ok x /\ k x = Raise e.
Proof.
  destruct m as [x | e1 | ]; simpl; intros H;
    [right; eauto | left; inversion H; reflexivity | discriminate].
Qed.

Lemma skip_whitespace_Ok (s : Lexer) : exists s1, skip_whitespace s = Ok s1.
Proof.
  destruct (skip_whitespace_loop_ends (lexer_fuel s) s (remaining_fuel s))
    as (s1 & E & _). exists s1. exact E.
Qed.

(** The lexer raises nothing but its own two exceptions. *)
Lemma get_next_token_lexical (s : Lexer) (e : exn) :
  get_next_token s = Raise e -> lexical e.
Proof.
  unfold get_next_token. generalize (lexer_fuel s) as n. intros n. revert s.
  induction n as [ | n IH]; intros s H; simpl in H;
    (destruct (current_char s) as [c | ] eqn:Hc; [ | discriminate]);
    (destruct (isspace c);
     [destruct (skip_whitespace_Ok s) as [s1 E]; rewrite E in H; simpl in H;
      first [discriminate | apply (IH _ H)] | ]);
    (destruct (isdigit c);
     [unfold number in H;
      destruct (collect_while_ends number_class (lexer_fuel s) "" s (remaining_fuel s))
        as (r & s1 & E & _); rewrite E in H; simpl in H; unfold py_float in H;
      destruct (scan_literal _ _ _ _ _) as [[m k] | ]; simpl in H;
      inversion H; exact I | ]);
    (destruct (isalpha c);
     [unfold _id in H;
      destruct (collect_while_ends isalnum (lexer_fuel s) "" s (remaining_fuel s))
        as (r & s1 & E & _); rewrite E in H; simpl in H;
      destruct (keywords_get _) as [[key t] | ]; inversion H; exact I | ]);
    repeat match type of H with
           | (if ?b then _ else _) = _ => destruct b; [discriminate H | ]
           end;
    inversion H; exact I.
Qed.

Lemma eat_Raise (x : TokenType) (p : Parser) (e : exn) :
  eat x p = Raise e ->
  lexical e \/ e = ExpectedToken x (ttype (current_token p)).
Proof.
  unfold eat. destruct (TokenType_eqb _ _).
  - intros H. apply bind_Raise in H. destruct H as [H | ([t l] & _ & H)].
    + left. apply (get_next_token_lexical _ _ H).
    + discriminate.
  - intros H. inversion H. auto.
Qed.

Lemma py_mul_small_Ok (a b : value) :
  small a -> small b -> exists r, py_mul a b = Ok r.
Proof.
  intros Ha Hb. unfold py_mul.
  destruct (small_to_float a Ha) as [x Hx], (small_to_float b Hb) as [y Hy].
  destruct (as_int a), (as_int b); rewrite ?Hx, ?Hy; simpl; eauto.
Qed.

Lemma small_int_cases (v : value) (z : Z) :
  small v -> as_int v = Some z -> z = -1 \/ z = 0 \/ z = 1.
Proof. intros H E. pose proof (as_int_small v z H E). lia. Qed.

Lemma to_float_nonzero (b : value) (y : float) :
  small b -> py_eq_zero b = false -> to_float b = Ok y -> is_zero y = false.
Proof.
  destruct b as [f | c | z]; simpl; intros Hs Hz Hy.
  - inversion Hy; subst. assumption.
  - destruct c; [ | discriminate]. vm_compute in Hy. inversion Hy. reflexivity.
  - assert (Hc : z = -1 \/ z = 0 \/ z = 1) by lia.
    destruct Hc as [-> | [-> | ->]]; try discriminate;
      vm_compute in Hy; inversion Hy; reflexivity.
Qed.

(** Under the check [divisor == 0] of [term], the division itself never
    fails. *)
Lemma py_truediv_guarded (a b : value) :
  small a -> small b -> py_eq_zero b = false ->
  exists q, py_truediv a b = Ok (VFloat q).
Proof.
  intros Ha Hb Hz. unfold py_truediv.
  destruct (small_to_float a Ha) as [x Hx], (small_to_float b Hb) as [y Hy].
  pose proof (to_float_nonzero b y Hb Hz Hy) as Hny.
  assert (Hf : exists q, (x0 <- to_float a ;; y0 <- to_float b ;;
                          q0 <- float_div x0 y0 ;; Ok (VFloat q0)) = Ok (VFloat q)).
  { rewrite Hx, Hy. simpl. unfold float_div. rewrite Hny. simpl. eauto. }
  destruct (as_int a) as [i | ] eqn:Ea; [ | exact Hf].
  destruct (as_int b) as [j | ] eqn:Eb; [ | exact Hf].
  assert (Hj : j <> 0).
  { destruct b as [f | c | z]; simpl in *; inversion Eb; subst.
    - destruct c; [lia | discriminate].
    - apply Z.eqb_neq in Hz. assumption. }
  destruct (small_int_cases a i Ha Ea) as [-> | [-> | ->]];
    destruct (small_int_cases b j Hb Eb) as [-> | [-> | ->]];
    try congruence; eexists; vm_compute; reflexivity.
Qed.

Lemma py_mod_small_Raise (a b : value) (e : exn) :
  small a -> small b -> py_mod a b = Raise e ->
  e = ZeroDivisionError /\ py_eq_zero b = true.
Proof.
  intros Ha Hb H.
  destruct (py_eq_zero b) eqn:Hz.
  - destruct (small_to_float a Ha) as [x Hx].
    rewrite (py_mod_zero a b x Hz Hx) in H. inversion H. auto.
  - exfalso. unfold py_mod in H.
    destruct (small_to_float a Ha) as [x Hx], (small_to_float b Hb) as [y Hy].
    pose proof (to_float_nonzero b y Hb Hz Hy) as Hny.
    assert (Hf : (x0 <- to_float a ;; y0 <- to_float b ;;
                  r <- float_rem x0 y0 ;; Ok (VFloat r)) <> Raise e).
    { rewrite Hx, Hy. simpl. unfold float_rem. rewrite Hny.
      destruct (negb (is_zero (fmod x y))); [ | discriminate].
      destruct (negb _); discriminate. }
    destruct (as_int a) as [i | ] eqn:Ea; [ | contradiction].
    destruct (as_int b) as [j | ] eqn:Eb; [ | contradiction].
    unfold long_mod in H. destruct (j =? 0) eqn:Ej; [ | discriminate].
    apply Z.eqb_eq in Ej. subst j.
    destruct b as [f | c | z]; simpl in *; inversion Eb; subst.
    + destruct c; discriminate.
    + discriminate.
Qed.

(** Python's integer and float conversions can overflow; in a run of the
    grammar they never do, and no rule raises [OverflowError]. *)
Lemma grammar_no_overflow :
  forall n,
    (forall p e, factor n p = Raise e -> e <> OverflowError)
    /\ (forall r p e, small r -> term_loop n r p = Raise e -> e <> OverflowError)
    /\ (forall p e, term n p = Raise e -> e <> OverflowError)
    /\ (forall p e, expression n p = Raise e -> e <> OverflowError).
Proof.
  assert (Heat : forall x p e, eat x p = Raise e -> e <> OverflowError).
  { intros x p e H. apply eat_Raise in H. destruct H as [H | ->];
      [destruct e; try contradiction | ]; discriminate. }
  induction n as [ | n (IHf & IHl & IHt & IHe)].
  - repeat split; simpl; intros; try discriminate.
    destruct (ttype (current_token p)); simpl in *; discriminate.
  - pose proof (grammar_small n) as (Sf & Sl & St & Se).
    repeat split.
    + intros p e H. simpl in H.
      destruct (ttype (current_token p)); try (inversion H; discriminate).
      * apply bind_Raise in H. destruct H as [H | (p1 & _ & H)]; [eauto | ].
        apply bind_Raise in H. destruct H as [H | ([v p2] & _ & H)]; [eauto | ].
        discriminate.
      * apply bind_Raise in H. destruct H as [H | (p1 & _ & H)]; [eauto | ].
        apply bind_Raise in H. destruct H as [H | ([v p2] & _ & H)]; [eauto | ].
        discriminate.
      * apply bind_Raise in H. destruct H as [H | (p1 & _ & H)]; [eauto | ].
        discriminate.
      * apply bind_Raise in H. destruct H as [H | (p1 & _ & H)]; [eauto | ].
        apply bind_Raise in H. destruct H as [H | ([v p2] & _ & H)]; [eauto | ].
        simpl in H.
        apply bind_Raise in H. destruct H as [H | (p3 & _ & H)]; [eauto | ].
        discriminate.
    + intros r p e Hr H. simpl in H.
      destruct (ttype (current_token p)); simpl in H; try discriminate.
      * apply bind_Raise in H. destruct H as [H | (p1 & _ & H)]; [eauto | ].
        apply bind_Raise in H. destruct H as [H | ([v p2] & Hv & H)]; [eauto | ].
        simpl in H. apply Sf in Hv.
        destruct (py_mul_small_Ok r v Hr Hv) as [r1 Hm]. rewrite Hm in H.
        simpl in H. apply (IHl r1 p2 e); [ | assumption].
        apply (py_mul_small r v r1 Hr Hv Hm).
      * apply bind_Raise in H. destruct H as [H | (p1 & _ & H)]; [eauto | ].
        apply bind_Raise in H. destruct H as [H | ([v p2] & Hv & H)]; [eauto | ].
        simpl in H. apply Sf in Hv.
        destruct (py_eq_zero v) eqn:Hz; [inversion H; discriminate | ].
        destruct (py_truediv_guarded r v Hr Hv Hz) as [qf Hd]. rewrite Hd in H.
        simpl in H. apply (IHl (VFloat qf) p2 e); [exact I | assumption].
      * apply bind_Raise in H. destruct H as [H | (p1 & _ & H)]; [eauto | ].
        apply bind_Raise in H. destruct H as [H | ([v p2] & Hv & H)]; [eauto | ].
        simpl in H. apply Sf in Hv.
        apply bind_Raise in H. destruct H as [H | (r1 & Hm & H)].
        -- apply (py_mod_small_Raise r v e Hr Hv) in H. destruct H as [-> _].
           discriminate.
        -- apply (IHl r1 p2 e); [ | assumption].
           apply (py_mod_small r v r1 Hv Hm).
    + intros p e H. simpl in H.
      apply bind_Raise in H. destruct H as [H | ([v p1] & Hv & H)]; [eauto | ].
      simpl in H. apply (IHl v p1 e); [ | assumption]. apply (Sf _ _ _ Hv).
    + intros p e H. simpl in H. eauto.
Qed.

(** [evaluate] returns a float, a boolean or one of the integers [-1], [0],
    [1], and never fails with the host's [OverflowError].  The integers
    are the host's arithmetic on booleans, by negation or by an operator of
    [term], and all three occur: [-NOT 0] is [-1], [-NOT 1] is [0] and
    [NOT 0*NOT 0] is [1]. *)
Theorem evaluate_values_and_overflow (t : string) :
  (forall v, evaluate t = Ok v -> small v)
  /\ evaluate t <> Raise OverflowError
  /\ evaluate "-NOT 0" = Ok (VInt (-1))
  /\ evaluate "-NOT 1" = Ok (VInt 0)
  /\ evaluate "NOT 0*NOT 0" = Ok (VInt 1).
Proof.
  split; [ | split; [ | repeat split; vm_compute; reflexivity]].
  - intros v H. destruct (evaluate_Ok_inv t v H) as (tok & l & q & _ & E).
    apply (proj2 (proj2 (proj2 (grammar_small (parse_fuel t)))) _ _ _ E).
  - unfold evaluate, evaluate_with, evaluate_run, Parser_init, parse. intros H.
    apply bind_Raise in H. destruct H as [H | ([v q] & _ & H)]; [ | discriminate].
    apply bind_Raise in H. destruct H as [H | (p & _ & H)].
    + apply bind_Raise in H. destruct H as [H | ([tok l] & _ & H)]; [ | discriminate].
      apply get_next_token_lexical in H. exact H.
    + apply (proj2 (proj2 (proj2 (grammar_no_overflow (parse_fuel t)))) _ _ H).
      reflexivity.
Qed.

Lemma evaluate_values_and_overflow_witness :
  evaluate "-NOT 0" = Ok (VInt (-1)) /\ small (VInt (-1)).
Proof.
  assert (H : evaluate "-NOT 0" = Ok (VInt (-1))) by (vm_compute; reflexivity).
  split; [exact H | ].
  apply (proj1 (evaluate_values_and_overflow "-NOT 0") (VInt (-1)) H).
Defined.

(** ** Without a [%] in the text *)

Lemma all_in_tail (cls : ascii -> bool) (t : string) :
  all_in cls t = true -> all_in cls (tail t) = true.
Proof.
  destruct t as [ | c t]; simpl; [auto | ].
  intros H. apply andb_true_iff in H. tauto.
Qed.

Lemma all_in_drop_while_any (cls cls' : ascii -> bool) (t : string) :
  all_in cls t = true -> all_in cls (drop_while cls' t) = true.
Proof.
  induction t as [ | c t IH]; simpl; [auto | ].
  intros H. destruct (cls' c); [ | exact H].
  apply andb_true_iff in H. tauto.
Qed.

Lemma symbol_type_MODULO (c : ascii) :
  symbol_type c = Some MODULO -> not_percent c = false.
Proof.
  unfold symbol_type, not_percent.
  repeat match goal with
         | |- context [if Ascii.eqb c ?x then _ else _] =>
             let E := fresh "E" in
             destruct (Ascii.eqb c x) eqn:E;
             [try (intros H; discriminate H) | ]
         end; try (intros H; discriminate H).
  intros _. reflexivity.
Qed.

Lemma keywords_get_not_MODULO (u : list N) (key : string) (t : TokenType) :
  keywords_get u = Some (key, t) -> t <> MODULO.
Proof.
  unfold keywords_get, keywords. simpl.
  repeat match goal with
         | |- context [N_list_eqb ?a ?b] => destruct (N_list_eqb a b)
         end;
    intros H; inversion H; discriminate.
Qed.

Lemma get_next_token_percent_free (s s1 : Lexer) (t : Token) :
  in_step s -> all_in not_percent (rest s) = true ->
  get_next_token s = Ok (t, s1) ->
  percent_free (mkParser s1 t).
Proof.
  intros Hs Hall H.
  destruct (get_next_token_skip s Hs) as (s0 & _ & H0 & _ & Hr0 & _ & Hstop & Eq).
  rewrite Eq in H. clear Eq.
  assert (Hall0 : all_in not_percent (rest s0) = true).
  { rewrite Hr0. apply all_in_drop_while_any. assumption. }
  unfold percent_free. simpl.
  destruct (rest_cases s0 H0) as [[Hc Hrest] | (c & Hc & Hrest)].
  - rewrite (get_next_token_end s0 Hc) in H. inversion H; subst t s1.
    simpl. repeat split; auto. discriminate.
  - assert (Hnp : not_percent c = true).
    { rewrite Hrest in Hall0. simpl in Hall0.
      apply andb_true_iff in Hall0. tauto. }
    unfold stops_at in Hstop. rewrite Hc in Hstop.
    destruct (char_cases c) as [Hsp | [Hd | [Ha | [[ty Hty] | (_ & Hd & Ha & Hty)]]]].
    + congruence.
    + destruct (get_next_token_number s0 c H0 Hc Hd)
        as (s2 & H2 & _ & Hr2 & _ & _ & _ & _ & Eq2).
      rewrite Eq2 in H. destruct (py_float _); simpl in H; inversion H; subst t s2.
      simpl. repeat split; auto; [ | discriminate].
      rewrite Hr2. apply all_in_drop_while_any. assumption.
    + destruct (get_next_token_word s0 c H0 Hc Ha)
        as (s2 & H2 & _ & Hr2 & _ & _ & _ & _ & Eq2).
      rewrite Eq2 in H.
      destruct (keywords_get _) as [[key ty] | ] eqn:Hk; inversion H; subst t s2.
      simpl. repeat split; auto.
      * rewrite Hr2. apply all_in_drop_while_any. assumption.
      * apply (keywords_get_not_MODULO _ _ _ Hk).
    + rewrite (get_next_token_symbol s0 c ty Hc Hty) in H.
      inversion H; subst t s1. simpl.
      split; [apply in_step_advance | split].
      * rewrite Hrest in Hall0. simpl in Hall0.
        apply andb_true_iff in Hall0. tauto.
      * intros ->. apply symbol_type_MODULO in Hty. congruence.
    + rewrite (get_next_token_other s0 c Hc Hstop Hd Ha Hty) in H. discriminate.
Qed.

Lemma eat_percent_free (x : TokenType) (p p1 : Parser) :
  percent_free p -> eat x p = Ok p1 -> percent_free p1.
Proof.
  intros (Hi & Hall & _) H. unfold eat in H.
  destruct (TokenType_eqb _ _); [ | discriminate].
  destruct (get_next_token (lexer p)) as [[t l] | e | ] eqn:G; simpl in H;
    inversion H; subst p1.
  apply (get_next_token_percent_free _ _ _ Hi Hall G).
Qed.

Lemma eat_not_host (x : TokenType) (p : Parser) (e : exn) :
  eat x p = Raise e -> e <> ZeroDivisionError.
Proof.
  intros H. apply eat_Raise in H.
  destruct H as [H | ->]; [destruct e; try contradiction | ]; discriminate.
Qed.

Lemma grammar_percent_free :
  forall n,
    (forall p, percent_free p ->
       (forall v q, factor n p = Ok (v, q) -> percent_free q)
       /\ (forall e, factor n p = Raise e -> e <> ZeroDivisionError))
    /\ (forall r p, small r -> percent_free p ->
          (forall v q, term_loop n r p = Ok (v, q) -> percent_free q)
          /\ (forall e, term_loop n r p = Raise e -> e <> ZeroDivisionError))
    /\ (forall p, percent_free p ->
          (forall v q, term n p = Ok (v, q) -> percent_free q)
          /\ (forall e, term n p = Raise e -> e <> ZeroDivisionError))
    /\ (forall p, percent_free p ->
          (forall v q, expression n p = Ok (v, q) -> percent_free q)
          /\ (forall e, expression n p = Raise e -> e <> ZeroDivisionError)).
Proof.
  induction n as [ | n (IHf & IHl & IHt & IHe)].
  - split; [ | split; [ | split]].
    + intros; split; intros; discriminate.
    + intros r p Hr Hp. split.
      * intros v q H. cbn [term_loop] in H.
        destruct (type_in _ _); [discriminate | inversion H; subst; assumption].
      * intros e H. cbn [term_loop] in H. destruct (type_in _ _); discriminate.
    + intros; split; intros; discriminate.
    + intros; split; intros; discriminate.
  - pose proof (grammar_small n) as (Sf & Sl & St & Se).
    split; [ | split; [ | split]].
    + intros p Hp. split.
      * intros v q H. simpl in H.
        destruct (ttype (current_token p)); try discriminate.
        -- invert_bind H. invert_bind H. inversion H; subst.
           apply (proj1 (IHf _ (eat_percent_free _ _ _ Hp Hstep)) _ _ Hstep0).
        -- invert_bind H. invert_bind H. inversion H; subst.
           apply (proj1 (IHf _ (eat_percent_free _ _ _ Hp Hstep)) _ _ Hstep0).
        -- invert_bind H. inversion H; subst.
           apply (eat_percent_free _ _ _ Hp Hstep).
        -- invert_bind H. invert_bind H. invert_bind H. inversion H; subst.
           apply (eat_percent_free _ _ _
                    (proj1 (IHe _ (eat_percent_free _ _ _ Hp Hstep)) _ _ Hstep0)
                    Hstep1).
      * intros e H. simpl in H.
        destruct (ttype (current_token p)); try (inversion H; discriminate).
        -- apply bind_Raise in H. destruct H as [H | (p1 & E1 & H)];
             [apply (eat_not_host _ _ _ H) | ].
           apply bind_Raise in H. destruct H as [H | ([v p2] & _ & H)];
             [ | discriminate].
           apply (proj2 (IHf _ (eat_percent_free _ _ _ Hp E1)) _ H).
        -- apply bind_Raise in H. destruct H as [H | (p1 & E1 & H)];
             [apply (eat_not_host _ _ _ H) | ].
           apply bind_Raise in H. destruct H as [H | ([v p2] & _ & H)];
             [ | discriminate].
           apply (proj2 (IHf _ (eat_percent_free _ _ _ Hp E1)) _ H).
        -- apply bind_Raise in H. destruct H as [H | (p1 & E1 & H)];
             [apply (eat_not_host _ _ _ H) | discriminate].
        -- apply bind_Raise in H. destruct H as [H | (p1 & E1 & H)];
             [apply (eat_not_host _ _ _ H) | ].
           pose proof (eat_percent_free _ _ _ Hp E1) as Hp1.
           apply bind_Raise in H. destruct H as [H | ([v p2] & E2 & H)];
             [apply (proj2 (IHe _ Hp1) _ H) | ].
           simpl in H.
           apply bind_Raise in H. destruct H as [H | (p3 & _ & H)];
             [apply (eat_not_host _ _ _ H) | discriminate].
    + intros r p Hr Hp.
      assert (Hstep : forall x p1 v p2 r1,
                 eat x p = Ok p1 -> factor n p1 = Ok (v, p2) -> small r1 ->
                 (forall v0 q, term_loop n r1 p2 = Ok (v0, q) -> percent_free q)
                 /\ (forall e, term_loop n r1 p2 = Raise e -> e <> ZeroDivisionError)).
      { intros x p1 v p2 r1 E1 E2 Hr1. apply IHl; [assumption | ].
        apply (proj1 (IHf _ (eat_percent_free _ _ _ Hp E1)) _ _ E2). }
      assert (Hfac : forall x p1 e,
                 eat x p = Ok p1 -> factor n p1 = Raise e -> e <> ZeroDivisionError).
      { intros x p1 e E1 E2.
        apply (proj2 (IHf _ (eat_percent_free _ _ _ Hp E1)) _ E2). }
      split.
      * intros v q H. simpl in H.
        destruct (ttype (current_token p)) eqn:Et; simpl in H;
          try (inversion H; subst; assumption).
        -- invert_bind H. invert_bind H. invert_bind H.
           apply (proj1 (Hstep _ _ _ _ a0 Hstep0 Hstep1
                           (py_mul_small _ _ _ Hr (Sf _ _ _ Hstep1) Hstep2)) _ _ H).
        -- invert_bind H. invert_bind H.
           destruct (py_eq_zero v0); [discriminate | ]. invert_bind H.
           apply (proj1 (Hstep _ _ _ _ a0 Hstep0 Hstep1
                           (py_truediv_small _ _ _ Hstep2)) _ _ H).
        -- destruct Hp as (_ & _ & Hne). congruence.
      * intros e H. simpl in H.
        destruct (ttype (current_token p)) eqn:Et; simpl in H; try discriminate.
        -- apply bind_Raise in H. destruct H as [H | (p1 & E1 & H)];
             [apply (eat_not_host _ _ _ H) | ].
           apply bind_Raise in H. destruct H as [H | ([v p2] & E2 & H)];
             [apply (Hfac _ _ _ E1 H) | ].
           simpl in H. pose proof (Sf _ _ _ E2) as Hv.
           destruct (py_mul_small_Ok r v Hr Hv) as [r1 Hm]. rewrite Hm in H.
           simpl in H.
           apply (proj2 (Hstep _ _ _ _ r1 E1 E2 (py_mul_small _ _ _ Hr Hv Hm)) _ H).
        -- apply bind_Raise in H. destruct H as [H | (p1 & E1 & H)];
             [apply (eat_not_host _ _ _ H) | ].
           apply bind_Raise in H. destruct H as [H | ([v p2] & E2 & H)];
             [apply (Hfac _ _ _ E1 H) | ].
           simpl in H. pose proof (Sf _ _ _ E2) as Hv.
           destruct (py_eq_zero v) eqn:Hz; [inversion H; discriminate | ].
           destruct (py_truediv_guarded r v Hr Hv Hz) as [qf Hd]. rewrite Hd in H.
           simpl in H.
           apply (proj2 (Hstep _ _ _ _ (VFloat qf) E1 E2 I) _ H).
        -- destruct Hp as (_ & _ & Hne). congruence.
    + intros p Hp. split.
      * intros v q H. simpl in H. invert_bind H.
        apply (proj1 (IHl _ _ (Sf _ _ _ Hstep)
                        (proj1 (IHf _ Hp) _ _ Hstep)) _ _ H).
      * intros e H. simpl in H.
        apply bind_Raise in H. destruct H as [H | ([v p1] & E1 & H)];
          [apply (proj2 (IHf _ Hp) _ H) | ].
        simpl in H.
        apply (proj2 (IHl _ _ (Sf _ _ _ E1) (proj1 (IHf _ Hp) _ _ E1)) _ H).
    + intros p Hp. simpl. apply IHt. assumption.
Qed.

(** In a text without [%], a division by zero is always the parser's own
    'Division by zero': [evaluate] never fails with the host's
    zero-division error, whose only source is the unguarded [%]. *)
Theorem evaluate_without_percent (t : string) :
  all_in not_percent t = true ->
  evaluate t <> Raise ZeroDivisionError.
Proof.
  intros Hall. unfold evaluate, evaluate_with, evaluate_run, Parser_init, parse.
  intros H.
  apply bind_Raise in H. destruct H as [H | ([v q] & _ & H)]; [ | discriminate].
  apply bind_Raise in H. destruct H as [H | (p & Ep & H)].
  - apply bind_Raise in H. destruct H as [H | ([tok l] & _ & H)]; [ | discriminate].
    apply get_next_token_lexical in H. exact H.
  - apply bind_Ok in Ep. destruct Ep as ([tok l] & G & Ep). inversion Ep; subst p.
    pose proof (get_next_token_percent_free _ _ _ (in_step_init t) Hall G) as Hp.
    apply (proj2 (proj2 (proj2 (proj2 (grammar_percent_free (parse_fuel t)))) _ Hp) _ H).
    reflexivity.
Qed.

Lemma evaluate_without_percent_witness :
  all_in not_percent "5/(2*0)" = true
  /\ evaluate "5/(2*0)" <> Raise ZeroDivisionError.
Proof.
  split; [reflexivity | ].
  apply (evaluate_without_percent "5/(2*0)"). reflexivity.
Defined.

(** ** Keywords *)

Lemma all_in_weaken (cls cls' : ascii -> bool) (w : string) :
  (forall c, cls c = true -> cls' c = true) ->
  all_in cls w = true -> all_in cls' w = true.
Proof.
  intros Hc. induction w as [ | c w IH]; simpl; [auto | ].
  intros H. apply andb_true_iff in H. destruct H as [H1 H2].
  rewrite (Hc _ H1), (IH H2). reflexivity.
Qed.

Lemma keywords_get_In (key : string) (ty : TokenType) :
  In (key, ty) keywords -> keywords_get (code_points key) = Some (key, ty).
Proof.
  unfold keywords. simpl.
  intros [H | [H | [H | [H | [H | [H | []]]]]]]; inversion H; reflexivity.
Qed.

Lemma word_at_cursor (s : Lexer) (w u : string) :
  in_step s -> rest s = w ++ u ->
  w <> "" -> all_in isalpha w = true -> starts_outside isalnum u ->
  exists c,
    current_char s = Some c /\ isalpha c = true
    /\ take_while isalnum (rest s) = w /\ drop_while isalnum (rest s) = u.
Proof.
  intros Hs Hr Hne Hw Hu.
  destruct w as [ | c w']; [congruence | ].
  exists c. split; [rewrite (in_step_head s Hs), Hr; reflexivity | ].
  split; [simpl in Hw; apply andb_true_iff in Hw; tauto | ].
  rewrite Hr.
  apply (take_drop_while_app isalnum (String c w') u
           (all_in_weaken _ _ _ isalpha_isalnum Hw) Hu).
Qed.

(** A word of letters that is, in upper case, one of the six keywords gives
    that keyword's token, whatever the case of its letters; the token's
    value is the keyword in upper case, its position the word's first
    character, and the lexer is left just behind the word. *)
Theorem get_next_token_keyword (s : Lexer) (w u key : string) (ty : TokenType) :
  in_step s -> rest s = w ++ u ->
  w <> "" -> all_in isalpha w = true -> starts_outside isalnum u ->
  upper w = code_points key -> In (key, ty) keywords ->
  exists s1,
    get_next_token s = Ok (mkToken ty (TVstr key) (line s) (column s), s1)
    /\ in_step s1 /\ rest s1 = u
    /\ pos s1 = (pos s + String.length w)%nat.
Proof.
  intros Hs Hr Hne Hw Hu Hup Hin.
  destruct (word_at_cursor s w u Hs Hr Hne Hw Hu) as (c & Hc & Ha & Ht & Hd).
  destruct (get_next_token_word s c Hs Hc Ha)
    as (s1 & H1 & _ & Hr1 & Hp1 & _ & _ & _ & Eq).
  rewrite Ht in Hp1, Eq. rewrite Hd in Hr1.
  rewrite Hup, (keywords_get_In _ _ Hin) in Eq.
  exists s1. auto.
Qed.

Lemma get_next_token_keyword_witness :
  in_step (Lexer_init "nOt 5") /\ rest (Lexer_init "nOt 5") = "nOt" ++ " 5"
  /\ "nOt" <> "" /\ all_in isalpha "nOt" = true /\ starts_outside isalnum " 5"
  /\ upper "nOt" = code_points "NOT" /\ In ("NOT", NOT) keywords
  /\ exists s1,
       get_next_token (Lexer_init "nOt 5")
       = Ok (mkToken NOT (TVstr "NOT") (line (Lexer_init "nOt 5"))
               (column (Lexer_init "nOt 5")), s1)
       /\ in_step s1 /\ rest s1 = " 5"
       /\ pos s1 = (pos (Lexer_init "nOt 5") + String.length "nOt")%nat.
Proof.
  assert (Hne : "nOt" <> "") by discriminate.
  assert (Hin : In ("NOT", NOT) keywords) by (simpl; tauto).
  repeat (split; [first [reflexivity | assumption] | ]).
  apply (get_next_token_keyword (Lexer_init "nOt 5") "nOt" " 5" "NOT" NOT);
    first [reflexivity | assumption].
Defined.

(** The keywords IF, THEN, ELSE, AND and OR are tokens of the lexer only: no
    rule of the grammar reads them, and a text that starts with one of
    them, in any letter case, fails with 'Invalid factor'. *)
Theorem evaluate_keyword_without_rule (w u key : string) (ty : TokenType) :
  w <> "" -> all_in isalpha w = true -> starts_outside isalnum u ->
  upper w = code_points key -> In (key, ty) keywords -> ty <> NOT ->
  evaluate (w ++ u) = Raise InvalidFactor.
Proof.
  intros Hne Hw Hu Hup Hin Hty.
  destruct (word_at_cursor (Lexer_init (w ++ u)) w u
              (in_step_init _) (rest_init _) Hne Hw Hu) as (c & Hc & Ha & Ht & _).
  destruct (get_next_token_word _ c (in_step_init _) Hc Ha)
    as (s1 & _ & _ & _ & _ & _ & _ & _ & G).
  rewrite Ht, Hup, (keywords_get_In _ _ Hin) in G.
  rewrite (evaluate_from_token _ _ _ G).
  remember (3 * String.length (w ++ u))%nat as N. clear HeqN.
  unfold keywords in Hin. simpl in Hin.
  destruct Hin as [H | [H | [H | [H | [H | [H | []]]]]]]; inversion H; subst;
    try reflexivity.
  congruence.
Qed.

Lemma evaluate_keyword_without_rule_witness :
  "If" <> "" /\ all_in isalpha "If" = true /\ starts_outside isalnum " 1"
  /\ upper "If" = code_points "IF" /\ In ("IF", IF) keywords /\ IF <> NOT
  /\ evaluate ("If" ++ " 1") = Raise InvalidFactor.
Proof.
  assert (Hne : "If" <> "") by discriminate.
  assert (Hin : In ("IF", IF) keywords) by (simpl; tauto).
  assert (Hty : IF <> NOT) by discriminate.
  repeat (split; [first [reflexivity | assumption] | ]).
  apply (evaluate_keyword_without_rule "If" " 1" "IF" IF);
    first [reflexivity | assumption].
Defined.

(** ** A parenthesis left open *)

(** When [evaluate] reads [t] to its end, ["(" ++ t] fails at the end of the
    input, where [eat] expects the closing parenthesis and holds the
    end-of-input token. *)
Theorem evaluate_unclosed_parenthesis (t : string) (v : value) (q : Parser) :
  evaluate_run (parse_fuel t) t = Ok (v, q) ->
  ttype (current_token q) = EOF ->
  evaluate ("(" ++ t) = Raise (ExpectedToken RPAREN EOF).
Proof.
  intros H Heof.
  unfold evaluate_run, Parser_init, parse in H. invert_bind H.
  invert_bind Hstep. inversion Hstep; subst a. clear Hstep.
  rename Hstep0 into G, H into E, t0 into tok.
  set (T := "(" ++ t).
  assert (Hsep : sep_type "" = Some EOF) by reflexivity.
  assert (GT : get_next_token (Lexer_init T)
               = Ok (mkToken LPAREN (TVstr "(") 1 1, advance (Lexer_init T))).
  { apply (get_next_token_symbol (Lexer_init T) "(" LPAREN); reflexivity. }
  assert (Hrest : rest (advance (Lexer_init T)) = rest (Lexer_init t) ++ "").
  { rewrite append_empty_r. reflexivity. }
  destruct (get_next_token_follows "" EOF Hsep
              (Lexer_init t) (advance (Lexer_init T)) l tok
              (in_step_init _) (in_step_advance _) Hrest G)
    as (tok' & l' & G' & F).
  destruct (proj2 (proj2 (proj2 (grammar_follows "" EOF Hsep (parse_fuel t))))
              _ _ _ _ F E (or_intror eq_refl)) as (q' & E' & F').
  destruct (follows_at_end "" EOF q q' Hsep F' Heof) as (Hty & _ & _).
  assert (E2 : expression (3 * String.length T) (mkParser l' tok') = Ok (v, q')).
  { apply (expression_fuel_free _ _ _ _ E').
    pose proof (Parser_init_pending (advance (Lexer_init T)) (mkParser l' tok')) as Hp.
    unfold Parser_init in Hp. rewrite G' in Hp. specialize (Hp eq_refl).
    pose proof (remaining_rest _ (in_step_advance (Lexer_init T))) as Hrem.
    rewrite rest_advance, rest_init in Hrem. unfold T in Hrem. simpl in Hrem.
    change (String "(" t) with T in Hrem.
    assert (Hlen : String.length T = S (String.length t)) by reflexivity.
    lia. }
  rewrite (evaluate_from_token T _ _ GT).
  clearbody T. remember (3 * String.length T)%nat as N eqn:HN. clear HN.
  assert (EF : factor (S N)
                 (mkParser (advance (Lexer_init T)) (mkToken LPAREN (TVstr "(") 1 1))
               = Raise (ExpectedToken RPAREN EOF)).
  { simpl factor. unfold eat at 1. simpl ttype. simpl TokenType_eqb.
    cbn [lexer]. rewrite G'. simpl bind. rewrite E2. simpl bind.
    unfold eat. rewrite Hty. reflexivity. }
  rewrite EF. reflexivity.
Qed.

Lemma evaluate_unclosed_parenthesis_witness :
  (evaluate_run (parse_fuel "2*3") "2*3"
   = Ok (VFloat (S754_finite false 6755399441055744 (-50)),
         sample "2*3" 3 4 (eof_at 4))
   /\ ttype (current_token (sample "2*3" 3 4 (eof_at 4))) = EOF)
  /\ evaluate ("(" ++ "2*3") = Raise (ExpectedToken RPAREN EOF).
Proof.
  split; [split; vm_compute; reflexivity | ].
  apply (evaluate_unclosed_parenthesis "2*3"
           (VFloat (S754_finite false 6755399441055744 (-50)))
           (sample "2*3" 3 4 (eof_at 4)));
    vm_compute; reflexivity.
Defined.

(** * The objects of a run *)

(** ** Writing in the store *)

Lemma write_length (a : nat) (o : object) (h : store) :
  List.length (write a o h) = List.length h.
Proof.
  revert a. induction h as [ | x h IH]; intros [ | a]; simpl; auto.
Qed.

Lemma nth_error_write_same (a : nat) (o : object) (h : store) :
  (a < List.length h)%nat -> nth_error (write a o h) a = Some o.
Proof.
  revert a. induction h as [ | x h IH]; intros [ | a]; simpl; intros H;
    try lia; [reflexivity | ].
  apply IH. lia.
Qed.

Lemma nth_error_write_other (a b : nat) (o : object) (h : store) :
  a <> b -> nth_error (write a o h) b = nth_error h b.
Proof.
  revert a b. induction h as [ | x h IH]; intros [ | a] [ | b] H; simpl;
    try reflexivity; try congruence.
  apply IH. congruence.
Qed.

Lemma nth_error_length (h : store) (a : nat) (o : object) :
  nth_error h a = Some o -> (a < List.length h)%nat.
Proof. intros H. apply nth_error_Some. congruence. Qed.

Lemma others_kept_refl (a b : nat) (h : store) : others_kept a b h h.
Proof. split; auto. Qed.

Lemma others_kept_trans (a b : nat) (h h1 h2 : store) :
  others_kept a b h h1 -> others_kept a b h1 h2 -> others_kept a b h h2.
Proof.
  intros [L1 K1] [L2 K2]. split; [congruence | ].
  intros c Ha Hb. rewrite (K2 c Ha Hb). apply (K1 c Ha Hb).
Qed.

Lemma others_kept_write_l (a b : nat) (o : object) (h : store) :
  others_kept a b h (write a o h).
Proof.
  split; [apply write_length | ].
  intros c Ha _. apply nth_error_write_other. congruence.
Qed.

Lemma others_kept_write_r (a b : nat) (o : object) (h : store) :
  others_kept a b h (write b o h).
Proof.
  split; [apply write_length | ].
  intros c _ Hb. apply nth_error_write_other. congruence.
Qed.

(** ** The lexer in place and the lexer by value *)

Lemma number_in_place_spec (s : Lexer) :
  fst (number_in_place s) = value_of (number s)
  /\ forall t s1, number s = Ok (t, s1) -> snd (number_in_place s) = s1.
Proof.
  unfold number_in_place, number, value_of.
  destruct (collect_while _ _ _ _) as [[result s1] | e | ]; simpl;
    [ | split; [reflexivity | discriminate] ..].
  destruct (py_float result) as [f | e | ]; simpl;
    split; try reflexivity; try discriminate.
  intros t s2 H. inversion H. reflexivity.
Qed.

Lemma _id_in_place_spec (s : Lexer) :
  fst (_id_in_place s) = value_of (_id s)
  /\ forall t s1, _id s = Ok (t, s1) -> snd (_id_in_place s) = s1.
Proof.
  unfold _id_in_place, _id, value_of, error.
  destruct (collect_while _ _ _ _) as [[result s1] | e | ]; simpl;
    [ | split; [reflexivity | discriminate] ..].
  destruct (keywords_get _) as [[key ty] | ]; simpl;
    split; try reflexivity; try discriminate.
  intros t s2 H. inversion H. reflexivity.
Qed.

Lemma get_next_token_in_place_loop_spec (n : nat) :
  forall s,
    fst (get_next_token_in_place_loop n s) = value_of (get_next_token_loop n s)
    /\ forall t s1, get_next_token_loop n s = Ok (t, s1) ->
                    snd (get_next_token_in_place_loop n s) = s1.
Proof.
  assert (Hsym : forall ty v s,
             fst (leaving s (symbol ty v s)) = value_of (symbol ty v s)
             /\ forall t s1, symbol ty v s = Ok (t, s1) ->
                             snd (leaving s (symbol ty v s)) = s1).
  { intros ty v s. unfold symbol. simpl. split; [reflexivity | ].
    intros t s1 H. inversion H. reflexivity. }
  induction n as [ | n IH]; intros s;
    cbn [get_next_token_in_place_loop get_next_token_loop];
    (destruct (current_char s) as [c | ];
     [ | simpl; split; [reflexivity | intros t s1 H; inversion H; reflexivity]]);
    (destruct (isspace c);
     [destruct (skip_whitespace s) as [s1 | e | ]; cbn [bind];
      [ | split; [reflexivity | discriminate] ..]
     | destruct (isdigit c); [apply number_in_place_spec | ];
       destruct (isalpha c); [apply _id_in_place_spec | ];
       repeat match goal with
              | |- context [if Ascii.eqb c ?x then _ else _] =>
                  destruct (Ascii.eqb c x); [apply Hsym | ]
              end;
       unfold error; simpl; split; [reflexivity | discriminate]]).
  - split; [reflexivity | discriminate].
  - apply IH.
Qed.

Lemma get_next_token_in_place_spec (s : Lexer) :
  fst (get_next_token_in_place s) = value_of (get_next_token s)
  /\ forall t s1, get_next_token s = Ok (t, s1) ->
                  snd (get_next_token_in_place s) = s1.
Proof. apply get_next_token_in_place_loop_spec. Qed.

(** ** The parser on the store and the parser by value *)

Lemma holds_distinct (h : store) (self lx : nat) (p : Parser) :
  holds h self lx p -> self <> lx.
Proof. intros [H1 H2] ->. congruence. Qed.

Lemma call_get_next_token (h : store) (a : nat) (l : Lexer) :
  nth_error h a = Some (LexerObject l) ->
  exists l',
    call a get_next_token_in_place h
    = Some (value_of (get_next_token l), write a (LexerObject l') h)
    /\ forall t l1, get_next_token l = Ok (t, l1) -> l' = l1.
Proof.
  intros H. unfold call. rewrite H.
  destruct (get_next_token_in_place_spec l) as [E1 E2].
  destruct (get_next_token_in_place l) as [r l'] eqn:E. simpl in E1, E2.
  exists l'. rewrite E1. split; [reflexivity | ].
  intros t l1 G. apply (E2 t l1 G).
Qed.

Lemma simulated_fields {A : Type} (self lx : nat) (p : Parser)
      (k : nat * Token -> action A) (o : outcome (A * Parser)) (h : store) :
  holds h self lx p ->
  simulated self lx (k (lx, current_token p)) o h ->
  simulated self lx (and_then (fields_of self) k) o h.
Proof.
  intros [_ H2] S. unfold simulated, and_then, fields_of in *.
  rewrite H2. exact S.
Qed.

Lemma simulated_bind {A B : Type} (self lx : nat)
      (m : action A) (o : outcome (A * Parser))
      (k : A -> action B) (k' : A * Parser -> outcome (B * Parser)) (h : store) :
  simulated self lx m o h ->
  (forall a q h1, o = Ok (a, q) -> holds h1 self lx q ->
                  simulated self lx (k a) (k' (a, q)) h1) ->
  simulated self lx (and_then m k) (bind o k') h.
Proof.
  intros (h1 & E & K & Hh) Hk. unfold simulated, and_then. rewrite E.
  destruct o as [[a q] | e | ]; simpl.
  - destruct (Hk a q h1 eq_refl (Hh a q eq_refl)) as (h2 & E2 & K2 & H2).
    exists h2. split; [exact E2 | ]. split; [ | exact H2].
    apply (others_kept_trans _ _ _ _ _ K K2).
  - exists h1. split; [reflexivity | ]. split; [exact K | discriminate].
  - exists h1. split; [reflexivity | ]. split; [exact K | discriminate].
Qed.

Lemma simulated_Ok {A : Type} (self lx : nat) (a : A) (p : Parser) (h : store) :
  holds h self lx p -> simulated self lx (lift (Ok a)) (Ok (a, p)) h.
Proof.
  intros H. exists h. split; [reflexivity | ].
  split; [apply others_kept_refl | ].
  intros a' q E. inversion E; subst. exact H.
Qed.

Lemma simulated_Raise {A : Type} (self lx : nat) (e : exn) (h : store) :
  simulated self lx (@lift A (Raise e)) (Raise e) h.
Proof.
  exists h. split; [reflexivity | ].
  split; [apply others_kept_refl | discriminate].
Qed.

Lemma simulated_OutOfFuel {A : Type} (self lx : nat) (h : store) :
  simulated self lx (@lift A OutOfFuel) OutOfFuel h.
Proof.
  exists h. split; [reflexivity | ].
  split; [apply others_kept_refl | discriminate].
Qed.

(** [eat] on the store: the lexer is reached through the reference the
    parser holds, and the token it returns is written in the parser. *)
Lemma simulated_eat (self lx : nat) (x : TokenType) (p : Parser) (h : store) :
  holds h self lx p ->
  simulated self lx (eat_at x self) (p1 <- eat x p ;; Ok (tt, p1)) h.
Proof.
  intros H. pose proof (holds_distinct _ _ _ _ H) as Hne.
  pose proof H as [H1 H2].
  unfold simulated, eat_at, and_then, fields_of, eat. rewrite H2.
  destruct (TokenType_eqb _ _).
  - destruct (call_get_next_token h lx (lexer p) H1) as (l' & E & El).
    rewrite E. clear E.
    destruct (get_next_token (lexer p)) as [[t l1] | e | ]; simpl.
    + rewrite (El t l1 eq_refl).
      unfold set_current_token.
      rewrite nth_error_write_other, H2 by congruence.
      eexists. split; [reflexivity | ]. split.
      * apply (others_kept_trans _ _ _ (write lx (LexerObject l1) h));
          [apply others_kept_write_r | apply others_kept_write_l].
      * intros a q Eq. inversion Eq; subst. split; simpl.
        -- rewrite nth_error_write_other by congruence.
           apply nth_error_write_same. apply (nth_error_length _ _ _ H1).
        -- apply nth_error_write_same. rewrite write_length.
           apply (nth_error_length _ _ _ H2).
    + eexists. split; [reflexivity | ].
      split; [apply others_kept_write_r | discriminate].
    + eexists. split; [reflexivity | ].
      split; [apply others_kept_write_r | discriminate].
  - simpl. exists h. split; [reflexivity | ].
    split; [apply others_kept_refl | discriminate].
Qed.

Lemma simulated_eat_bind {B : Type} (self lx : nat) (x : TokenType) (p : Parser)
      (k : unit -> action B) (k' : Parser -> outcome (B * Parser)) (h : store) :
  holds h self lx p ->
  (forall p1 h1, eat x p = Ok p1 -> holds h1 self lx p1 ->
                 simulated self lx (k tt) (k' p1) h1) ->
  simulated self lx (and_then (eat_at x self) k) (bind (eat x p) k') h.
Proof.
  intros H Hk.
  replace (bind (eat x p) k')
    with (bind (p1 <- eat x p ;; Ok (tt, p1)) (fun ap => k' (snd ap)))
    by (destruct (eat x p); reflexivity).
  apply simulated_bind; [apply simulated_eat; exact H | ].
  intros [] q h1 E Hq. simpl. apply Hk; [ | exact Hq].
  destruct (eat x p); simpl in E; inversion E. reflexivity.
Qed.

Lemma simulated_lift_bind {A B : Type} (self lx : nat)
      (r : outcome A) (k : A -> action B) (o : A -> outcome (B * Parser)) (h : store) :
  (forall a, r = Ok a -> simulated self lx (k a) (o a) h) ->
  simulated self lx (and_then (lift r) k) (bind r o) h.
Proof.
  intros Hk. destruct r as [a | e | ]; simpl.
  - apply (Hk a eq_refl).
  - apply (simulated_Raise (A := B)).
  - apply (simulated_OutOfFuel (A := B)).
Qed.

(** The rules of the grammar on the store do what they do by value. *)
Lemma grammar_at (self lx : nat) :
  forall n,
    (forall p h, holds h self lx p ->
                 simulated self lx (factor_at n self) (factor n p) h)
    /\ (forall r p h, holds h self lx p ->
                      simulated self lx (term_loop_at n r self) (term_loop n r p) h)
    /\ (forall p h, holds h self lx p ->
                    simulated self lx (term_at n self) (term n p) h)
    /\ (forall p h, holds h self lx p ->
                    simulated self lx (expression_at n self) (expression n p) h).
Proof.
  induction n as [ | n (IHf & IHl & IHt & IHe)].
  - split; [ | split; [ | split]]; intros;
      try apply (simulated_OutOfFuel (A := value)).
    cbn [term_loop_at term_loop].
    apply (simulated_fields self lx p); [assumption | ]. cbv beta iota.
    destruct (type_in _ _);
      [apply (simulated_OutOfFuel (A := value)) | apply simulated_Ok; assumption].
  - split; [ | split; [ | split]].
    + intros p h H. cbn [factor_at factor].
      apply (simulated_fields self lx p); [assumption | ]. cbv beta iota zeta.
      destruct (ttype (current_token p));
        try apply (simulated_Raise (A := value)).
      * apply simulated_eat_bind; [assumption | ]. intros p1 h1 _ H1.
        apply simulated_bind; [apply IHf; assumption | ].
        intros v q h2 _ H2. apply simulated_Ok. assumption.
      * apply simulated_eat_bind; [assumption | ]. intros p1 h1 _ H1.
        apply simulated_bind; [apply IHf; assumption | ].
        intros v q h2 _ H2. apply simulated_Ok. assumption.
      * apply simulated_eat_bind; [assumption | ]. intros p1 h1 _ H1.
        apply simulated_Ok. assumption.
      * apply simulated_eat_bind; [assumption | ]. intros p1 h1 _ H1.
        apply simulated_bind; [apply IHe; assumption | ].
        intros v q h2 _ H2.
        apply simulated_eat_bind; [assumption | ]. intros p3 h3 _ H3.
        apply simulated_Ok. assumption.
    + intros r p h H. cbn [term_loop_at term_loop].
      apply (simulated_fields self lx p); [assumption | ]. cbv beta iota zeta.
      destruct (ttype (current_token p)); cbn [type_in term_operators existsb
                                                 TokenType_eqb orb];
        try (apply simulated_Ok; assumption).
      * apply simulated_eat_bind; [assumption | ]. intros p1 h1 _ H1.
        apply simulated_bind; [apply IHf; assumption | ].
        intros v q h2 _ H2. cbv beta iota.
        apply simulated_lift_bind. intros r1 _. apply IHl. assumption.
      * apply simulated_eat_bind; [assumption | ]. intros p1 h1 _ H1.
        apply simulated_bind; [apply IHf; assumption | ].
        intros v q h2 _ H2. cbv beta iota.
        destruct (py_eq_zero v); [apply (simulated_Raise (A := value)) | ].
        apply simulated_lift_bind. intros r1 _. apply IHl. assumption.
      * apply simulated_eat_bind; [assumption | ]. intros p1 h1 _ H1.
        apply simulated_bind; [apply IHf; assumption | ].
        intros v q h2 _ H2. cbv beta iota.
        apply simulated_lift_bind. intros r1 _. apply IHl. assumption.
    + intros p h H. cbn [term_at term].
      apply simulated_bind; [apply IHf; assumption | ].
      intros v q h1 _ H1. apply IHl. assumption.
    + intros p h H. cbn [expression_at expression]. apply IHt. assumption.
Qed.

Lemma nth_error_last (h : store) (o : object) :
  nth_error (h ++ [o]) (List.length h) = Some o.
Proof.
  rewrite nth_error_app2 by lia. rewrite Nat.sub_diag. reflexivity.
Qed.

Lemma nth_error_before (h : store) (o : object) (a : nat) :
  (a < List.length h)%nat -> nth_error (h ++ [o]) a = nth_error h a.
Proof. intros H. apply nth_error_app1. exact H. Qed.

(** [evaluate] on a store: the outcome is that of [evaluate] on the text,
    two objects are new, and every object that was there is as it was. *)
Lemma evaluate_in_spec (t : string) (h : store) :
  exists h1,
    evaluate_in t h = Some (evaluate t, h1)
    /\ List.length h1 = S (S (List.length h))
    /\ extends h h1.
Proof.
  set (lx := List.length h). set (self := S lx).
  set (h1 := (h ++ [LexerObject (Lexer_init t)])%list).
  set (h2 := (h1 ++ [ParserObject lx None])%list).
  assert (L1 : List.length h1 = self).
  { unfold h1. rewrite List.length_app. simpl. unfold self, lx. lia. }
  assert (L2 : List.length h2 = S self).
  { unfold h2. rewrite List.length_app. simpl. lia. }
  assert (Hlx : nth_error h2 lx = Some (LexerObject (Lexer_init t))).
  { unfold h2. rewrite nth_error_before by (rewrite L1; unfold self; lia).
    apply nth_error_last. }
  assert (Hself : nth_error h2 self = Some (ParserObject lx None)).
  { unfold h2. rewrite <- L1. apply nth_error_last. }
  assert (Hold : forall a, (a < lx)%nat -> nth_error h2 a = nth_error h a).
  { intros a Ha. unfold h2.
    rewrite nth_error_before by (rewrite L1; unfold self; lia).
    unfold h1. apply nth_error_before. exact Ha. }
  assert (Hne : self <> lx) by (unfold self; lia).
  destruct (call_get_next_token h2 lx _ Hlx) as (l' & E & El).
  assert (Hrun : evaluate_in t h
                 = and_then (call lx get_next_token_in_place)
                     (fun tok => and_then (set_current_token self tok)
                                   (fun _ => parse_at (parse_fuel t) self)) h2).
  { unfold evaluate_in, evaluate_in_with, Lexer_new, Parser_new, and_then, allocate,
      lift.
    fold lx. fold h1. rewrite L1. fold h2.
    destruct (call lx get_next_token_in_place h2) as [[[tok | e | ] h3] | ];
      try reflexivity.
    destruct (set_current_token self tok h3) as [[[[] | e | ] h4] | ]; reflexivity. }
  rewrite Hrun. unfold and_then at 1. rewrite E.
  unfold evaluate, evaluate_with, evaluate_run, Parser_init.
  destruct (get_next_token (Lexer_init t)) as [[tok l1] | e | ]; cbn [value_of bind].
  - rewrite (El tok l1 eq_refl).
    set (h3 := write lx (LexerObject l1) h2).
    unfold and_then, set_current_token.
    assert (H3 : nth_error h3 self = Some (ParserObject lx None)).
    { unfold h3. rewrite nth_error_write_other by congruence. exact Hself. }
    rewrite H3.
    set (h4 := write self (ParserObject lx (Some tok)) h3).
    assert (H4 : holds h4 self lx (mkParser l1 tok)).
    { split; cbn [lexer current_token]; unfold h4.
      - rewrite nth_error_write_other by congruence.
        unfold h3. apply nth_error_write_same. rewrite L2. unfold self. lia.
      - apply nth_error_write_same. unfold h3. rewrite write_length, L2. lia. }
    destruct (proj2 (proj2 (proj2 (grammar_at self lx (parse_fuel t)))) _ _ H4)
      as (h5 & E5 & [L5 K5] & _).
    unfold parse_at. rewrite E5. exists h5.
    split; [reflexivity | ].
    assert (L4 : List.length h4 = S self).
    { unfold h4, h3. rewrite !write_length. exact L2. }
    split; [rewrite L5, L4; reflexivity | ].
    split; [rewrite L5, L4; unfold self, lx; lia | ].
    intros a Ha. fold lx in Ha.
    rewrite K5 by (unfold self; lia).
    unfold h4, h3. rewrite !nth_error_write_other by (unfold self; lia).
    apply Hold. exact Ha.
  - exists (write lx (LexerObject l') h2).
    split; [reflexivity | ]. rewrite write_length, L2.
    split; [reflexivity | ].
    split; [rewrite write_length, L2; unfold self, lx; lia | ].
    intros a Ha. fold lx in Ha.
    rewrite nth_error_write_other by lia. apply Hold. exact Ha.
  - exists (write lx (LexerObject l') h2).
    split; [reflexivity | ]. rewrite write_length, L2.
    split; [reflexivity | ].
    split; [rewrite write_length, L2; unfold self, lx; lia | ].
    intros a Ha. fold lx in Ha.
    rewrite nth_error_write_other by lia. apply Hold. exact Ha.
Qed.

(** A run leaves its two objects in the store: after ["2*3"] on the empty
    store, the lexer at the end of its text and the parser holding the
    end-of-input token. *)
Lemma evaluate_in_leaves_objects :
  evaluate_in "2*3" []
  = Some (Ok (VFloat (S754_finite false 6755399441055744 (-50))),
          [LexerObject (mkLexer "2*3" 3 None 1 4);
           ParserObject 0 (Some (mkToken EOF TVNone 1 4))]).
Proof. vm_compute. reflexivity. Qed.

(** C9: two separate calls of [evaluate] on the same text have the same
    outcome, the same value or the same exception, whatever the store each
    call starts from, in particular the store the other call has left, also
    after an exception.  Each call creates a lexer and a parser of its own,
    two new objects, and leaves every object that was there as it was; its
    outcome is that of [evaluate] by value, a function of the text alone,
    and never the exhaustion of the fuel. *)
Theorem C9_evaluate_is_deterministic (t : string) (h h' : store) :
  exists o h1 h1' h2,
    evaluate_in t h = Some (o, h1)
    /\ evaluate_in t h' = Some (o, h1')
    /\ evaluate_in t h1 = Some (o, h2)
    /\ o = evaluate t
    /\ o <> OutOfFuel
    /\ List.length h1 = S (S (List.length h)) /\ extends h h1
    /\ List.length h2 = S (S (List.length h1)) /\ extends h1 h2.
Proof.
  destruct (evaluate_in_spec t h) as (h1 & E1 & L1 & X1).
  destruct (evaluate_in_spec t h') as (h1' & E1' & _ & _).
  destruct (evaluate_in_spec t h1) as (h2 & E2 & L2 & X2).
  exists (evaluate t), h1, h1', h2.
  split; [exact E1 | ]. split; [exact E1' | ]. split; [exact E2 | ].
  split; [reflexivity | ]. split; [apply evaluate_fuel | ].
  split; [exact L1 | ]. split; [exact X1 | ]. split; [exact L2 | exact X2].
Qed.

(** * Chains of factors *)

Lemma is_operator_cases (c : ascii) :
  is_operator c = true ->
  (c = "*"%char /\ symbol_type c = Some MULTIPLY)
  \/ (c = "/"%char /\ symbol_type c = Some DIVIDE)
  \/ (c = "%"%char /\ symbol_type c = Some MODULO).
Proof.
  unfold is_operator. intros H.
  apply orb_true_iff in H. destruct H as [H | H];
    [apply orb_true_iff in H; destruct H as [H | H] | ];
    apply Ascii.eqb_eq in H; subst c; auto.
Qed.

Lemma sep_type_behind (ops : list (ascii * string * value)) :
  operands ops -> exists ty, sep_type (behind ops) = Some ty.
Proof.
  destruct ops as [ | [[c b] v] ops]; simpl.
  - exists EOF. reflexivity.
  - intros (Hc & _ & _).
    destruct (is_operator_cases c Hc) as [[_ H] | [[_ H] | [_ H]]];
      rewrite H; eauto.
Qed.

(** The loop of [term] in front of the links of a chain applies them from
    left to right. *)
Lemma chain_loop (ops : list (ascii * string * value)) :
  operands ops ->
  forall n r q,
    in_step (lexer q) ->
    sep_type (behind ops) = Some (ttype (current_token q)) ->
    rest (lexer q) = tail (behind ops) ->
    (3 * String.length (behind ops) <= n)%nat ->
    value_of (term_loop n r q) = left_to_right r ops.
Proof.
  induction ops as [ | [[c b] v] ops IH]; intros Hops n r q Hi Hty Hr Hn.
  - simpl in Hty. inversion Hty as [Heof].
    rewrite term_loop_stops by (rewrite <- Heof; reflexivity). reflexivity.
  - destruct Hops as (Hc & Hb & Hops).
    cbn [behind] in Hty, Hr, Hn. cbn [sep_type] in Hty. cbn [tail] in Hr.
    cbn [String.length] in Hn. rewrite length_append in Hn.
    destruct n as [ | n]; [lia | ].
    destruct (whole_factor_inv b v Hb) as (tokb & lb & qb & Gb & Fb & Heb).
    destruct (sep_type_behind ops Hops) as [ty Hsep].
    destruct (get_next_token_follows (behind ops) ty Hsep
                (Lexer_init b) (lexer q) lb tokb (in_step_init _) Hi Hr Gb)
      as (tok' & l' & G' & Fo).
    destruct (proj1 (grammar_follows (behind ops) ty Hsep n)
                _ _ _ _ Fo (Fb n ltac:(lia))) as (q' & E' & Fq).
    destruct (follows_at_end _ ty qb q' Hsep Fq Heb) as (Hty' & Hi' & Hr').
    assert (Hnext : forall r1, value_of (term_loop n r1 q') = left_to_right r1 ops).
    { intros r1. apply IH; try assumption; [congruence | lia]. }
    cbn [left_to_right].
    assert (He : eat (ttype (current_token q)) q = Ok (mkParser l' tok')).
    { unfold eat.
      replace (TokenType_eqb (ttype (current_token q)) (ttype (current_token q)))
        with true by (symmetry; apply TokenType_eqb_eq; reflexivity).
      rewrite G'. reflexivity. }
    destruct (is_operator_cases c Hc) as [[-> Hs] | [[-> Hs] | [-> Hs]]];
      rewrite Hs in Hty; inversion Hty as [Hop]; symmetry in Hop;
      rewrite Hop in He; simpl term_loop; rewrite Hop; simpl;
      rewrite He; simpl; rewrite E'; simpl.
    + change (operate "*" r v) with (py_mul r v).
      destruct (py_mul r v) as [r1 | e | ]; simpl; try reflexivity.
      apply Hnext.
    + change (operate "/" r v)
        with (if py_eq_zero v then Raise DivisionByZero else py_truediv r v).
      destruct (py_eq_zero v); [reflexivity | ].
      destruct (py_truediv r v) as [r1 | e | ]; simpl; try reflexivity.
      apply Hnext.
    + change (operate "%" r v) with (py_mod r v).
      destruct (py_mod r v) as [r1 | e | ]; simpl; try reflexivity.
      apply Hnext.
Qed.

Lemma evaluate_chain (a : string) (va : value) (ops : list (ascii * string * value)) :
  whole_factor a va -> operands ops ->
  evaluate (chain a ops) = left_to_right va ops.
Proof.
  intros Ha Hops. set (T := chain a ops).
  assert (HT : String.length T
               = (String.length a + String.length (behind ops))%nat).
  { unfold T, chain. apply length_append. }
  destruct (whole_factor_inv a va Ha) as (tok & l & q & G & F & He).
  destruct (sep_type_behind ops Hops) as [ty Hsep].
  destruct (get_next_token_follows (behind ops) ty Hsep
              (Lexer_init a) (Lexer_init T) l tok
              (in_step_init _) (in_step_init _) eq_refl G)
    as (tok' & l' & G' & Fo).
  destruct (proj1 (grammar_follows (behind ops) ty Hsep (S (3 * String.length T)))
              _ _ _ _ Fo (F (S (3 * String.length T)) ltac:(lia))) as (q' & E' & Fq).
  destruct (follows_at_end _ ty q q' Hsep Fq He) as (Hty & Hi & Hr).
  rewrite (evaluate_from_token _ _ _ G'). rewrite E'. cbn [bind].
  apply (chain_loop ops Hops (S (3 * String.length T)) va q' Hi);
    [congruence | assumption | lia].
Qed.

(** C4: the multiplicative operators compute the host's float arithmetic
    and associate to the left.  For every chain [a c1 b1 c2 b2 ...] of whole
    factors joined by [*], [/] and [%], [evaluate] is the operators applied
    from left to right to the values of the factors; on floats [*] is the
    binary64 product, [/] the binary64 quotient behind the check of the
    divisor, and [%] the host's float remainder; and [2*3 = 6.0],
    [10/4 = 2.5], [10%3 = 1.0]. *)
Theorem C4_multiplicative_operators
  (a : string) (va : value) (ops : list (ascii * string * value)) :
  whole_factor a va -> operands ops ->
  evaluate (chain a ops) = left_to_right va ops
  /\ (forall x y : float,
        operate "*" (VFloat x) (VFloat y) = Ok (VFloat (mul x y))
        /\ operate "/" (VFloat x) (VFloat y)
           = (if is_zero y then Raise DivisionByZero else Ok (VFloat (div x y)))
        /\ operate "%" (VFloat x) (VFloat y)
           = (r <- float_rem x y ;; Ok (VFloat r)))
  /\ is_float (evaluate "2*3") (6 # 1)
  /\ is_float (evaluate "10/4") (5 # 2)
  /\ is_float (evaluate "10%3") (1 # 1).
Proof.
  intros Ha Hops.
  split; [apply (evaluate_chain a va ops Ha Hops) | ].
  split.
  - intros x y. split; [reflexivity | ]. split.
    + unfold operate, py_eq_zero, py_truediv, float_div. simpl.
      destruct (is_zero y); reflexivity.
    + reflexivity.
  - repeat split; exact_float.
Qed.

Lemma C4_multiplicative_operators_witness :
  (whole_factor "7" (VFloat (S754_finite false 7881299347898368 (-50)))
   /\ operands [("%"%char, "4", VFloat (S754_finite false 4503599627370496 (-50)));
                ("*"%char, "-2", VFloat (S754_finite true 4503599627370496 (-51)));
                ("/"%char, "4", VFloat (S754_finite false 4503599627370496 (-50)))])
  /\ (evaluate
        (chain "7"
           [("%"%char, "4", VFloat (S754_finite false 4503599627370496 (-50)));
            ("*"%char, "-2", VFloat (S754_finite true 4503599627370496 (-51)));
            ("/"%char, "4", VFloat (S754_finite false 4503599627370496 (-50)))])
      = left_to_right (VFloat (S754_finite false 7881299347898368 (-50)))
          [("%"%char, "4", VFloat (S754_finite false 4503599627370496 (-50)));
           ("*"%char, "-2", VFloat (S754_finite true 4503599627370496 (-51)));
           ("/"%char, "4", VFloat (S754_finite false 4503599627370496 (-50)))]
      /\ (forall x y : float,
            operate "*" (VFloat x) (VFloat y) = Ok (VFloat (mul x y))
            /\ operate "/" (VFloat x) (VFloat y)
               = (if is_zero y then Raise DivisionByZero else Ok (VFloat (div x y)))
            /\ operate "%" (VFloat x) (VFloat y)
               = (r <- float_rem x y ;; Ok (VFloat r)))
      /\ is_float (evaluate "2*3") (6 # 1)
      /\ is_float (evaluate "10/4") (5 # 2)
      /\ is_float (evaluate "10%3") (1 # 1)).
Proof.
  assert (H7 : whole_factor "7" (VFloat (S754_finite false 7881299347898368 (-50)))).
  { exists 1%nat. eexists. eexists.
    split; [vm_compute; reflexivity | split; vm_compute; reflexivity]. }
  assert (H4 : whole_factor "4" (VFloat (S754_finite false 4503599627370496 (-50)))).
  { exists 1%nat. eexists. eexists.
    split; [vm_compute; reflexivity | split; vm_compute; reflexivity]. }
  assert (H2 : whole_factor "-2" (VFloat (S754_finite true 4503599627370496 (-51)))).
  { exists 2%nat. eexists. eexists.
    split; [vm_compute; reflexivity | split; vm_compute; reflexivity]. }
  assert (Hops : operands
                   [("%"%char, "4", VFloat (S754_finite false 4503599627370496 (-50)));
                    ("*"%char, "-2", VFloat (S754_finite true 4503599627370496 (-51)));
                    ("/"%char, "4", VFloat (S754_finite false 4503599627370496 (-50)))]).
  { simpl. repeat split; assumption. }
  split; [split; assumption | ].
  apply (C4_multiplicative_operators "7" _ _ H7 Hops).
Defined.

(** The chain of the witness: [7%4*-2/4] is [((7%4)*-2)/4 = -1.5]. *)
Lemma chain_example :
  chain "7"
    [("%"%char, "4", VFloat (S754_finite false 4503599627370496 (-50)));
     ("*"%char, "-2", VFloat (S754_finite true 4503599627370496 (-51)));
     ("/"%char, "4", VFloat (S754_finite false 4503599627370496 (-50)))]
  = "7%4*-2/4"
  /\ is_float (evaluate "7%4*-2/4") (-3 # 2).
Proof. split; [reflexivity | exact_float]. Qed.
